(** * Priority-queue scheduler core and request timers

    A shallow embedding of
    - [src/core/scheduler_utils.cc]: [CompareWithPendingShape],
      [PriorityQueue::PolicyQueue] and [PriorityQueue] with its pending
      cursor;
    - [src/clients/c++/experimental_api_v2/library/common.h]:
      [RequestTimers].

    Conventions.
    - [uint64_t] and [size_t] values are integers in [0, 2^64); every
      arithmetic operation of the source that can leave that range is
      written with [u64] (reduction modulo 2^64).
    - [std::deque] is a list, front at the head; [std::map] keyed by the
      priority level is an association list kept in increasing key order,
      so that iterating the list is iterating the map.
    - [clock_gettime(CLOCK_MONOTONIC, _)] followed by [TIMESPEC_TO_NANOS] is
      an explicit argument holding the value that was read. *)

From Stdlib Require Import ZArith Lia.
From stdpp Require Import base list strings gmap sorting.
From Equations Require Import Equations.

Local Open Scope Z_scope.

(** ** Machine integers *)

Definition U64_MODULUS : Z := 2 ^ 64.

(** [std::numeric_limits<uint64_t>::max()] *)
Definition U64_MAX : Z := U64_MODULUS - 1.

(** The value an unsigned 64-bit object holds after being assigned [x]. *)
Definition u64 (x : Z) : Z := x mod U64_MODULUS.

Definition is_u64 (x : Z) : Prop := 0 <= x < U64_MODULUS.

(** [std::numeric_limits<uint32_t>::max()] *)
Definition UINT32_MAX : Z := 4294967295.

(** ** RequestTimers (common.h) *)

Module RequestTimers.

Inductive Kind : Set :=
| REQUEST_START
| REQUEST_END
| SEND_START
| SEND_END
| RECV_START
| RECV_END.

(** [Kind::COUNT__] *)
Definition COUNT__ : nat := 6.

(** [(size_t)kind] *)
Definition index (k : Kind) : nat :=
  match k with
  | REQUEST_START => 0
  | REQUEST_END => 1
  | SEND_START => 2
  | SEND_END => 3
  | RECV_START => 4
  | RECV_END => 5
  end%nat.

(** The only member: [std::vector<uint64_t> timestamps_]. *)
Record t : Type := Build { timestamps_ : list Z }.

(** [Reset]: the [memset] zeroes every slot and keeps the length. *)
Definition Reset (r : t) : t :=
  {| timestamps_ := replicate (length (timestamps_ r)) 0 |}.

(** The constructor: a vector of [COUNT__] slots, then [Reset]. *)
Definition ctor : t := Reset {| timestamps_ := replicate COUNT__ 0 |}.

(** Every timer the class can hold: [COUNT__] slots of [uint64_t]. The
    vector is never resized, so [timestamps_[(size_t)kind]] is always in
    range. *)
Definition wf (r : t) : Prop :=
  length (timestamps_ r) = COUNT__ /\ Forall is_u64 (timestamps_ r).

Definition Timestamp (r : t) (kind : Kind) : Z :=
  nth (index kind) (timestamps_ r) 0.

(** [CaptureTimestamp], the clock reading being [now]. *)
Definition CaptureTimestamp (r : t) (kind : Kind) (now : Z) : Z * t :=
  let ts := u64 now in
  (ts, {| timestamps_ := <[index kind := ts]> (timestamps_ r) |}).

Definition Duration (r : t) (start end_ : Kind) : Z :=
  let stime := nth (index start) (timestamps_ r) 0 in
  let etime := nth (index end_) (timestamps_ r) 0 in
  if (stime =? 0) || (etime =? 0) then U64_MAX
  else if stime >? etime then U64_MAX else u64 (etime - stime).

End RequestTimers.

(** ** Requests, payloads and status *)

(** The part of an inference request input the scheduler reads. *)
Record Input : Type := {
  Name : string;
  Shape : list Z
}.

(** The accessors of the request that the scheduler calls. [Inputs] is the
    name-keyed map of the request in its iteration order. *)
Record InferenceRequest : Type := {
  Inputs : list (string * Input);
  BatchSize : Z;
  TimeoutMs : Z
}.

(** [Scheduler::Payload]: [request_provider_->Request()] and the
    [kQueueStart] timestamp of [stats_], in nanoseconds. *)
Record Payload : Type := {
  Request : InferenceRequest;
  QueueStartNs : Z
}.

Inductive RequestStatusCode : Set :=
| SUCCESS
| UNKNOWN
| INTERNAL
| NOT_FOUND
| INVALID_ARG
| UNAVAILABLE
| UNSUPPORTED
| ALREADY_EXISTS.

Record Status : Type := mkStatus {
  Code : RequestStatusCode;
  Message : string
}.

Definition Status_Success : Status := mkStatus SUCCESS "".

Definition IsOk (s : Status) : bool :=
  match Code s with SUCCESS => true | _ => false end.

(** ** Shape comparison *)

(** Modelled from the spec: [CompareDims] is declared outside the two files
    under verification; the spec reads it as "the declared shapes must be
    equal element-wise". *)
Fixpoint CompareDims (dims0 dims1 : list Z) : bool :=
  match dims0, dims1 with
  | [], [] => true
  | d0 :: r0, d1 :: r1 => (d0 =? d1) && CompareDims r0 r1
  | _, _ => false
  end.

(** [PendingBatchShapes]: input name to (declared shape, shape-tensor
    contents). *)
Abbreviation PendingBatchShapes := (gmap string (list Z * list Z)).

Section ShapeCompare.

(** [Scheduler::StandardShapeTensorPeekFunc]: the runner's callback, with the
    vector it leaves in its output argument. *)
Variable OnPeek : Z -> Input -> Payload -> Status * list Z.

(** The [for] loop of [InitPendingShape] over the remaining inputs;
    [RETURN_IF_ERROR] leaves with the shapes gathered so far. [emplace]
    keeps an entry that is already there. *)
Fixpoint InitPendingShape_loop (runner_id : Z) (payload : Payload)
    (enforce_equal_shape_tensors : gmap string bool)
    (inputs : list (string * Input)) (pending_batch_shapes : PendingBatchShapes)
    : Status * PendingBatchShapes :=
  match inputs with
  | [] => (Status_Success, pending_batch_shapes)
  | pr :: rest =>
      let input := pr.2 in
      match enforce_equal_shape_tensors !! Name input with
      | Some is_shape_tensor =>
          let peeked : Status * list Z :=
            if is_shape_tensor : bool then OnPeek runner_id input payload
            else (Status_Success, @nil Z) in
          if IsOk peeked.1 then
            let shapes := (Shape input, peeked.2) in
            let pending' :=
              match pending_batch_shapes !! Name input with
              | Some _ => pending_batch_shapes
              | None => <[Name input := shapes]> pending_batch_shapes
              end in
            InitPendingShape_loop runner_id payload enforce_equal_shape_tensors
              rest pending'
          else (peeked.1, pending_batch_shapes)
      | None =>
          InitPendingShape_loop runner_id payload enforce_equal_shape_tensors
            rest pending_batch_shapes
      end
  end.

Definition InitPendingShape (runner_id : Z) (payload : Payload)
    (enforce_equal_shape_tensors : gmap string bool)
    : Status * PendingBatchShapes :=
  InitPendingShape_loop runner_id payload enforce_equal_shape_tensors
    (Inputs (Request payload)) ∅.

(** The [for] loop of [CompareWithPendingShape] over the remaining inputs. *)
Fixpoint CompareWithPendingShape_loop (runner_id : Z) (payload : Payload)
    (inputs : list (string * Input)) (pending_batch_shapes : PendingBatchShapes)
    : bool :=
  match inputs with
  | [] => true
  | pr :: rest =>
      let input := pr.2 in
      match pending_batch_shapes !! Name input with
      | Some itr =>
          if negb (CompareDims itr.1 (Shape input)) then false
          else
            match itr.2 with
            | _ :: _ =>
                let peeked : Status * list Z :=
                  OnPeek runner_id input payload in
                if negb (IsOk peeked.1) then false
                else if negb (CompareDims itr.2 peeked.2) then false
                else CompareWithPendingShape_loop runner_id payload rest
                       pending_batch_shapes
            | [] =>
                CompareWithPendingShape_loop runner_id payload rest
                  pending_batch_shapes
            end
      | None =>
          CompareWithPendingShape_loop runner_id payload rest
            pending_batch_shapes
      end
  end.

Definition CompareWithPendingShape (runner_id : Z) (payload : Payload)
    (pending_batch_shapes : PendingBatchShapes) : bool :=
  CompareWithPendingShape_loop runner_id payload (Inputs (Request payload))
    pending_batch_shapes.

End ShapeCompare.

(** ** Queue policy *)

Module ModelQueuePolicy.

Inductive TimeoutAction : Set :=
| REJECT
| DELAY.

(** Modelled from the spec: the [ModelQueuePolicy] message is generated
    code that is not among the sources; the spec lists its fields as
    [max_queue_size] (0 = unbounded), [default_timeout_us],
    [allow_timeout_override] and [timeout_action ∈ {REJECT, DELAY}]. *)
Record t : Type := Build {
  timeout_action : TimeoutAction;
  default_timeout_us : Z;
  allow_timeout_override : bool;
  max_queue_size : Z
}.

End ModelQueuePolicy.

(** ** PriorityQueue::PolicyQueue *)

Module PolicyQueue.

Import ModelQueuePolicy.

(** The members the member functions of the source read and write. *)
Record t : Type := Build {
  timeout_action_ : TimeoutAction;
  default_timeout_ms_ : Z;
  allow_timeout_override_ : bool;
  max_queue_size_ : Z;
  timeout_timestamp_ns_ : list Z;
  queue_ : list Payload;
  delayed_queue_ : list Payload;
  rejected_queue_ : list Payload
}.

(** Modelled from the spec: the constructor from a policy is in the header,
    which is not among the sources. The spec's PolicyQueue is one priority
    level with the policy of that level and three FIFOs, empty at
    creation. *)
Definition ctor (policy : ModelQueuePolicy.t) : t :=
  {| timeout_action_ := timeout_action policy;
     default_timeout_ms_ := default_timeout_us policy;
     allow_timeout_override_ := allow_timeout_override policy;
     max_queue_size_ := max_queue_size policy;
     timeout_timestamp_ns_ := [];
     queue_ := [];
     delayed_queue_ := [];
     rejected_queue_ := [] |}.

(** Replace the four deques, keep the policy. *)
Definition with_queues (q : t) (timeouts : list Z)
    (main delayed rejected : list Payload) : t :=
  {| timeout_action_ := timeout_action_ q;
     default_timeout_ms_ := default_timeout_ms_ q;
     allow_timeout_override_ := allow_timeout_override_ q;
     max_queue_size_ := max_queue_size_ q;
     timeout_timestamp_ns_ := timeouts;
     queue_ := main;
     delayed_queue_ := delayed;
     rejected_queue_ := rejected |}.

(** Modelled from the spec: [Size] and [Empty] are defined in the header.
    The spec indexes a PolicyQueue as the concatenation of [main] and
    [delayed], dequeues from both and harvests [rejected] separately, so
    the size counts [main] and [delayed]. *)
Definition Size (q : t) : Z :=
  Z.of_nat (length (queue_ q)) + Z.of_nat (length (delayed_queue_ q)).

Definition Empty (q : t) : bool := Size q =? 0.

Definition Enqueue (q : t) (payload : Payload) (now : Z) : Status * t :=
  if negb (max_queue_size_ q =? 0) && (Size q >=? max_queue_size_ q) then
    (mkStatus UNAVAILABLE "Exceeds maximum queue size", q)
  else
    let timeout_ms := default_timeout_ms_ q in
    let timeout_ms :=
      if allow_timeout_override_ q then
        let override_timeout_ms := TimeoutMs (Request payload) in
        if negb (override_timeout_ms =? 0) && (override_timeout_ms <? timeout_ms)
        then override_timeout_ms else timeout_ms
      else timeout_ms in
    let timeout_timestamp :=
      if negb (timeout_ms =? 0) then u64 (now + u64 (timeout_ms * 1000))
      else 0 in
    (Status_Success,
     with_queues q (timeout_timestamp_ns_ q ++ [timeout_timestamp])
       (queue_ q ++ [payload]) (delayed_queue_ q) (rejected_queue_ q)).

(** [None]: called on an empty queue, where [delayed_queue_.front()] is
    undefined. *)
Definition Dequeue (q : t) : option (Payload * t) :=
  match queue_ q with
  | res :: main' =>
      Some (res, with_queues q (tail (timeout_timestamp_ns_ q)) main'
                   (delayed_queue_ q) (rejected_queue_ q))
  | [] =>
      match delayed_queue_ q with
      | res :: delayed' =>
          Some (res, with_queues q (timeout_timestamp_ns_ q) [] delayed'
                       (rejected_queue_ q))
      | [] => None
      end
  end.

(** The test of the [if] in the loop of [ApplyPolicy]. *)
Definition timed_out (now_nanoseconds timeout_timestamp : Z) : bool :=
  negb (timeout_timestamp =? 0) && (now_nanoseconds >? timeout_timestamp).

(** The body of that [if] for the payload [p] found at [idx]: the move to the
    delayed or rejected queue, then the two [erase]s. *)
Definition timeout_move (q : t) (idx : nat) (p : Payload) : t :=
  match timeout_action_ q with
  | DELAY =>
      with_queues q (delete idx (timeout_timestamp_ns_ q))
        (delete idx (queue_ q)) (delayed_queue_ q ++ [p]) (rejected_queue_ q)
  | REJECT =>
      with_queues q (delete idx (timeout_timestamp_ns_ q))
        (delete idx (queue_ q)) (delayed_queue_ q) (rejected_queue_ q ++ [p])
  end.

Definition timeout_count (q : t) (rejected_count : Z) : Z :=
  match timeout_action_ q with
  | DELAY => rejected_count
  | REJECT => u64 (rejected_count + 1)
  end.

Definition timeout_batch_size (q : t) (p : Payload) (rejected_batch_size : Z)
    : Z :=
  match timeout_action_ q with
  | DELAY => rejected_batch_size
  | REJECT => u64 (rejected_batch_size + BatchSize (Request p))
  end.

Definition inspect {A : Type} (a : A) : {b : A | a = b} := exist _ a eq_refl.

(** The [while] loop of [ApplyPolicy]. [queue_ !! idx] is [Some] exactly
    when [idx < queue_.size()]. The result is the returned flag, the queue,
    [*rejected_count] and [*rejected_batch_size]. *)
Equations? ApplyPolicy_loop (q : t) (idx : Z)
    (rejected_count rejected_batch_size : Z) (now_nanoseconds : Z)
    : bool * t * Z * Z
    by wf (length (queue_ q) - Z.to_nat idx)%nat lt :=
ApplyPolicy_loop q idx rejected_count rejected_batch_size now_nanoseconds
  with inspect (queue_ q !! Z.to_nat idx) := {
  | exist _ None _ =>
      (u64 (idx - Z.of_nat (length (queue_ q)))
         <? Z.of_nat (length (delayed_queue_ q)),
       q, rejected_count, rejected_batch_size)
  | exist _ (Some p) Hp =>
      if timed_out now_nanoseconds
           (nth (Z.to_nat idx) (timeout_timestamp_ns_ q) 0)
      then
        ApplyPolicy_loop (timeout_move q (Z.to_nat idx) p) idx
          (timeout_count q rejected_count)
          (timeout_batch_size q p rejected_batch_size) now_nanoseconds
      else (true, q, rejected_count, rejected_batch_size) }.
Proof.
  pose proof (lookup_lt_Some _ _ _ Hp) as Hlt.
  assert (length (queue_ (timeout_move q (Z.to_nat idx) p))
          = (length (queue_ q) - 1)%nat) as ->.
  { unfold timeout_move. destruct (timeout_action_ q); simpl;
      apply length_delete; rewrite Hp; eauto. }
  lia.
Defined.

Definition ApplyPolicy (q : t) (idx : Z)
    (rejected_count rejected_batch_size : Z) (now_nanoseconds : Z)
    : bool * t * Z * Z :=
  ApplyPolicy_loop q idx rejected_count rejected_batch_size now_nanoseconds.

Definition ReleaseRejectedQueue (q : t) : list Payload * t :=
  (rejected_queue_ q,
   with_queues q (timeout_timestamp_ns_ q) (queue_ q) (delayed_queue_ q) []).

(** [None]: [idx] is past the end of both deques. *)
Definition At (q : t) (idx : Z) : option Payload :=
  if idx <? Z.of_nat (length (queue_ q)) then queue_ q !! Z.to_nat idx
  else delayed_queue_ q !! Z.to_nat (u64 (idx - Z.of_nat (length (queue_ q)))).

Definition TimeoutAt (q : t) (idx : Z) : Z :=
  if idx <? Z.of_nat (length (queue_ q))
  then nth (Z.to_nat idx) (timeout_timestamp_ns_ q) 0
  else 0.

(** The two deques that run in parallel have one length. Outside of this
    the indexing of [timeout_timestamp_ns_] in the source is undefined. *)
Definition wf (q : t) : Prop :=
  length (timeout_timestamp_ns_ q) = length (queue_ q).

End PolicyQueue.

(** ** The ordered map of priority levels *)

(** [std::map<uint32_t, PolicyQueue>] as the list of its entries in
    increasing key order. An iterator is the key of the entry it points at,
    [None] for [end()]: entries are never erased and an insertion leaves
    every iterator on its entry. *)
Abbreviation PriorityQueues := (list (Z * PolicyQueue.t)).

(** [find] *)
Fixpoint map_find (k : Z) (m : PriorityQueues) : option PolicyQueue.t :=
  match m with
  | [] => None
  | (k', v) :: m' => if k' =? k then Some v else map_find k m'
  end.

(** Store [v] under [k], at the place the order gives it. *)
Fixpoint map_set (k : Z) (v : PolicyQueue.t) (m : PriorityQueues)
    : PriorityQueues :=
  match m with
  | [] => [(k, v)]
  | (k', v') :: m' =>
      if k <? k' then (k, v) :: m
      else if k =? k' then (k, v) :: m'
      else (k', v') :: map_set k v m'
  end.

(** [emplace]: nothing happens when the key is present. *)
Definition map_emplace (k : Z) (v : PolicyQueue.t) (m : PriorityQueues)
    : PriorityQueues :=
  match map_find k m with
  | Some _ => m
  | None => map_set k v m
  end.

(** [begin()] *)
Definition map_begin (m : PriorityQueues) : option Z :=
  match m with
  | [] => None
  | (k, _) :: _ => Some k
  end.

(** The entries before the one an iterator at key [k] points at, and the
    entries from it on. *)
Fixpoint map_split (k : Z) (m : PriorityQueues)
    : PriorityQueues * PriorityQueues :=
  match m with
  | [] => ([], [])
  | (k', v) :: m' =>
      if k' <? k then
        let '(before, from) := map_split k m' in ((k', v) :: before, from)
      else ([], m)
  end.

Definition keys (m : PriorityQueues) : list Z := fst <$> m.

(** ** PriorityQueue *)

Module PriorityQueue.

(** [PriorityQueue::Cursor] *)
Record Cursor : Type := mkCursor {
  curr_it_ : option Z;
  queue_idx_ : Z;
  pending_batch_closest_timeout_ns_ : Z;
  pending_batch_oldest_enqueue_time_ns_ : Z;
  pending_batch_count_ : Z;
  valid_ : bool
}.

(** [Cursor::Cursor(start_it)] *)
Definition Cursor_ctor (start_it : option Z) : Cursor :=
  {| curr_it_ := start_it;
     queue_idx_ := 0;
     pending_batch_closest_timeout_ns_ := 0;
     pending_batch_oldest_enqueue_time_ns_ := 0;
     pending_batch_count_ := 0;
     valid_ := true |}.

Record t : Type := Build {
  queues_ : PriorityQueues;
  size_ : Z;
  pending_cursor_ : Cursor
}.

(** Modelled from the spec: [ResetCursor] is defined in the header.
    "Sets [curr_it = queues.begin()], [queue_idx = 0], counters = 0,
    [valid = true]." *)
Definition ResetCursor (pq : t) : t :=
  {| queues_ := queues_ pq;
     size_ := size_ pq;
     pending_cursor_ := Cursor_ctor (map_begin (queues_ pq)) |}.

(** The [for] loop of the constructor over [level = 1 .. priority_levels]. *)
Fixpoint ctor_levels (default_queue_policy : ModelQueuePolicy.t)
    (queue_policy_map : gmap Z ModelQueuePolicy.t) (levels : list Z)
    (queues : PriorityQueues) : PriorityQueues :=
  match levels with
  | [] => queues
  | level :: levels' =>
      let policy :=
        match queue_policy_map !! level with
        | None => default_queue_policy
        | Some p => p
        end in
      ctor_levels default_queue_policy queue_policy_map levels'
        (map_emplace level (PolicyQueue.ctor policy) queues)
  end.

(** [PriorityQueue(default_queue_policy, priority_levels, queue_policy_map)],
    for [priority_levels] below [UINT32_MAX]. At [UINT32_MAX] the [uint32_t]
    loop counter of the source wraps to 0 and the loop does not end, so the
    constructor does not return; every statement about [ctor] carries the
    bound [Z.of_nat priority_levels < UINT32_MAX]. *)
Definition ctor (default_queue_policy : ModelQueuePolicy.t)
    (priority_levels : nat) (queue_policy_map : gmap Z ModelQueuePolicy.t)
    : t :=
  let queues :=
    match priority_levels with
    | O => map_emplace 0 (PolicyQueue.ctor default_queue_policy) []
    | _ =>
        ctor_levels default_queue_policy queue_policy_map
          (Z.of_nat <$> seq 1 priority_levels) []
    end in
  ResetCursor
    {| queues_ := queues; size_ := 0; pending_cursor_ := Cursor_ctor None |}.

Definition with_valid (c : Cursor) (valid : bool) : Cursor :=
  {| curr_it_ := curr_it_ c;
     queue_idx_ := queue_idx_ c;
     pending_batch_closest_timeout_ns_ := pending_batch_closest_timeout_ns_ c;
     pending_batch_oldest_enqueue_time_ns_ :=
       pending_batch_oldest_enqueue_time_ns_ c;
     pending_batch_count_ := pending_batch_count_ c;
     valid_ := valid |}.

Section WithDefaultPolicy.

(** The policy of the header's default-constructed [PolicyQueue], which
    [queues_[priority_level]] creates for a level that has no entry. *)
Variable default_policy : ModelQueuePolicy.t.

(** [queues_[k]] read: the entry, or the one [operator[]] creates. *)
Definition map_at (k : Z) (m : PriorityQueues) : PolicyQueue.t :=
  match map_find k m with
  | Some q => q
  | None => PolicyQueue.ctor default_policy
  end.

(** [None]: the cursor is valid and at [end()], where reading
    [curr_it_->first] is undefined. *)
Definition Enqueue (pq : t) (priority_level : Z) (payload : Payload)
    (now : Z) : option (Status * t) :=
  let '(status, q') :=
    PolicyQueue.Enqueue (map_at priority_level (queues_ pq)) payload now in
  let queues' := map_set priority_level q' (queues_ pq) in
  if IsOk status then
    let c := pending_cursor_ pq in
    if valid_ c then
      match curr_it_ c with
      | Some level =>
          Some (status,
                {| queues_ := queues';
                   size_ := u64 (size_ pq + 1);
                   pending_cursor_ := with_valid c (priority_level >? level) |})
      | None => None
      end
    else
      Some (status,
            {| queues_ := queues';
               size_ := u64 (size_ pq + 1);
               pending_cursor_ := with_valid c false |})
  else
    Some (status,
          {| queues_ := queues';
             size_ := size_ pq;
             pending_cursor_ := pending_cursor_ pq |}).

End WithDefaultPolicy.

(** The [for] loop of [Dequeue]: the payload and the level it came from, with
    the entries after the dequeue; [None] when every level is empty. *)
Fixpoint Dequeue_loop (queues : PriorityQueues)
    : option (Payload * Z * PriorityQueues) :=
  match queues with
  | [] => None
  | (level, q) :: rest =>
      if negb (PolicyQueue.Empty q) then
        match PolicyQueue.Dequeue q with
        | Some (res, q') => Some (res, level, (level, q') :: rest)
        | None => None
        end
      else
        match Dequeue_loop rest with
        | Some (res, l, rest') => Some (res, l, (level, q) :: rest')
        | None => None
        end
  end.

(** [inl tt] is the [std::out_of_range] the source throws. *)
Definition Dequeue (pq : t) : (unit + Payload) * t :=
  let c := with_valid (pending_cursor_ pq) false in
  match Dequeue_loop (queues_ pq) with
  | Some (res, _, queues') =>
      (inr res,
       {| queues_ := queues'; size_ := u64 (size_ pq - 1);
          pending_cursor_ := c |})
  | None =>
      (inl tt,
       {| queues_ := queues_ pq; size_ := size_ pq; pending_cursor_ := c |})
  end.

Definition ReleaseRejectedPayloads (pq : t) : list (list Payload) * t :=
  ((fun e => (PolicyQueue.ReleaseRejectedQueue e.2).1) <$> queues_ pq,
   {| queues_ :=
        (fun e => (e.1, (PolicyQueue.ReleaseRejectedQueue e.2).2))
          <$> queues_ pq;
      size_ := size_ pq;
      pending_cursor_ := pending_cursor_ pq |}).

Definition IsCursorValid (pq : t) (now : Z) : bool :=
  if valid_ (pending_cursor_ pq) then
    now <? pending_batch_closest_timeout_ns_ (pending_cursor_ pq)
  else false.

(** The [while] loop of [ApplyPolicyAtCursor] with the cursor on the first
    entry of [from] ([end()] when [from] is empty). [now k] is the clock
    reading of the [k]-th call of [ApplyPolicy]. The result is the entries
    of [from] after the walk, [curr_it_], [queue_idx_], [rejected_count]
    and [rejected_batch_size]. *)
Fixpoint ApplyPolicyAtCursor_loop (now : nat -> Z) (k : nat)
    (from : PriorityQueues) (queue_idx size pending_batch_count : Z)
    (rejected_count rejected_batch_size : Z)
    : PriorityQueues * option Z * Z * Z * Z :=
  match from with
  | [] => ([], None, queue_idx, rejected_count, rejected_batch_size)
  | (level, q) :: rest =>
      let '(found, q', rejected_count', rejected_batch_size') :=
        PolicyQueue.ApplyPolicy q queue_idx rejected_count
          rejected_batch_size (now k) in
      if negb found && (size >? u64 (pending_batch_count + rejected_count'))
      then
        let '(rest', it, idx, rc, rbs) :=
          ApplyPolicyAtCursor_loop now (S k) rest 0 size pending_batch_count
            rejected_count' rejected_batch_size' in
        ((level, q') :: rest', it, idx, rc, rbs)
      else
        ((level, q') :: rest, Some level, queue_idx, rejected_count',
         rejected_batch_size')
  end.

(** The returned [rejected_batch_size] and the queue. The [assert] of the
    source is [curr_it_ <> None] on the returned queue. *)
Definition ApplyPolicyAtCursor (pq : t) (now : nat -> Z) : Z * t :=
  let c := pending_cursor_ pq in
  let '(before, from) :=
    match curr_it_ c with
    | None => (queues_ pq, [])
    | Some level => map_split level (queues_ pq)
    end in
  let '(from', it, idx, rejected_count, rejected_batch_size) :=
    ApplyPolicyAtCursor_loop now 0 from (queue_idx_ c) (size_ pq)
      (pending_batch_count_ c) 0 0 in
  (rejected_batch_size,
   {| queues_ := before ++ from';
      size_ := u64 (size_ pq - rejected_count);
      pending_cursor_ :=
        {| curr_it_ := it;
           queue_idx_ := idx;
           pending_batch_closest_timeout_ns_ :=
             pending_batch_closest_timeout_ns_ c;
           pending_batch_oldest_enqueue_time_ns_ :=
             pending_batch_oldest_enqueue_time_ns_ c;
           pending_batch_count_ := pending_batch_count_ c;
           valid_ := valid_ c |} |}).

(** [std::min] when the running value is set, the new value otherwise. *)
Definition min_or_first (running new : Z) : Z :=
  if negb (running =? 0) then Z.min running new else new.

(** [None]: the cursor is at [end()] or on no payload, where the source
    dereferences out of range. *)
Definition AdvanceCursor (pq : t) : option t :=
  let c := pending_cursor_ pq in
  if pending_batch_count_ c >=? size_ pq then Some pq
  else
    match curr_it_ c with
    | None => None
    | Some level =>
        match map_find level (queues_ pq) with
        | None => None
        | Some q =>
            let timeout_ns := PolicyQueue.TimeoutAt q (queue_idx_ c) in
            let closest :=
              if negb (timeout_ns =? 0)
              then min_or_first (pending_batch_closest_timeout_ns_ c) timeout_ns
              else pending_batch_closest_timeout_ns_ c in
            match PolicyQueue.At q (queue_idx_ c) with
            | None => None
            | Some p =>
                let curr_enqueue_time_ns := QueueStartNs p in
                Some
                  {| queues_ := queues_ pq;
                     size_ := size_ pq;
                     pending_cursor_ :=
                       {| curr_it_ := curr_it_ c;
                          queue_idx_ := u64 (queue_idx_ c + 1);
                          pending_batch_closest_timeout_ns_ := closest;
                          pending_batch_oldest_enqueue_time_ns_ :=
                            min_or_first
                              (pending_batch_oldest_enqueue_time_ns_ c)
                              curr_enqueue_time_ns;
                          pending_batch_count_ :=
                            u64 (pending_batch_count_ c + 1);
                          valid_ := valid_ c |} |}
            end
        end
    end.

End PriorityQueue.

(** ** Vocabulary of the statements *)

(** What one input of the candidate has to satisfy against the pending
    shapes. *)
Definition input_matches (OnPeek : Z -> Input -> Payload -> Status * list Z)
    (runner_id : Z) (payload : Payload) (pending : PendingBatchShapes)
    (input : Input) : Prop :=
  forall itr : list Z * list Z,
    pending !! Name input = Some itr ->
    itr.1 = Shape input /\
    (itr.2 <> [] ->
     IsOk (OnPeek runner_id input payload).1 = true /\
     (OnPeek runner_id input payload).2 = itr.2).

(** How many deadlines at the front of [deadlines] are timed out at
    [now]. *)
Fixpoint timed_out_prefix (now : Z) (deadlines : list Z) : nat :=
  match deadlines with
  | d :: rest =>
      if PolicyQueue.timed_out now d then S (timed_out_prefix now rest) else O
  | [] => O
  end.

(** The sum of the batch sizes of some payloads. *)
Definition batch_total (payloads : list Payload) : Z :=
  foldr (fun p acc => BatchSize (Request p) + acc) 0 payloads.

(** The payloads all levels hold in their main and delayed queues. *)
Definition total_size (m : PriorityQueues) : Z :=
  foldr (fun e acc => PolicyQueue.Size e.2 + acc) 0 m.

(** The payloads all levels hold in their rejected queues. *)
Definition total_rejected (m : PriorityQueues) : Z :=
  foldr (fun e acc => Z.of_nat (length (PolicyQueue.rejected_queue_ e.2)) + acc)
    0 m.

(** A queue between two calls: the levels in increasing order, deadlines
    running in parallel with the main queue of each level, and [size_] the
    number of payloads in the main and delayed queues. *)
Definition PriorityQueue_wf (pq : PriorityQueue.t) : Prop :=
  StronglySorted Z.lt (keys (PriorityQueue.queues_ pq)) /\
  Forall (fun e => PolicyQueue.wf e.2) (PriorityQueue.queues_ pq) /\
  PriorityQueue.size_ pq = total_size (PriorityQueue.queues_ pq) /\
  is_u64 (PriorityQueue.size_ pq).

(** The least of the non-zero entries of [deadlines], 0 when there is
    none. *)
Definition min_nonzero (deadlines : list Z) : Z :=
  match filter (fun d => d <> 0) deadlines with
  | [] => 0
  | d :: rest => foldr Z.min d rest
  end.

(** [Admits dp pq deadlines]: [pq] is reached from a cursor reset by
    enqueues, policy applications and cursor advances, and [deadlines] are
    the deadlines ([TimeoutAt]) of the payloads the advances admitted to the
    pending batch, in order. *)
Inductive Admits (dp : ModelQueuePolicy.t)
    : PriorityQueue.t -> list Z -> Prop :=
| Admits_reset (pq : PriorityQueue.t) :
    Admits dp (PriorityQueue.ResetCursor pq) []
| Admits_enqueue (pq : PriorityQueue.t) (deadlines : list Z) (level : Z)
    (payload : Payload) (now : Z) (status : Status) (pq' : PriorityQueue.t) :
    Admits dp pq deadlines ->
    PriorityQueue.Enqueue dp pq level payload now = Some (status, pq') ->
    Admits dp pq' deadlines
| Admits_apply (pq : PriorityQueue.t) (deadlines : list Z) (now : nat -> Z) :
    Admits dp pq deadlines ->
    Admits dp (PriorityQueue.ApplyPolicyAtCursor pq now).2 deadlines
| Admits_advance (pq : PriorityQueue.t) (deadlines : list Z) (level : Z)
    (q : PolicyQueue.t) (pq' : PriorityQueue.t) :
    Admits dp pq deadlines ->
    PriorityQueue.pending_batch_count_ (PriorityQueue.pending_cursor_ pq)
    < PriorityQueue.size_ pq ->
    PriorityQueue.curr_it_ (PriorityQueue.pending_cursor_ pq) = Some level ->
    map_find level (PriorityQueue.queues_ pq) = Some q ->
    PriorityQueue.AdvanceCursor pq = Some pq' ->
    Admits dp pq'
      (deadlines
       ++ [PolicyQueue.TimeoutAt q
             (PriorityQueue.queue_idx_ (PriorityQueue.pending_cursor_ pq))]).

(** ** Sequences of operations *)

(** One call on a [PriorityQueue]. *)
Inductive Op : Type :=
| OpEnqueue (priority_level : Z) (payload : Payload) (now : Z)
| OpDequeue
| OpApplyPolicyAtCursor (now : nat -> Z).

(** What an observer of the calls has counted: enqueues that returned
    success, dequeues that returned a payload, and payloads that policy
    application put on a rejected queue. *)
Record Counts : Type := mkCounts {
  enqueued : Z;
  dequeued : Z;
  rejected : Z
}.

(** One call and the counts after it, in a build without assertions.
    [None] is the undefined behaviour of [PriorityQueue.Enqueue]. A dequeue
    that throws leaves the counts as they are, and so does an enqueue that
    fails. *)
Definition step (dp : ModelQueuePolicy.t) (st : PriorityQueue.t * Counts)
    (op : Op) : option (PriorityQueue.t * Counts) :=
  let '(pq, n) := st in
  match op with
  | OpEnqueue priority_level payload now =>
      match PriorityQueue.Enqueue dp pq priority_level payload now with
      | Some (status, pq') =>
          Some (pq',
                if IsOk status
                then mkCounts (enqueued n + 1) (dequeued n) (rejected n)
                else n)
      | None => None
      end
  | OpDequeue =>
      match PriorityQueue.Dequeue pq with
      | (inr _, pq') =>
          Some (pq', mkCounts (enqueued n) (dequeued n + 1) (rejected n))
      | (inl _, pq') => Some (pq', n)
      end
  | OpApplyPolicyAtCursor now =>
      let pq' := (PriorityQueue.ApplyPolicyAtCursor pq now).2 in
      Some (pq',
            mkCounts (enqueued n) (dequeued n)
              (rejected n
               + (total_rejected (PriorityQueue.queues_ pq')
                  - total_rejected (PriorityQueue.queues_ pq))))
  end.

Fixpoint run (dp : ModelQueuePolicy.t) (ops : list Op)
    (st : PriorityQueue.t * Counts) : option (PriorityQueue.t * Counts) :=
  match ops with
  | [] => Some st
  | op :: ops' =>
      match step dp st op with
      | Some st' => run dp ops' st'
      | None => None
      end
  end.

(** The same in a build with assertions: a policy application that leaves
    the cursor at [end()] fails its [assert] and the run ends there. *)
Definition step_asserting (dp : ModelQueuePolicy.t)
    (st : PriorityQueue.t * Counts) (op : Op)
    : option (PriorityQueue.t * Counts) :=
  match op with
  | OpApplyPolicyAtCursor now =>
      match
        PriorityQueue.curr_it_
          (PriorityQueue.pending_cursor_
             (PriorityQueue.ApplyPolicyAtCursor st.1 now).2)
      with
      | Some _ => step dp st op
      | None => None
      end
  | _ => step dp st op
  end.

Fixpoint run_asserting (dp : ModelQueuePolicy.t) (ops : list Op)
    (st : PriorityQueue.t * Counts) : option (PriorityQueue.t * Counts) :=
  match ops with
  | [] => Some st
  | op :: ops' =>
      match step_asserting dp st op with
      | Some st' => run_asserting dp ops' st'
      | None => None
      end
  end.

(** A queue as a constructor leaves it: at least one level, every deque of
    every level empty, [size_] zero and the cursor reset. *)
Definition Constructed (pq : PriorityQueue.t) : Prop :=
  PriorityQueue.queues_ pq <> [] /\
  StronglySorted Z.lt (keys (PriorityQueue.queues_ pq)) /\
  Forall (fun e => PolicyQueue.timeout_timestamp_ns_ e.2 = [] /\
                   PolicyQueue.queue_ e.2 = [] /\
                   PolicyQueue.delayed_queue_ e.2 = [] /\
                   PolicyQueue.rejected_queue_ e.2 = [])
    (PriorityQueue.queues_ pq) /\
  PriorityQueue.size_ pq = 0 /\
  PriorityQueue.pending_cursor_ pq
  = PriorityQueue.Cursor_ctor (map_begin (PriorityQueue.queues_ pq)).

(** Where a valid cursor stands in a run of enqueues, dequeues and policy
    applications: on a level of the map, with every level before it
    empty. *)
Definition cursor_parked (pq : PriorityQueue.t) : Prop :=
  PriorityQueue.valid_ (PriorityQueue.pending_cursor_ pq) = true ->
  exists l : Z,
    PriorityQueue.curr_it_ (PriorityQueue.pending_cursor_ pq) = Some l /\
    l ∈ keys (PriorityQueue.queues_ pq) /\
    forall e, e ∈ PriorityQueue.queues_ pq -> e.1 < l ->
              PolicyQueue.Empty e.2 = true.

(** The invariant of such a run, with the counts of its observer. *)
Definition RunInv (pq : PriorityQueue.t) (n : Counts) : Prop :=
  PriorityQueue_wf pq /\
  PriorityQueue.queue_idx_ (PriorityQueue.pending_cursor_ pq) = 0 /\
  PriorityQueue.pending_batch_count_ (PriorityQueue.pending_cursor_ pq) = 0 /\
  cursor_parked pq /\
  total_size (PriorityQueue.queues_ pq)
  = enqueued n - dequeued n - rejected n /\
  0 <= dequeued n /\ 0 <= rejected n.

(** ** Data for the examples *)

Definition example_payload (timeout batch : Z) : Payload :=
  {| Request := {| Inputs := []; BatchSize := batch; TimeoutMs := timeout |};
     QueueStartNs := 0 |}.

Definition example_queue (action : ModelQueuePolicy.TimeoutAction)
    (timeout : Z) (override : bool) (max_size : Z) : PolicyQueue.t :=
  PolicyQueue.ctor
    {| ModelQueuePolicy.timeout_action := action;
       ModelQueuePolicy.default_timeout_us := timeout;
       ModelQueuePolicy.allow_timeout_override := override;
       ModelQueuePolicy.max_queue_size := max_size |}.

Definition example_default_policy : ModelQueuePolicy.t :=
  {| ModelQueuePolicy.timeout_action := ModelQueuePolicy.REJECT;
     ModelQueuePolicy.default_timeout_us := 0;
     ModelQueuePolicy.allow_timeout_override := false;
     ModelQueuePolicy.max_queue_size := 0 |}.

(** Two levels, 1 and 2, with a timeout of 5 ms and rejection. *)
Definition example_levels : PriorityQueue.t :=
  PriorityQueue.ctor
    {| ModelQueuePolicy.timeout_action := ModelQueuePolicy.REJECT;
       ModelQueuePolicy.default_timeout_us := 5000;
       ModelQueuePolicy.allow_timeout_override := true;
       ModelQueuePolicy.max_queue_size := 0 |}
    2 ∅.

(** Five payloads with batch sizes 1 to 5 and deadlines 10, 20, none, 5
    and 30, under DELAY. *)
Definition example_timed_queue : PolicyQueue.t :=
  {| PolicyQueue.timeout_action_ := ModelQueuePolicy.DELAY;
     PolicyQueue.default_timeout_ms_ := 5;
     PolicyQueue.allow_timeout_override_ := false;
     PolicyQueue.max_queue_size_ := 0;
     PolicyQueue.timeout_timestamp_ns_ := [10; 20; 0; 5; 30];
     PolicyQueue.queue_ :=
       [example_payload 0 1; example_payload 0 2; example_payload 0 3;
        example_payload 0 4; example_payload 0 5];
     PolicyQueue.delayed_queue_ := [];
     PolicyQueue.rejected_queue_ := [] |}.

(** The same entries under REJECT. *)
Definition example_rejecting_queue : PolicyQueue.t :=
  {| PolicyQueue.timeout_action_ := ModelQueuePolicy.REJECT;
     PolicyQueue.default_timeout_ms_ := 5;
     PolicyQueue.allow_timeout_override_ := false;
     PolicyQueue.max_queue_size_ := 0;
     PolicyQueue.timeout_timestamp_ns_ := [10; 20; 0; 5; 30];
     PolicyQueue.queue_ :=
       [example_payload 0 1; example_payload 0 2; example_payload 0 3;
        example_payload 0 4; example_payload 0 5];
     PolicyQueue.delayed_queue_ := [];
     PolicyQueue.rejected_queue_ := [] |}.

(** One level that holds at most one payload, and holds one. *)
Definition example_full : PriorityQueue.t :=
  {| PriorityQueue.queues_ :=
       [(0, {| PolicyQueue.timeout_action_ := ModelQueuePolicy.REJECT;
               PolicyQueue.default_timeout_ms_ := 0;
               PolicyQueue.allow_timeout_override_ := false;
               PolicyQueue.max_queue_size_ := 1;
               PolicyQueue.timeout_timestamp_ns_ := [0];
               PolicyQueue.queue_ := [example_payload 0 1];
               PolicyQueue.delayed_queue_ := [];
               PolicyQueue.rejected_queue_ := [] |})];
     PriorityQueue.size_ := 1;
     PriorityQueue.pending_cursor_ := PriorityQueue.Cursor_ctor (Some 0) |}.

(** Level 1 is empty and level 2 has a payload in its delayed queue only. *)
Definition example_delayed : PriorityQueue.t :=
  {| PriorityQueue.queues_ :=
       [(1, example_queue ModelQueuePolicy.DELAY 5000 false 0);
        (2, {| PolicyQueue.timeout_action_ := ModelQueuePolicy.DELAY;
               PolicyQueue.default_timeout_ms_ := 5000;
               PolicyQueue.allow_timeout_override_ := false;
               PolicyQueue.max_queue_size_ := 0;
               PolicyQueue.timeout_timestamp_ns_ := [];
               PolicyQueue.queue_ := [];
               PolicyQueue.delayed_queue_ := [example_payload 0 7];
               PolicyQueue.rejected_queue_ := [] |})];
     PriorityQueue.size_ := 1;
     PriorityQueue.pending_cursor_ := PriorityQueue.Cursor_ctor (Some 1) |}.

(** Enqueues at both levels, a policy application after the deadline of
    the second payload, three dequeues (the last on an empty queue) and a
    policy application on the empty queue. *)
Definition example_ops : list Op :=
  [OpEnqueue 2 (example_payload 0 1) 0;
   OpEnqueue 1 (example_payload 1000 2) 1000000;
   OpEnqueue 1 (example_payload 0 3) 1500000;
   OpApplyPolicyAtCursor (fun _ => 3000000);
   OpDequeue; OpDequeue; OpDequeue;
   OpApplyPolicyAtCursor (fun _ => 9000000)].

(** An input [X] of shape [1; 4], and a peek that fails on every input. *)
Definition example_input : Input := {| Name := "X"; Shape := [1; 4] |}.

Definition example_candidate : Payload :=
  {| Request :=
       {| Inputs := [("X", example_input)]; BatchSize := 1; TimeoutMs := 0 |};
     QueueStartNs := 0 |}.

Definition failing_peek (_ : Z) (_ : Input) (_ : Payload)
    : Status * list Z :=
  (mkStatus INTERNAL "peek failed", []).

Definition working_peek (_ : Z) (_ : Input) (_ : Payload)
    : Status * list Z :=
  (Status_Success, [2; 3]).

(** ** Vocabulary of the further properties *)

(** The entry [InitPendingShape] records for [input]: its declared shape,
    with the contents the peek gave when the input is enforced as a shape
    tensor and no contents when it is enforced as a plain tensor. *)
Definition recorded_for (OnPeek : Z -> Input -> Payload -> Status * list Z)
    (runner_id : Z) (payload : Payload)
    (enforce_equal_shape_tensors : gmap string bool) (input : Input)
    (v : list Z * list Z) : Prop :=
  v.1 = Shape input /\
  ((enforce_equal_shape_tensors !! Name input = Some false /\ v.2 = []) \/
   (enforce_equal_shape_tensors !! Name input = Some true /\
    IsOk (OnPeek runner_id input payload).1 = true /\
    (OnPeek runner_id input payload).2 = v.2)).

(** The sum of the batch sizes of the payloads in all rejected queues. *)
Definition total_rejected_batch (m : PriorityQueues) : Z :=
  foldr (fun e acc => batch_total (PolicyQueue.rejected_queue_ e.2) + acc) 0 m.


(** The two unsigned counters of a cursor hold 64-bit values. *)
Definition Cursor_wf (c : PriorityQueue.Cursor) : Prop :=
  is_u64 (PriorityQueue.queue_idx_ c) /\
  is_u64 (PriorityQueue.pending_batch_count_ c).

(** A queue between two calls, the counters of its cursor included. *)
Definition PriorityQueue_inv (pq : PriorityQueue.t) : Prop :=
  PriorityQueue_wf pq /\ Cursor_wf (PriorityQueue.pending_cursor_ pq).

(** Level 1 rejects, level 2 delays; each holds the five payloads of the
    examples above and the cursor is reset. *)
Definition example_pending : PriorityQueue.t :=
  {| PriorityQueue.queues_ :=
       [(1, example_rejecting_queue); (2, example_timed_queue)];
     PriorityQueue.size_ := 10;
     PriorityQueue.pending_cursor_ := PriorityQueue.Cursor_ctor (Some 1) |}.

(** A level without a default timeout on which no payload has a
    deadline. *)
Definition no_deadlines (q : PolicyQueue.t) : Prop :=
  PolicyQueue.default_timeout_ms_ q = 0 /\
  Forall (fun d => d = 0) (PolicyQueue.timeout_timestamp_ns_ q).

(** * Properties *)

(** Reduce the projections of the queue and cursor records. *)
Ltac pq_simpl :=
  cbn [PriorityQueue.queues_ PriorityQueue.size_ PriorityQueue.pending_cursor_
       PriorityQueue.curr_it_ PriorityQueue.queue_idx_
       PriorityQueue.pending_batch_closest_timeout_ns_
       PriorityQueue.pending_batch_oldest_enqueue_time_ns_
       PriorityQueue.pending_batch_count_ PriorityQueue.valid_
       PriorityQueue.with_valid enqueued dequeued rejected fst snd] in *.

(** ** Machine integers *)

Lemma u64_range x : is_u64 (u64 x).
Proof. unfold is_u64, u64, U64_MODULUS. apply Z.mod_pos_bound. lia. Qed.

Lemma u64_small x : is_u64 x -> u64 x = x.
Proof. unfold is_u64, u64. intros H. apply Z.mod_small. exact H. Qed.

Lemma u64_idem x : u64 (u64 x) = u64 x.
Proof. apply u64_small, u64_range. Qed.

Lemma u64_add_l x y : u64 (u64 x + y) = u64 (x + y).
Proof. unfold u64. apply Zplus_mod_idemp_l. Qed.

Lemma u64_add_r x y : u64 (x + u64 y) = u64 (x + y).
Proof. unfold u64. apply Zplus_mod_idemp_r. Qed.

Lemma u64_sub_l x y : u64 (u64 x - y) = u64 (x - y).
Proof. unfold u64. apply Zminus_mod_idemp_l. Qed.

(** ** RequestTimers: properties *)

Lemma timers_nth_u64 (r : RequestTimers.t) (k : RequestTimers.Kind) :
  RequestTimers.wf r -> is_u64 (RequestTimers.Timestamp r k).
Proof.
  intros [Hlen Hall]. unfold RequestTimers.Timestamp.
  rewrite Forall_forall in Hall. apply Hall.
  apply list_elem_of_In, nth_In. rewrite Hlen.
  destruct k; unfold RequestTimers.COUNT__; simpl; lia.
Qed.

(** C9. For every pair of kinds, [Duration start end] is the stored
    timestamp of [end] minus that of [start] when both are non-zero and the
    end timestamp is at least the start timestamp, and the largest
    [uint64_t] in every other case. *)
Theorem Duration_spec (r : RequestTimers.t) (a b : RequestTimers.Kind) :
  RequestTimers.wf r ->
  let ta := RequestTimers.Timestamp r a in
  let tb := RequestTimers.Timestamp r b in
  (ta <> 0 /\ tb <> 0 /\ ta <= tb ->
     RequestTimers.Duration r a b = tb - ta) /\
  (ta = 0 \/ tb = 0 \/ ta > tb ->
     RequestTimers.Duration r a b = U64_MAX).
Proof.
  intros Hwf ta tb.
  pose proof (timers_nth_u64 r a Hwf) as Ha.
  pose proof (timers_nth_u64 r b Hwf) as Hb.
  fold ta in Ha. fold tb in Hb.
  unfold RequestTimers.Duration.
  change (nth (RequestTimers.index a) (RequestTimers.timestamps_ r) 0) with ta.
  change (nth (RequestTimers.index b) (RequestTimers.timestamps_ r) 0) with tb.
  split.
  - intros (Hna & Hnb & Hle).
    destruct (Z.eqb_spec ta 0) as [|_]; [contradiction|].
    destruct (Z.eqb_spec tb 0) as [|_]; [contradiction|]. simpl.
    destruct (Z.gtb_spec ta tb) as [Hgt|_]; [lia|].
    apply u64_small. unfold is_u64 in *. lia.
  - intros Hc.
    destruct (Z.eqb_spec ta 0) as [|Hna]; [reflexivity|].
    destruct (Z.eqb_spec tb 0) as [|Hnb]; [reflexivity|]. simpl.
    destruct (Z.gtb_spec ta tb) as [Hgt|Hle]; [reflexivity|]. lia.
Qed.

Example Duration_examples :
  let r := {| RequestTimers.timestamps_ := [5; 9; 0; 7; 3; 0] |} in
  RequestTimers.Duration r RequestTimers.REQUEST_START
    RequestTimers.REQUEST_END = 4 /\
  RequestTimers.Duration r RequestTimers.REQUEST_END
    RequestTimers.REQUEST_START = U64_MAX /\
  RequestTimers.Duration r RequestTimers.SEND_START
    RequestTimers.SEND_END = U64_MAX /\
  RequestTimers.Duration r RequestTimers.SEND_END
    RequestTimers.SEND_END = 0.
Proof. repeat split. Qed.

Lemma timers_wf_example :
  RequestTimers.wf {| RequestTimers.timestamps_ := [5; 9; 0; 7; 3; 0] |}.
Proof.
  split; [reflexivity|].
  repeat constructor; unfold U64_MODULUS; lia.
Defined.

Lemma Duration_spec_witness :
  RequestTimers.Duration {| RequestTimers.timestamps_ := [5; 9; 0; 7; 3; 0] |}
    RequestTimers.REQUEST_START RequestTimers.REQUEST_END = 9 - 5.
Proof.
  apply (proj1 (Duration_spec _ RequestTimers.REQUEST_START
                  RequestTimers.REQUEST_END timers_wf_example)).
  unfold RequestTimers.Timestamp. simpl. lia.
Defined.

(** ** PolicyQueue::Enqueue *)

Lemma PolicyQueue_Enqueue_cases (q : PolicyQueue.t) (payload : Payload)
    (now : Z) :
  (PolicyQueue.max_queue_size_ q <> 0 /\
   PolicyQueue.Size q >= PolicyQueue.max_queue_size_ q /\
   PolicyQueue.Enqueue q payload now
   = (mkStatus UNAVAILABLE "Exceeds maximum queue size", q)) \/
  (~ (PolicyQueue.max_queue_size_ q <> 0 /\
      PolicyQueue.Size q >= PolicyQueue.max_queue_size_ q) /\
   exists d,
     PolicyQueue.Enqueue q payload now
     = (Status_Success,
        PolicyQueue.with_queues q (PolicyQueue.timeout_timestamp_ns_ q ++ [d])
          (PolicyQueue.queue_ q ++ [payload]) (PolicyQueue.delayed_queue_ q)
          (PolicyQueue.rejected_queue_ q))).
Proof.
  unfold PolicyQueue.Enqueue.
  destruct (Z.eqb_spec (PolicyQueue.max_queue_size_ q) 0) as [Hz|Hnz]; simpl.
  - right. split; [tauto|]. eexists. reflexivity.
  - destruct (Z.geb_spec (PolicyQueue.Size q) (PolicyQueue.max_queue_size_ q))
      as [Hge|Hlt].
    + left. split; [assumption|]. split; [lia|]. reflexivity.
    + right. split; [lia|]. eexists. reflexivity.
Qed.

(** C4. [PolicyQueue::Enqueue] answers UNAVAILABLE "Exceeds maximum queue
    size" exactly when [max_queue_size_] is non-zero and [Size()] has reached
    it; otherwise it succeeds, appends the payload to the main queue and one
    entry to the deadlines. With a maximum of 2, of three enqueues in a row
    on a new queue the first two succeed and the third is UNAVAILABLE. *)
Theorem PolicyQueue_Enqueue_full :
  (forall (q : PolicyQueue.t) (payload : Payload) (now : Z),
     let full :=
       PolicyQueue.max_queue_size_ q <> 0 /\
       PolicyQueue.Size q >= PolicyQueue.max_queue_size_ q in
     let r := PolicyQueue.Enqueue q payload now in
     (r.1 = mkStatus UNAVAILABLE "Exceeds maximum queue size" <-> full) /\
     (~ full ->
      r.1 = Status_Success /\
      PolicyQueue.queue_ r.2 = PolicyQueue.queue_ q ++ [payload] /\
      exists d,
        PolicyQueue.timeout_timestamp_ns_ r.2
        = PolicyQueue.timeout_timestamp_ns_ q ++ [d])) /\
  (forall (action : ModelQueuePolicy.TimeoutAction) (timeout : Z)
          (override : bool) (p1 p2 p3 : Payload) (now1 now2 now3 : Z),
     let q0 :=
       PolicyQueue.ctor
         {| ModelQueuePolicy.timeout_action := action;
            ModelQueuePolicy.default_timeout_us := timeout;
            ModelQueuePolicy.allow_timeout_override := override;
            ModelQueuePolicy.max_queue_size := 2 |} in
     let r1 := PolicyQueue.Enqueue q0 p1 now1 in
     let r2 := PolicyQueue.Enqueue r1.2 p2 now2 in
     let r3 := PolicyQueue.Enqueue r2.2 p3 now3 in
     r1.1 = Status_Success /\ r2.1 = Status_Success /\
     r3.1 = mkStatus UNAVAILABLE "Exceeds maximum queue size").
Proof.
  split.
  - intros q payload now full r. subst r.
    destruct (PolicyQueue_Enqueue_cases q payload now)
      as [(Hnz & Hge & ->) | (Hnot & d & ->)]; simpl.
    + split; [split; [intros _; split; assumption | reflexivity]|].
      intros Hn. exfalso. apply Hn. split; assumption.
    + split.
      * split; [discriminate | intros Hf; contradiction].
      * intros _. repeat split. exists d. reflexivity.
  - intros. repeat split.
Qed.

Lemma PolicyQueue_Enqueue_full_witness :
  (PolicyQueue.Enqueue (example_queue ModelQueuePolicy.REJECT 5000 false 2)
     (example_payload 0 1) 0).1 = Status_Success.
Proof.
  apply (proj1 PolicyQueue_Enqueue_full
           (example_queue ModelQueuePolicy.REJECT 5000 false 2)
           (example_payload 0 1) 0).
  unfold PolicyQueue.Size. simpl. lia.
Defined.

(** C5. On a successful [PolicyQueue::Enqueue] the timeout in effect is the
    request's own when overriding is allowed and the request's timeout is
    non-zero and strictly below the default of the level, and the default
    otherwise, so it never exceeds the default. The deadline appended is 0
    when that timeout is 0 and otherwise the unsigned 64-bit value of
    [now + timeout * 1000], which is that sum itself whenever the sum fits
    in 64 bits. *)
Theorem PolicyQueue_Enqueue_deadline (q : PolicyQueue.t) (payload : Payload)
    (now : Z) :
  IsOk (PolicyQueue.Enqueue q payload now).1 = true ->
  let dflt := PolicyQueue.default_timeout_ms_ q in
  let req := TimeoutMs (Request payload) in
  let overrides :=
    PolicyQueue.allow_timeout_override_ q = true /\ req <> 0 /\ req < dflt in
  exists eff d : Z,
    (overrides -> eff = req) /\
    (~ overrides -> eff = dflt) /\
    eff <= dflt /\
    PolicyQueue.timeout_timestamp_ns_ (PolicyQueue.Enqueue q payload now).2
    = PolicyQueue.timeout_timestamp_ns_ q ++ [d] /\
    (eff = 0 -> d = 0) /\
    (eff <> 0 -> d = u64 (now + eff * 1000)) /\
    (eff <> 0 -> 0 <= now -> 0 <= eff -> now + eff * 1000 < U64_MODULUS ->
     d = now + eff * 1000).
Proof.
  intros Hok dflt req overrides.
  unfold PolicyQueue.Enqueue in *.
  destruct (negb (PolicyQueue.max_queue_size_ q =? 0)
            && (PolicyQueue.Size q >=? PolicyQueue.max_queue_size_ q));
    [discriminate Hok|]. clear Hok. simpl.
  fold dflt. fold req.
  set (eff := if PolicyQueue.allow_timeout_override_ q
              then if negb (req =? 0) && (req <? dflt) then req else dflt
              else dflt).
  assert (Heff : (overrides -> eff = req) /\ (~ overrides -> eff = dflt)
                 /\ eff <= dflt).
  { subst eff overrides.
    destruct (PolicyQueue.allow_timeout_override_ q).
    - destruct (Z.eqb_spec req 0) as [Hz|Hnz]; simpl.
      + split; [tauto|]. split; [reflexivity|lia].
      + destruct (Z.ltb_spec req dflt) as [Hlt|Hge].
        * split; [reflexivity|]. split; [tauto|lia].
        * split; [intros (_ & _ & Hlt); lia|]. split; [reflexivity|lia].
    - split; [intros (Hf & _); discriminate Hf|].
      split; [reflexivity|lia]. }
  destruct Heff as (He1 & He2 & He3).
  exists eff. eexists. repeat split; try assumption.
  - intros ->. reflexivity.
  - intros Hnz. destruct (Z.eqb_spec eff 0) as [|_]; [contradiction|].
    simpl. apply u64_add_r.
  - intros Hnz Hnow Heff Hfit.
    destruct (Z.eqb_spec eff 0) as [|_]; [contradiction|]. simpl.
    rewrite u64_add_r. apply u64_small. unfold is_u64. lia.
Qed.

(** An override above the default is ignored, one below it is used. *)
Example Enqueue_override_examples :
  let q := example_queue ModelQueuePolicy.REJECT 10000 true 0 in
  PolicyQueue.timeout_timestamp_ns_
    (PolicyQueue.Enqueue q (example_payload 20000 1) 7).2 = [10000007] /\
  PolicyQueue.timeout_timestamp_ns_
    (PolicyQueue.Enqueue q (example_payload 3000 1) 7).2 = [3000007] /\
  PolicyQueue.timeout_timestamp_ns_
    (PolicyQueue.Enqueue q (example_payload 0 1) 7).2 = [10000007].
Proof. repeat split. Qed.

Lemma PolicyQueue_Enqueue_deadline_witness :
  exists eff d : Z,
    eff = 3000 /\
    PolicyQueue.timeout_timestamp_ns_
      (PolicyQueue.Enqueue
         (example_queue ModelQueuePolicy.REJECT 10000 true 0)
         (example_payload 3000 1) 7).2 = [d] /\
    d = 7 + 3000 * 1000.
Proof.
  destruct (PolicyQueue_Enqueue_deadline
              (example_queue ModelQueuePolicy.REJECT 10000 true 0)
              (example_payload 3000 1) 7 eq_refl)
    as (eff & d & He1 & _ & _ & Hts & _ & _ & Hd).
  assert (eff = 3000) as Heff.
  { apply He1. simpl. repeat split; lia. }
  subst eff. exists 3000, d.
  split; [reflexivity|]. split; [exact Hts|].
  apply Hd; unfold U64_MODULUS; lia.
Defined.

(** ** The ordered map *)

Lemma map_find_set_eq (k : Z) (v : PolicyQueue.t) (m : PriorityQueues) :
  map_find k (map_set k v m) = Some v.
Proof.
  induction m as [|[k' v'] m IH]; simpl.
  - rewrite Z.eqb_refl. reflexivity.
  - destruct (Z.ltb_spec k k') as [Hlt|Hge]; simpl.
    + rewrite Z.eqb_refl. reflexivity.
    + destruct (Z.eqb_spec k k') as [->|Hne]; simpl.
      * rewrite Z.eqb_refl. reflexivity.
      * destruct (Z.eqb_spec k' k) as [Heq|_]; [congruence | exact IH].
Qed.

Lemma map_find_set_ne (k j : Z) (v : PolicyQueue.t) (m : PriorityQueues) :
  k <> j -> map_find j (map_set k v m) = map_find j m.
Proof.
  intros Hkj. induction m as [|[k' v'] m IH]; simpl.
  - destruct (Z.eqb_spec k j); [contradiction | reflexivity].
  - destruct (Z.ltb_spec k k') as [Hlt|Hge]; simpl.
    + destruct (Z.eqb_spec k j); [contradiction | reflexivity].
    + destruct (Z.eqb_spec k k') as [->|Hne]; simpl.
      * destruct (Z.eqb_spec k' j); [contradiction | reflexivity].
      * rewrite IH. reflexivity.
Qed.

(** ** PriorityQueue::Enqueue *)

Lemma PriorityQueue_Enqueue_failed (dp : ModelQueuePolicy.t)
    (pq : PriorityQueue.t) (level : Z) (payload : Payload) (now : Z) :
  let q := PriorityQueue.map_at dp level (PriorityQueue.queues_ pq) in
  IsOk (PolicyQueue.Enqueue q payload now).1 = false ->
  PriorityQueue.Enqueue dp pq level payload now
  = Some ((PolicyQueue.Enqueue q payload now).1,
          {| PriorityQueue.queues_ :=
               map_set level q (PriorityQueue.queues_ pq);
             PriorityQueue.size_ := PriorityQueue.size_ pq;
             PriorityQueue.pending_cursor_ :=
               PriorityQueue.pending_cursor_ pq |}).
Proof.
  intros q Hfail. unfold PriorityQueue.Enqueue. fold q.
  destruct (PolicyQueue_Enqueue_cases q payload now)
    as [(_ & _ & Heq) | (_ & d & Heq)];
    rewrite Heq in *; simpl in *; [reflexivity | discriminate Hfail].
Qed.

(** C10. A failed enqueue changes nothing. When [PolicyQueue::Enqueue]
    answers UNAVAILABLE the policy queue it was called on is returned as it
    was: main, delayed, rejected and deadline queues. The enclosing
    [PriorityQueue::Enqueue] then hands that status on, leaves [size_] and
    every field of the pending cursor as they were, and every level reads
    as before. *)
Theorem Enqueue_failure_atomic :
  (forall (q : PolicyQueue.t) (payload : Payload) (now : Z),
     Code (PolicyQueue.Enqueue q payload now).1 = UNAVAILABLE ->
     (PolicyQueue.Enqueue q payload now).2 = q) /\
  (forall (dp : ModelQueuePolicy.t) (pq : PriorityQueue.t) (level : Z)
          (payload : Payload) (now : Z),
     let r :=
       PolicyQueue.Enqueue
         (PriorityQueue.map_at dp level (PriorityQueue.queues_ pq))
         payload now in
     Code r.1 = UNAVAILABLE ->
     exists pq' : PriorityQueue.t,
       PriorityQueue.Enqueue dp pq level payload now = Some (r.1, pq') /\
       PriorityQueue.size_ pq' = PriorityQueue.size_ pq /\
       PriorityQueue.pending_cursor_ pq' = PriorityQueue.pending_cursor_ pq /\
       (forall l : Z,
          PriorityQueue.map_at dp l (PriorityQueue.queues_ pq')
          = PriorityQueue.map_at dp l (PriorityQueue.queues_ pq)) /\
       (forall l : Z,
          is_Some (map_find l (PriorityQueue.queues_ pq)) ->
          map_find l (PriorityQueue.queues_ pq')
          = map_find l (PriorityQueue.queues_ pq))).
Proof.
  split.
  - intros q payload now Hcode.
    destruct (PolicyQueue_Enqueue_cases q payload now)
      as [(_ & _ & Heq) | (_ & d & Heq)]; rewrite Heq in *; simpl in *;
      [reflexivity | discriminate Hcode].
  - intros dp pq level payload now r Hcode.
    set (q := PriorityQueue.map_at dp level (PriorityQueue.queues_ pq)) in *.
    assert (Hfail : IsOk r.1 = false).
    { unfold IsOk. rewrite Hcode. reflexivity. }
    assert (Hq : r.2 = q).
    { subst r. destruct (PolicyQueue_Enqueue_cases q payload now)
        as [(_ & _ & Heq) | (_ & d & Heq)]; rewrite Heq in *; simpl in *;
        [reflexivity | discriminate Hcode]. }
    eexists. split; [apply PriorityQueue_Enqueue_failed; exact Hfail|].
    simpl. repeat split.
    + intros l. unfold PriorityQueue.map_at at 1.
      destruct (Z.eq_dec level l) as [<-|Hne].
      * rewrite map_find_set_eq. reflexivity.
      * rewrite map_find_set_ne by assumption. reflexivity.
    + intros l [x Hx]. destruct (Z.eq_dec level l) as [<-|Hne].
      * rewrite map_find_set_eq. subst q. unfold PriorityQueue.map_at.
        rewrite Hx. reflexivity.
      * rewrite map_find_set_ne by assumption. reflexivity.
Qed.

Lemma Enqueue_failure_atomic_witness :
  exists pq' : PriorityQueue.t,
    PriorityQueue.Enqueue example_default_policy example_full 0
      (example_payload 0 2) 5
    = Some (mkStatus UNAVAILABLE "Exceeds maximum queue size", pq') /\
    PriorityQueue.size_ pq' = 1 /\
    PriorityQueue.pending_cursor_ pq' = PriorityQueue.Cursor_ctor (Some 0).
Proof.
  destruct (proj2 Enqueue_failure_atomic example_default_policy example_full 0
              (example_payload 0 2) 5 eq_refl)
    as (pq' & Henq & Hsize & Hcursor & _).
  exists pq'. split; [exact Henq|]. split; [exact Hsize | exact Hcursor].
Defined.

(** C1. An enqueue at level [L] that succeeds while the cursor is valid and
    on level [c] clears the valid flag when [L <= c] and leaves it set when
    [L > c]. *)
Theorem Enqueue_cursor_invalidation (dp : ModelQueuePolicy.t)
    (pq : PriorityQueue.t) (L : Z) (payload : Payload) (now : Z) (c : Z) :
  PriorityQueue.valid_ (PriorityQueue.pending_cursor_ pq) = true ->
  PriorityQueue.curr_it_ (PriorityQueue.pending_cursor_ pq) = Some c ->
  exists (status : Status) (pq' : PriorityQueue.t),
    PriorityQueue.Enqueue dp pq L payload now = Some (status, pq') /\
    (IsOk status = true ->
     (L <= c ->
      PriorityQueue.valid_ (PriorityQueue.pending_cursor_ pq') = false) /\
     (L > c ->
      PriorityQueue.valid_ (PriorityQueue.pending_cursor_ pq') = true)).
Proof.
  intros Hvalid Hit. unfold PriorityQueue.Enqueue.
  destruct (PolicyQueue.Enqueue _ payload now) as [status q'].
  destruct (IsOk status) eqn:Hok.
  - rewrite Hvalid, Hit. eexists _, _. split; [reflexivity|].
    intros _. simpl. split; intros HL.
    + destruct (Z.gtb_spec L c); [lia | reflexivity].
    + destruct (Z.gtb_spec L c); [reflexivity | lia].
  - eexists _, _. split; [reflexivity|]. intros Hf. congruence.
Qed.

Lemma Enqueue_cursor_invalidation_witness :
  exists (status : Status) (pq' : PriorityQueue.t),
    PriorityQueue.Enqueue example_default_policy example_levels 1
      (example_payload 0 1) 0 = Some (status, pq') /\
    (IsOk status = true ->
     (1 <= 1 ->
      PriorityQueue.valid_ (PriorityQueue.pending_cursor_ pq') = false) /\
     (1 > 1 ->
      PriorityQueue.valid_ (PriorityQueue.pending_cursor_ pq') = true)).
Proof.
  exact (Enqueue_cursor_invalidation example_default_policy example_levels 1
           (example_payload 0 1) 0 1 eq_refl eq_refl).
Defined.

(** At the level of the cursor and above it. *)
Example Enqueue_cursor_examples :
  (forall r, PriorityQueue.Enqueue example_default_policy example_levels 1
               (example_payload 0 1) 0 = Some r ->
             PriorityQueue.valid_ (PriorityQueue.pending_cursor_ r.2) = false)
  /\
  (forall r, PriorityQueue.Enqueue example_default_policy example_levels 2
               (example_payload 0 1) 0 = Some r ->
             PriorityQueue.valid_ (PriorityQueue.pending_cursor_ r.2) = true).
Proof. split; intros r [= <-]; reflexivity. Qed.

(** ** CompareWithPendingShape *)

Lemma CompareDims_eq (dims0 dims1 : list Z) :
  CompareDims dims0 dims1 = true <-> dims0 = dims1.
Proof.
  revert dims1. induction dims0 as [|d0 r0 IH]; intros [|d1 r1]; simpl;
    try (split; [discriminate | discriminate]); [tauto|].
  rewrite andb_true_iff, Z.eqb_eq, IH. split.
  - intros [-> ->]. reflexivity.
  - intros Heq. injection Heq. auto.
Qed.

Section ShapeCompareProperties.

Variable OnPeek : Z -> Input -> Payload -> Status * list Z.

Lemma CompareWithPendingShape_loop_true (runner_id : Z) (payload : Payload)
    (pending : PendingBatchShapes) (inputs : list (string * Input)) :
  CompareWithPendingShape_loop OnPeek runner_id payload inputs pending = true
  <-> Forall (fun pr => input_matches OnPeek runner_id payload pending pr.2)
        inputs.
Proof.
  induction inputs as [|pr rest IH]; simpl.
  - split; [constructor | reflexivity].
  - rewrite Forall_cons, <- IH. unfold input_matches.
    destruct (pending !! Name pr.2) as [[declared contents]|] eqn:Hfind;
      simpl.
    + destruct (CompareDims declared (Shape pr.2)) eqn:Hdims; simpl.
      * apply CompareDims_eq in Hdims. subst declared.
        destruct contents as [|c0 cs].
        -- split.
           ++ intros Hrest. split; [|exact Hrest].
              intros itr [= <-]. simpl. split; [reflexivity | congruence].
           ++ intros [_ Hrest]. exact Hrest.
        -- remember (c0 :: cs) as contents eqn:Hcont.
           assert (Hne : contents <> []) by (subst contents; discriminate).
           clear Hcont c0 cs.
           destruct (OnPeek runner_id pr.2 payload) as [st shape] eqn:Hpeek.
           simpl. destruct (IsOk st) eqn:Hok; simpl.
           ++ destruct (CompareDims contents shape) eqn:Hc; simpl.
              ** apply CompareDims_eq in Hc. subst shape. split.
                 --- intros Hrest. split; [|exact Hrest].
                     intros itr [= <-]. simpl. auto.
                 --- intros [_ Hrest]. exact Hrest.
              ** split; [discriminate|]. intros [Hm _].
                 destruct (Hm _ eq_refl) as [_ Hpk]. simpl in Hpk.
                 destruct (Hpk Hne) as [_ Heq]. subst shape.
                 assert (CompareDims contents contents = true)
                   by (apply CompareDims_eq; reflexivity).
                 congruence.
           ++ split; [discriminate|]. intros [Hm _].
              destruct (Hm _ eq_refl) as [_ Hpk]. simpl in Hpk.
              destruct (Hpk Hne) as [Hf _]. discriminate Hf.
      * split; [discriminate|]. intros [Hm _].
        destruct (Hm _ eq_refl) as [Heq _]. simpl in Heq. subst declared.
        assert (CompareDims (Shape pr.2) (Shape pr.2) = true)
          by (apply CompareDims_eq; reflexivity).
        congruence.
    + split.
      * intros Hrest. split; [intros itr Hf; discriminate Hf | exact Hrest].
      * intros [_ Hrest]. exact Hrest.
Qed.

(** C7. [CompareWithPendingShape] is true exactly when every input of the
    candidate whose name is in the pending shapes has the declared shape
    stored there and, where the stored entry has shape-tensor contents, the
    peek succeeds and gives those contents. The result is a plain boolean:
    where such a peek fails the answer is [false] and no error leaves the
    function. *)
Theorem CompareWithPendingShape_spec (runner_id : Z) (payload : Payload)
    (pending : PendingBatchShapes) :
  (CompareWithPendingShape OnPeek runner_id payload pending = true <->
   forall pr : string * Input,
     pr ∈ Inputs (Request payload) ->
     forall itr : list Z * list Z,
       pending !! Name pr.2 = Some itr ->
       itr.1 = Shape pr.2 /\
       (itr.2 <> [] ->
        IsOk (OnPeek runner_id pr.2 payload).1 = true /\
        (OnPeek runner_id pr.2 payload).2 = itr.2)) /\
  (forall (pr : string * Input) (itr : list Z * list Z),
     pr ∈ Inputs (Request payload) ->
     pending !! Name pr.2 = Some itr ->
     itr.2 <> [] ->
     IsOk (OnPeek runner_id pr.2 payload).1 = false ->
     CompareWithPendingShape OnPeek runner_id payload pending = false).
Proof.
  unfold CompareWithPendingShape.
  pose proof (CompareWithPendingShape_loop_true runner_id payload pending
                (Inputs (Request payload))) as Hloop.
  rewrite Forall_forall in Hloop. unfold input_matches in Hloop.
  split; [exact Hloop|].
  intros pr itr Hin Hfind Hne Hfail.
  apply not_true_is_false. intros Htrue.
  destruct (proj1 Hloop Htrue pr Hin itr Hfind) as [_ Hpk].
  destruct (Hpk Hne) as [Hok _]. congruence.
Qed.

End ShapeCompareProperties.

Lemma CompareWithPendingShape_spec_witness :
  CompareWithPendingShape failing_peek 0 example_candidate
    {["X" := ([1; 4], [2; 3])]} = false.
Proof.
  apply (proj2 (CompareWithPendingShape_spec failing_peek 0 example_candidate
                  {["X" := ([1; 4], [2; 3])]})
           ("X", example_input) ([1; 4], [2; 3])).
  - left.
  - apply lookup_singleton_eq.
  - discriminate.
  - reflexivity.
Defined.

(** The same shape and contents match; another declared shape does not; a
    peek that fails does not; an input that is not pending is not looked
    at. *)
Example CompareWithPendingShape_examples :
  CompareWithPendingShape working_peek 0 example_candidate
    {["X" := ([1; 4], [2; 3])]} = true /\
  CompareWithPendingShape working_peek 0 example_candidate
    {["X" := ([1; 5], [2; 3])]} = false /\
  CompareWithPendingShape working_peek 0 example_candidate
    {["X" := ([1; 4], [2; 4])]} = false /\
  CompareWithPendingShape failing_peek 0 example_candidate
    {["X" := ([1; 4], [2; 3])]} = false /\
  CompareWithPendingShape failing_peek 0 example_candidate
    {["X" := ([1; 4], [])]} = true /\
  CompareWithPendingShape failing_peek 0 example_candidate
    {["Y" := ([7], [2; 3])]} = true.
Proof. vm_compute. repeat split. Qed.

(** ** PolicyQueue::ApplyPolicy *)

Lemma ApplyPolicy_loop_unfold (q : PolicyQueue.t) (idx rc rbs now : Z) :
  PolicyQueue.ApplyPolicy_loop q idx rc rbs now =
  match PolicyQueue.queue_ q !! Z.to_nat idx with
  | None =>
      (u64 (idx - Z.of_nat (length (PolicyQueue.queue_ q)))
         <? Z.of_nat (length (PolicyQueue.delayed_queue_ q)), q, rc, rbs)
  | Some p =>
      if PolicyQueue.timed_out now
           (nth (Z.to_nat idx) (PolicyQueue.timeout_timestamp_ns_ q) 0)
      then
        PolicyQueue.ApplyPolicy_loop
          (PolicyQueue.timeout_move q (Z.to_nat idx) p) idx
          (PolicyQueue.timeout_count q rc)
          (PolicyQueue.timeout_batch_size q p rbs) now
      else (true, q, rc, rbs)
  end.
Proof.
  rewrite PolicyQueue.ApplyPolicy_loop_equation_1.
  unfold PolicyQueue.ApplyPolicy_loop_unfold_clause_1.
  destruct (PolicyQueue.inspect (PolicyQueue.queue_ q !! Z.to_nat idx))
    as [[p|] Hp]; simpl; rewrite Hp; reflexivity.
Qed.

Lemma take_delete_same {A : Type} (l : list A) (i : nat) :
  take i (delete i l) = take i l.
Proof.
  revert i. induction l as [|x l IH]; intros [|i]; simpl; try reflexivity.
  rewrite IH. reflexivity.
Qed.

Lemma drop_delete_from {A : Type} (l : list A) (i k : nat) :
  drop (i + k) (delete i l) = drop (S (i + k)) l.
Proof.
  revert i. induction l as [|x l IH]; intros i.
  - change (delete i (@nil A)) with (@nil A).
    rewrite (drop_nil (i + k)), (drop_nil (S (i + k))). reflexivity.
  - destruct i as [|i]; simpl; [reflexivity | apply IH].
Qed.

Lemma drop_delete_same {A : Type} (l : list A) (i : nat) :
  drop i (delete i l) = drop (S i) l.
Proof.
  pose proof (drop_delete_from l i 0) as H.
  rewrite Nat.add_0_r in H. exact H.
Qed.

Lemma with_queues_id (q : PolicyQueue.t) :
  PolicyQueue.with_queues q (PolicyQueue.timeout_timestamp_ns_ q)
    (PolicyQueue.queue_ q) (PolicyQueue.delayed_queue_ q)
    (PolicyQueue.rejected_queue_ q) = q.
Proof. destruct q. reflexivity. Qed.

Lemma batch_total_app (l1 l2 : list Payload) :
  batch_total (l1 ++ l2) = batch_total l1 + batch_total l2.
Proof.
  unfold batch_total. induction l1 as [|p l1 IH]; simpl; [reflexivity|].
  rewrite IH. lia.
Qed.

(** The loop, as one equation: with [n] the number of timed-out deadlines
    in a row from [idx] on, the [n] payloads from [idx] on leave the main
    queue with their deadlines. *)
Lemma ApplyPolicy_loop_run (now : Z) (idx : Z) (deadlines : list Z) :
  forall (q : PolicyQueue.t) (rc rbs : Z),
    PolicyQueue.wf q -> is_u64 rc -> is_u64 rbs ->
    drop (Z.to_nat idx) (PolicyQueue.timeout_timestamp_ns_ q) = deadlines ->
    let i := Z.to_nat idx in
    let n := timed_out_prefix now deadlines in
    let moved := take n (drop i (PolicyQueue.queue_ q)) in
    let main' :=
      take i (PolicyQueue.queue_ q) ++ drop (i + n) (PolicyQueue.queue_ q) in
    let delayed' :=
      match PolicyQueue.timeout_action_ q with
      | ModelQueuePolicy.DELAY => PolicyQueue.delayed_queue_ q ++ moved
      | ModelQueuePolicy.REJECT => PolicyQueue.delayed_queue_ q
      end in
    PolicyQueue.ApplyPolicy_loop q idx rc rbs now =
    (if (i + n <? length (PolicyQueue.queue_ q))%nat then true
     else u64 (idx - Z.of_nat (length main')) <? Z.of_nat (length delayed'),
     PolicyQueue.with_queues q
       (take i (PolicyQueue.timeout_timestamp_ns_ q)
        ++ drop (i + n) (PolicyQueue.timeout_timestamp_ns_ q))
       main' delayed'
       match PolicyQueue.timeout_action_ q with
       | ModelQueuePolicy.DELAY => PolicyQueue.rejected_queue_ q
       | ModelQueuePolicy.REJECT => PolicyQueue.rejected_queue_ q ++ moved
       end,
     match PolicyQueue.timeout_action_ q with
     | ModelQueuePolicy.DELAY => rc
     | ModelQueuePolicy.REJECT => u64 (rc + Z.of_nat n)
     end,
     match PolicyQueue.timeout_action_ q with
     | ModelQueuePolicy.DELAY => rbs
     | ModelQueuePolicy.REJECT => u64 (rbs + batch_total moved)
     end).
Proof.
  induction deadlines as [|d tl IH]; intros q rc rbs Hwf Hrc Hrbs Hdrop;
    unfold PolicyQueue.wf in Hwf; cbn zeta; rewrite ApplyPolicy_loop_unfold.
  - apply drop_nil_inv in Hdrop. rewrite Hwf in Hdrop.
    rewrite (lookup_ge_None_2 (PolicyQueue.queue_ q)) by lia.
    simpl timed_out_prefix. rewrite Nat.add_0_r.
    rewrite !take_drop, take_0, !app_nil_r.
    destruct (Nat.ltb_spec (Z.to_nat idx) (length (PolicyQueue.queue_ q)));
      [lia|].
    rewrite Z.add_0_r, !(u64_small _ Hrc). unfold batch_total. simpl.
    rewrite Z.add_0_r, !(u64_small _ Hrbs).
    destruct (PolicyQueue.timeout_action_ q); rewrite with_queues_id;
      reflexivity.
  - assert (Hd : PolicyQueue.timeout_timestamp_ns_ q !! Z.to_nat idx = Some d).
    { rewrite <- (Nat.add_0_r (Z.to_nat idx)), <- lookup_drop, Hdrop.
      reflexivity. }
    pose proof (lookup_lt_Some _ _ _ Hd) as Hlt. rewrite Hwf in Hlt.
    destruct (lookup_lt_is_Some_2 (PolicyQueue.queue_ q) _ Hlt) as [p Hp].
    rewrite Hp. rewrite (nth_lookup_Some _ _ _ _ Hd).
    simpl timed_out_prefix.
    destruct (PolicyQueue.timed_out now d) eqn:Hto.
    + set (q1 := PolicyQueue.timeout_move q (Z.to_nat idx) p).
      assert (Hts1 : PolicyQueue.timeout_timestamp_ns_ q1
                     = delete (Z.to_nat idx) (PolicyQueue.timeout_timestamp_ns_ q)).
      { subst q1. unfold PolicyQueue.timeout_move.
        destruct (PolicyQueue.timeout_action_ q); reflexivity. }
      assert (Hmain1 : PolicyQueue.queue_ q1
                       = delete (Z.to_nat idx) (PolicyQueue.queue_ q)).
      { subst q1. unfold PolicyQueue.timeout_move.
        destruct (PolicyQueue.timeout_action_ q); reflexivity. }
      assert (Hact1 : PolicyQueue.timeout_action_ q1
                      = PolicyQueue.timeout_action_ q).
      { subst q1. unfold PolicyQueue.timeout_move.
        destruct (PolicyQueue.timeout_action_ q) eqn:E; simpl; congruence. }
      assert (Hdrop1 : drop (Z.to_nat idx) (PolicyQueue.timeout_timestamp_ns_ q1)
                       = tl).
      { rewrite Hts1, drop_delete_same.
        rewrite (drop_S _ _ _ Hd) in Hdrop. congruence. }
      assert (Hwf1 : PolicyQueue.wf q1).
      { unfold PolicyQueue.wf. rewrite Hts1, Hmain1.
        rewrite !length_delete by (rewrite ?Hd, ?Hp; eauto). lia. }
      assert (Hrc1 : is_u64 (PolicyQueue.timeout_count q rc)).
      { unfold PolicyQueue.timeout_count.
        destruct (PolicyQueue.timeout_action_ q);
          [apply u64_range | assumption]. }
      assert (Hrbs1 : is_u64 (PolicyQueue.timeout_batch_size q p rbs)).
      { unfold PolicyQueue.timeout_batch_size.
        destruct (PolicyQueue.timeout_action_ q);
          [apply u64_range | assumption]. }
      rewrite (IH q1 _ _ Hwf1 Hrc1 Hrbs1 Hdrop1). cbn zeta.
      set (n1 := timed_out_prefix now tl).
      rewrite Hact1, Hts1, Hmain1.
      rewrite !take_delete_same, !drop_delete_from, !drop_delete_same.
      rewrite (drop_S _ _ _ Hp). simpl take.
      rewrite !Nat.add_succ_r.
      rewrite length_delete by (rewrite Hp; eauto).
      replace (Z.to_nat idx + n1 <? length (PolicyQueue.queue_ q) - 1)%nat
        with (S (Z.to_nat idx + n1) <? length (PolicyQueue.queue_ q))%nat
        by (destruct (Nat.ltb_spec (S (Z.to_nat idx + n1))
                        (length (PolicyQueue.queue_ q)));
            destruct (Nat.ltb_spec (Z.to_nat idx + n1)
                        (length (PolicyQueue.queue_ q) - 1)); lia || reflexivity).
      subst q1. unfold PolicyQueue.timeout_move, PolicyQueue.timeout_count,
        PolicyQueue.timeout_batch_size.
      destruct (PolicyQueue.timeout_action_ q); simpl.
      * rewrite u64_add_l, <- !app_assoc. simpl.
        replace (rc + 1 + Z.of_nat n1) with (rc + Z.of_nat (S n1)) by lia.
        rewrite u64_add_l. unfold batch_total at 2. simpl.
        fold (batch_total (take n1 (drop (S (Z.to_nat idx)) (PolicyQueue.queue_ q)))).
        rewrite Z.add_assoc. reflexivity.
      * rewrite <- !app_assoc. reflexivity.
    + rewrite Nat.add_0_r, !take_drop, take_0, !app_nil_r.
      destruct (Nat.ltb_spec (Z.to_nat idx) (length (PolicyQueue.queue_ q)));
        [|lia].
      rewrite Z.add_0_r, !(u64_small _ Hrc). unfold batch_total. simpl.
      rewrite Z.add_0_r, !(u64_small _ Hrbs).
      destruct (PolicyQueue.timeout_action_ q); rewrite with_queues_id;
        reflexivity.
Qed.

Lemma timed_out_prefix_inside (now : Z) (deadlines : list Z) (k : nat) :
  (k < timed_out_prefix now deadlines)%nat ->
  exists d : Z, deadlines !! k = Some d /\ d <> 0 /\ now > d.
Proof.
  revert k. induction deadlines as [|d tl IH]; simpl; intros k Hk; [lia|].
  destruct (PolicyQueue.timed_out now d) eqn:Hto; [|lia].
  destruct k as [|k].
  - exists d. split; [reflexivity|]. unfold PolicyQueue.timed_out in Hto.
    apply andb_true_iff in Hto as [Hnz Hgt].
    apply negb_true_iff, Z.eqb_neq in Hnz. apply Z.gtb_gt in Hgt. lia.
  - apply IH. lia.
Qed.

Lemma timed_out_prefix_stop (now : Z) (deadlines : list Z) (d : Z) :
  deadlines !! timed_out_prefix now deadlines = Some d ->
  ~ (d <> 0 /\ now > d).
Proof.
  induction deadlines as [|d' tl IH]; simpl; [discriminate|].
  destruct (PolicyQueue.timed_out now d') eqn:Hto; simpl.
  - exact IH.
  - intros [= <-] [Hnz Hgt]. unfold PolicyQueue.timed_out in Hto.
    apply andb_false_iff in Hto as [Hto|Hto].
    + apply negb_false_iff, Z.eqb_eq in Hto. contradiction.
    + rewrite Z.gtb_ltb in Hto. apply Z.ltb_ge in Hto. lia.
Qed.

Lemma timed_out_prefix_length (now : Z) (deadlines : list Z) :
  (timed_out_prefix now deadlines <= length deadlines)%nat.
Proof.
  induction deadlines as [|d tl IH]; simpl; [lia|].
  destruct (PolicyQueue.timed_out now d); simpl; lia.
Qed.

(** C3. [ApplyPolicy(idx, ..)] takes the [n] entries in a row from position
    [idx] of the main queue whose deadline is non-zero and passed, out of
    the main queue and the deadlines, and appends them in order to the
    delayed queue under DELAY, or to the rejected queue under REJECT with
    [n] added to the rejected count and their batch sizes to the rejected
    batch size (in [size_t] arithmetic, so exactly when the sums fit in 64
    bits). The walk ends on the first entry whose deadline has not
    passed, answering [true]; when it ends with the main queue used up it
    answers whether [idx - |main|] is an index into the delayed queue. *)
Theorem ApplyPolicy_spec (q : PolicyQueue.t) (idx rc rbs now : Z) :
  PolicyQueue.wf q -> is_u64 idx -> is_u64 rc -> is_u64 rbs ->
  let i := Z.to_nat idx in
  let main := PolicyQueue.queue_ q in
  let deadlines := PolicyQueue.timeout_timestamp_ns_ q in
  exists (n : nat) (found : bool) (q' : PolicyQueue.t) (rc' rbs' : Z),
    PolicyQueue.ApplyPolicy q idx rc rbs now = (found, q', rc', rbs') /\
    (forall k : nat, (k < n)%nat ->
       exists d : Z, deadlines !! (i + k)%nat = Some d /\ d <> 0 /\ now > d) /\
    (forall d : Z, deadlines !! (i + n)%nat = Some d -> ~ (d <> 0 /\ now > d)) /\
    let moved := take n (drop i main) in
    length moved = n /\
    PolicyQueue.queue_ q' = take i main ++ drop (i + n) main /\
    PolicyQueue.timeout_timestamp_ns_ q'
    = take i deadlines ++ drop (i + n) deadlines /\
    (PolicyQueue.timeout_action_ q = ModelQueuePolicy.DELAY ->
     PolicyQueue.delayed_queue_ q' = PolicyQueue.delayed_queue_ q ++ moved /\
     PolicyQueue.rejected_queue_ q' = PolicyQueue.rejected_queue_ q /\
     rc' = rc /\ rbs' = rbs) /\
    (PolicyQueue.timeout_action_ q = ModelQueuePolicy.REJECT ->
     PolicyQueue.rejected_queue_ q' = PolicyQueue.rejected_queue_ q ++ moved /\
     PolicyQueue.delayed_queue_ q' = PolicyQueue.delayed_queue_ q /\
     rc' = u64 (rc + Z.of_nat n) /\
     rbs' = u64 (rbs + batch_total moved) /\
     (is_u64 (rc + Z.of_nat n) -> rc' = rc + Z.of_nat n) /\
     (is_u64 (rbs + batch_total moved) -> rbs' = rbs + batch_total moved)) /\
    ((i + n < length main)%nat -> found = true) /\
    ((length main <= i + n)%nat ->
     (found = true <->
      0 <= idx - Z.of_nat (length (PolicyQueue.queue_ q'))
        < Z.of_nat (length (PolicyQueue.delayed_queue_ q')))) /\
    PolicyQueue.timeout_action_ q' = PolicyQueue.timeout_action_ q /\
    PolicyQueue.default_timeout_ms_ q' = PolicyQueue.default_timeout_ms_ q /\
    PolicyQueue.allow_timeout_override_ q'
    = PolicyQueue.allow_timeout_override_ q /\
    PolicyQueue.max_queue_size_ q' = PolicyQueue.max_queue_size_ q.
Proof.
  intros Hwf Hidx Hrc Hrbs i main deadlines.
  pose proof (ApplyPolicy_loop_run now idx (drop i deadlines) q rc rbs
                Hwf Hrc Hrbs eq_refl) as Hrun.
  cbn zeta in Hrun. fold i main deadlines in Hrun.
  set (n := timed_out_prefix now (drop i deadlines)) in *.
  unfold PolicyQueue.ApplyPolicy. rewrite Hrun. clear Hrun.
  assert (Hn : (n <= length (drop i main))%nat).
  { subst n. etransitivity; [apply timed_out_prefix_length|].
    subst main deadlines. unfold PolicyQueue.wf in Hwf.
    rewrite !length_drop, Hwf. lia. }
  eexists n, _, _, _, _. split; [reflexivity|].
  split.
  { intros k Hk. rewrite <- lookup_drop.
    apply timed_out_prefix_inside. exact Hk. }
  split.
  { intros d Hd. rewrite <- lookup_drop in Hd.
    eapply timed_out_prefix_stop. exact Hd. }
  cbn zeta. split; [rewrite length_take; lia|].
  split; [reflexivity|]. split; [reflexivity|].
  split.
  { intros Hact. simpl. rewrite Hact. auto. }
  split.
  { intros Hact. simpl. rewrite Hact.
    repeat (split; [reflexivity|]). split; apply u64_small. }
  split.
  { intros Hlt. destruct (Nat.ltb_spec (i + n) (length main)); [reflexivity|lia]. }
  split; [|simpl; auto].
  intros Hge. destruct (Nat.ltb_spec (i + n) (length main)) as [|_]; [lia|].
  simpl PolicyQueue.queue_. simpl PolicyQueue.delayed_queue_.
  set (main' := take i main ++ drop (i + n) main).
  assert (Hlen : Z.of_nat (length main') <= idx).
  { subst main'. rewrite length_app, length_take, length_drop.
    unfold is_u64 in Hidx. lia. }
  rewrite u64_small by (unfold is_u64 in *; lia).
  rewrite Z.ltb_lt. lia.
Qed.

Lemma example_timed_queue_wf : PolicyQueue.wf example_timed_queue.
Proof. reflexivity. Defined.

Lemma is_u64_0 : is_u64 0.
Proof. unfold is_u64, U64_MODULUS. lia. Defined.

Lemma ApplyPolicy_spec_witness :
  exists (n : nat) (found : bool) (q' : PolicyQueue.t) (rc' rbs' : Z),
    PolicyQueue.ApplyPolicy example_timed_queue 0 0 0 25
    = (found, q', rc', rbs') /\
    PolicyQueue.queue_ q'
    = drop n (PolicyQueue.queue_ example_timed_queue) /\
    PolicyQueue.delayed_queue_ q'
    = take n (PolicyQueue.queue_ example_timed_queue).
Proof.
  destruct (ApplyPolicy_spec example_timed_queue 0 0 0 25
              example_timed_queue_wf is_u64_0 is_u64_0 is_u64_0)
    as (n & found & q' & rc' & rbs' & Heq & _ & _ & _ & Hmain & _ & Hdelay
        & _).
  exists n, found, q', rc', rbs'. split; [exact Heq|].
  split; [exact Hmain|]. exact (proj1 (Hdelay eq_refl)).
Defined.

(** At time 25 the deadlines 10 and 20 have passed: two payloads leave the
    front and the walk stops on the one without a deadline. From index 3
    only the payload with deadline 5 leaves. Under REJECT the two are
    counted, with batch sizes 1 and 2. *)
Example ApplyPolicy_examples :
  let r0 := PolicyQueue.ApplyPolicy example_timed_queue 0 0 0 25 in
  let r3 := PolicyQueue.ApplyPolicy example_timed_queue 3 0 0 25 in
  let r7 := PolicyQueue.ApplyPolicy example_timed_queue 7 0 0 25 in
  let rr := PolicyQueue.ApplyPolicy example_rejecting_queue 0 0 0 25 in
  r0.1.1.1 = true /\
  BatchSize ∘ Request <$> PolicyQueue.queue_ r0.1.1.2 = [3; 4; 5] /\
  BatchSize ∘ Request <$> PolicyQueue.delayed_queue_ r0.1.1.2 = [1; 2] /\
  PolicyQueue.timeout_timestamp_ns_ r0.1.1.2 = [0; 5; 30] /\
  r3.1.1.1 = true /\
  BatchSize ∘ Request <$> PolicyQueue.queue_ r3.1.1.2 = [1; 2; 3; 5] /\
  BatchSize ∘ Request <$> PolicyQueue.delayed_queue_ r3.1.1.2 = [4] /\
  r7.1.1.1 = false /\
  BatchSize ∘ Request <$> PolicyQueue.rejected_queue_ rr.1.1.2 = [1; 2] /\
  rr.1.2 = 2 /\ rr.2 = 3.
Proof. vm_compute. repeat split. Qed.

(** ** PriorityQueue::Dequeue *)

Lemma PolicyQueue_Size_nonneg (q : PolicyQueue.t) : 0 <= PolicyQueue.Size q.
Proof. unfold PolicyQueue.Size. lia. Qed.

Lemma total_size_nonneg (m : PriorityQueues) : 0 <= total_size m.
Proof.
  induction m as [|[l q] m IH]; simpl; [lia|].
  pose proof (PolicyQueue_Size_nonneg q). lia.
Qed.

Lemma total_size_app (m1 m2 : PriorityQueues) :
  total_size (m1 ++ m2) = total_size m1 + total_size m2.
Proof. induction m1 as [|e m1 IH]; simpl; [reflexivity|]. rewrite IH. lia. Qed.

Lemma total_rejected_app (m1 m2 : PriorityQueues) :
  total_rejected (m1 ++ m2) = total_rejected m1 + total_rejected m2.
Proof. induction m1 as [|e m1 IH]; simpl; [reflexivity|]. rewrite IH. lia. Qed.

Lemma total_size_all_empty (m : PriorityQueues) :
  Forall (fun e => PolicyQueue.Empty e.2 = true) m -> total_size m = 0.
Proof.
  induction 1 as [|[l q] m Hq _ IH]; simpl; [reflexivity|].
  unfold PolicyQueue.Empty in Hq. apply Z.eqb_eq in Hq. simpl in Hq. lia.
Qed.

Lemma total_size_positive (m : PriorityQueues) :
  total_size m <> 0 -> Exists (fun e => PolicyQueue.Empty e.2 = false) m.
Proof.
  induction m as [|[l q] m IH]; simpl; [congruence|].
  intros Hne. destruct (PolicyQueue.Empty q) eqn:He.
  - right. apply IH. unfold PolicyQueue.Empty in He.
    apply Z.eqb_eq in He. lia.
  - left. exact He.
Qed.

(** What [PolicyQueue::Dequeue] does on a queue that is not empty. *)
Lemma PolicyQueue_Dequeue_nonempty (q : PolicyQueue.t) :
  PolicyQueue.Empty q = false ->
  exists (res : Payload) (q' : PolicyQueue.t),
    PolicyQueue.Dequeue q = Some (res, q') /\
    PolicyQueue.Size q' = PolicyQueue.Size q - 1 /\
    PolicyQueue.rejected_queue_ q' = PolicyQueue.rejected_queue_ q /\
    (forall (p : Payload) (rest : list Payload),
       PolicyQueue.queue_ q = p :: rest ->
       res = p /\
       q' = PolicyQueue.with_queues q
              (tail (PolicyQueue.timeout_timestamp_ns_ q)) rest
              (PolicyQueue.delayed_queue_ q) (PolicyQueue.rejected_queue_ q)) /\
    (PolicyQueue.queue_ q = [] ->
     exists (p : Payload) (rest : list Payload),
       PolicyQueue.delayed_queue_ q = p :: rest /\
       res = p /\
       q' = PolicyQueue.with_queues q (PolicyQueue.timeout_timestamp_ns_ q)
              [] rest (PolicyQueue.rejected_queue_ q)).
Proof.
  unfold PolicyQueue.Empty, PolicyQueue.Size, PolicyQueue.Dequeue.
  intros He. apply Z.eqb_neq in He.
  destruct (PolicyQueue.queue_ q) as [|p rest] eqn:Hmain.
  - destruct (PolicyQueue.delayed_queue_ q) as [|p rest] eqn:Hdel;
      [simpl in He; lia|].
    eexists _, _. split; [reflexivity|]. simpl.
    split; [lia|]. split; [reflexivity|]. split; [discriminate|].
    intros _. eauto.
  - eexists _, _. split; [reflexivity|]. simpl.
    split; [lia|]. split; [reflexivity|]. split; [|discriminate].
    intros p0 rest0 [= <- <-]. auto.
Qed.

Lemma Dequeue_loop_first_nonempty (m : PriorityQueues) :
  Exists (fun e => PolicyQueue.Empty e.2 = false) m ->
  exists (before : PriorityQueues) (level : Z) (q : PolicyQueue.t)
         (after : PriorityQueues) (res : Payload) (q' : PolicyQueue.t),
    m = before ++ (level, q) :: after /\
    Forall (fun e => PolicyQueue.Empty e.2 = true) before /\
    PolicyQueue.Empty q = false /\
    PolicyQueue.Dequeue q = Some (res, q') /\
    PriorityQueue.Dequeue_loop m
    = Some (res, level, before ++ (level, q') :: after).
Proof.
  induction m as [|[l q] m IH]; intros Hex; [inversion Hex|].
  simpl. destruct (PolicyQueue.Empty q) eqn:He; simpl.
  - destruct IH as (before & level & q0 & after & res & q' & -> & Hb & Hq
                    & Hd & Hloop).
    { inversion Hex as [? ? Hh|]; subst; [simpl in Hh; congruence|assumption]. }
    exists ((l, q) :: before), level, q0, after, res, q'.
    rewrite Hloop. repeat split; try assumption.
    constructor; assumption.
  - destruct (PolicyQueue_Dequeue_nonempty q He) as (res & q' & Hd & _).
    exists [], l, q, m, res, q'. rewrite Hd.
    repeat split; try assumption. constructor.
Qed.

Lemma sorted_before_below (before : PriorityQueues) (level : Z)
    (q : PolicyQueue.t) (after : PriorityQueues) :
  StronglySorted Z.lt (keys (before ++ (level, q) :: after)) ->
  (forall e, e ∈ before -> e.1 < level) /\
  (forall e, e ∈ after -> level < e.1).
Proof.
  unfold keys. induction before as [|[l0 q0] before IH]; simpl; intros Hs.
  - split; [intros e He; inversion He|].
    apply StronglySorted_inv in Hs as [_ Hall].
    rewrite Forall_forall in Hall. intros e He. apply Hall.
    apply list_elem_of_fmap. exists e. auto.
  - apply StronglySorted_inv in Hs as [Hs Hall].
    destruct (IH Hs) as [Hb Ha]. split; [|exact Ha].
    intros e He. apply elem_of_cons in He as [->|He]; [|auto].
    simpl. rewrite Forall_forall in Hall. apply Hall.
    rewrite fmap_app. apply elem_of_app. right. simpl. left.
Qed.

(** C6. On a queue that is not empty [Dequeue] clears the valid flag of the
    cursor (and leaves the other fields of the cursor alone), takes the
    first level in increasing order whose policy queue is not empty, returns
    the payload at the front of it and lowers [size_] by one. In that policy
    queue the payload comes from the front of the main queue, with its
    deadline dropped, when the main queue is not empty, and from the front
    of the delayed queue otherwise. *)
Theorem Dequeue_spec (pq : PriorityQueue.t) :
  PriorityQueue_wf pq ->
  PriorityQueue.size_ pq <> 0 ->
  exists (before : PriorityQueues) (level : Z) (q : PolicyQueue.t)
         (after : PriorityQueues) (res : Payload) (q' : PolicyQueue.t),
    let pq' := (PriorityQueue.Dequeue pq).2 in
    let c := PriorityQueue.pending_cursor_ pq in
    let c' := PriorityQueue.pending_cursor_ pq' in
    PriorityQueue.queues_ pq = before ++ (level, q) :: after /\
    (forall e, e ∈ PriorityQueue.queues_ pq ->
       e.1 < level -> PolicyQueue.Empty e.2 = true) /\
    PolicyQueue.Empty q = false /\
    (PriorityQueue.Dequeue pq).1 = inr res /\
    PriorityQueue.queues_ pq' = before ++ (level, q') :: after /\
    PriorityQueue.size_ pq' = PriorityQueue.size_ pq - 1 /\
    PriorityQueue.valid_ c' = false /\
    (PriorityQueue.curr_it_ c' = PriorityQueue.curr_it_ c /\
     PriorityQueue.queue_idx_ c' = PriorityQueue.queue_idx_ c /\
     PriorityQueue.pending_batch_closest_timeout_ns_ c'
     = PriorityQueue.pending_batch_closest_timeout_ns_ c /\
     PriorityQueue.pending_batch_oldest_enqueue_time_ns_ c'
     = PriorityQueue.pending_batch_oldest_enqueue_time_ns_ c /\
     PriorityQueue.pending_batch_count_ c'
     = PriorityQueue.pending_batch_count_ c) /\
    (forall (p : Payload) (rest : list Payload),
       PolicyQueue.queue_ q = p :: rest ->
       res = p /\
       PolicyQueue.queue_ q' = rest /\
       PolicyQueue.timeout_timestamp_ns_ q'
       = tail (PolicyQueue.timeout_timestamp_ns_ q) /\
       PolicyQueue.delayed_queue_ q' = PolicyQueue.delayed_queue_ q /\
       PolicyQueue.rejected_queue_ q' = PolicyQueue.rejected_queue_ q /\
       q' = PolicyQueue.with_queues q
              (tail (PolicyQueue.timeout_timestamp_ns_ q)) rest
              (PolicyQueue.delayed_queue_ q) (PolicyQueue.rejected_queue_ q)) /\
    (PolicyQueue.queue_ q = [] ->
     exists (p : Payload) (rest : list Payload),
       PolicyQueue.delayed_queue_ q = p :: rest /\
       res = p /\
       PolicyQueue.queue_ q' = [] /\
       PolicyQueue.delayed_queue_ q' = rest /\
       PolicyQueue.timeout_timestamp_ns_ q'
       = PolicyQueue.timeout_timestamp_ns_ q /\
       PolicyQueue.rejected_queue_ q' = PolicyQueue.rejected_queue_ q /\
       q' = PolicyQueue.with_queues q (PolicyQueue.timeout_timestamp_ns_ q)
              [] rest (PolicyQueue.rejected_queue_ q)).
Proof.
  intros (Hsorted & _ & Hsize & Hrange) Hne.
  destruct (Dequeue_loop_first_nonempty (PriorityQueue.queues_ pq))
    as (before & level & q & after & res & q' & Hsplit & Hb & Hq & Hd & Hloop).
  { apply total_size_positive. congruence. }
  exists before, level, q, after, res, q'. cbv zeta.
  destruct (PolicyQueue_Dequeue_nonempty q Hq)
    as (res0 & q0 & Hd0 & _ & _ & Hmain & Hdel).
  rewrite Hd in Hd0. injection Hd0 as <- <-.
  split; [exact Hsplit|]. split.
  { intros e He Hlt. rewrite Hsplit in He, Hsorted.
    destruct (sorted_before_below _ _ _ _ Hsorted) as [_ Hafter].
    rewrite Forall_forall in Hb.
    apply elem_of_app in He as [He|He]; [auto|].
    apply elem_of_cons in He as [->|He]; [simpl in Hlt; lia|].
    specialize (Hafter e He). lia. }
  split; [exact Hq|].
  unfold PriorityQueue.Dequeue. rewrite Hloop. cbn [fst snd].
  cbn [PriorityQueue.queues_ PriorityQueue.size_
       PriorityQueue.pending_cursor_].
  split; [reflexivity|]. split; [reflexivity|].
  split.
  { apply u64_small.
    pose proof (total_size_nonneg (PriorityQueue.queues_ pq)).
    unfold is_u64 in *. lia. }
  split; [reflexivity|].
  split; [repeat split|].
  split.
  - intros p rest Hp. destruct (Hmain p rest Hp) as [-> ->].
    simpl. auto 10.
  - intros Hnil. destruct (Hdel Hnil) as (p & rest & Hdq & -> & ->).
    exists p, rest. simpl. auto 10.
Qed.

Lemma example_delayed_wf : PriorityQueue_wf example_delayed.
Proof.
  split; [repeat constructor|]. split; [repeat constructor|].
  split; [reflexivity|]. unfold is_u64, U64_MODULUS. simpl. lia.
Defined.

Lemma Dequeue_spec_witness :
  exists (before : PriorityQueues) (level : Z) (q : PolicyQueue.t)
         (after : PriorityQueues) (res : Payload) (q' : PolicyQueue.t),
    PriorityQueue.queues_ example_delayed = before ++ (level, q) :: after /\
    PolicyQueue.Empty q = false /\
    (PriorityQueue.Dequeue example_delayed).1 = inr res /\
    PriorityQueue.queues_ (PriorityQueue.Dequeue example_delayed).2
    = before ++ (level, q') :: after /\
    PriorityQueue.size_ (PriorityQueue.Dequeue example_delayed).2 = 1 - 1 /\
    PriorityQueue.valid_
      (PriorityQueue.pending_cursor_
         (PriorityQueue.Dequeue example_delayed).2) = false.
Proof.
  destruct (Dequeue_spec example_delayed example_delayed_wf)
    as (before & level & q & after & res & q' & Hsplit & _ & Hq & Hres
        & Hqueues & Hsize & Hvalid & _).
  - discriminate.
  - exists before, level, q, after, res, q'. auto 10.
Defined.

(** The empty level 1 is passed over and the payload comes from the delayed
    queue of level 2. *)
Example Dequeue_example :
  (PriorityQueue.Dequeue example_delayed).1 = inr (example_payload 0 7) /\
  PriorityQueue.size_ (PriorityQueue.Dequeue example_delayed).2 = 0 /\
  PriorityQueue.valid_
    (PriorityQueue.pending_cursor_ (PriorityQueue.Dequeue example_delayed).2)
  = false /\
  (PriorityQueue.Dequeue (PriorityQueue.Dequeue example_delayed).2).1
  = inl tt.
Proof. repeat split. Qed.

(** ** The pending cursor *)

Lemma foldr_min_snoc (d t : Z) (rest : list Z) :
  foldr Z.min d (rest ++ [t]) = Z.min (foldr Z.min d rest) t.
Proof.
  induction rest as [|r rest IH]; simpl; [lia|]. rewrite IH. lia.
Qed.

Lemma foldr_min_nonzero (d : Z) (rest : list Z) :
  d <> 0 -> Forall (fun x => x <> 0) rest -> foldr Z.min d rest <> 0.
Proof.
  intros Hd. induction 1 as [|r rest Hr _ IH]; simpl; [assumption|]. lia.
Qed.

Lemma min_nonzero_zero_iff (deadlines : list Z) :
  min_nonzero deadlines = 0 <-> filter (fun d => d <> 0) deadlines = [].
Proof.
  unfold min_nonzero.
  destruct (filter (fun d => d <> 0) deadlines) as [|d rest] eqn:Hf;
    [tauto|].
  split; [|discriminate]. intros Hz. exfalso.
  assert (Hall : Forall (fun x => x <> 0) (d :: rest)).
  { rewrite <- Hf. apply Forall_forall. intros x Hx.
    apply list_elem_of_filter in Hx. tauto. }
  apply Forall_cons in Hall as [Hd Hrest].
  exact (foldr_min_nonzero d rest Hd Hrest Hz).
Qed.

(** One more admitted deadline, as [AdvanceCursor] folds it in. *)
Lemma min_nonzero_snoc (deadlines : list Z) (t : Z) :
  min_nonzero (deadlines ++ [t])
  = if negb (t =? 0)
    then PriorityQueue.min_or_first (min_nonzero deadlines) t
    else min_nonzero deadlines.
Proof.
  destruct (Z.eqb_spec t 0) as [->|Hnz]; simpl.
  - unfold min_nonzero. rewrite filter_app, filter_cons_False by tauto.
    rewrite filter_nil, app_nil_r. reflexivity.
  - unfold PriorityQueue.min_or_first.
    destruct (Z.eqb_spec (min_nonzero deadlines) 0) as [Hz|Hz]; simpl.
    + apply min_nonzero_zero_iff in Hz. unfold min_nonzero.
      rewrite filter_app, Hz, filter_cons_True by assumption. reflexivity.
    + unfold min_nonzero in *. rewrite filter_app.
      rewrite (filter_cons_True _ t) by assumption. rewrite filter_nil.
      destruct (filter (fun d => d <> 0) deadlines) as [|d rest];
        [congruence|].
      simpl. apply foldr_min_snoc.
Qed.

Lemma Enqueue_keeps_closest (dp : ModelQueuePolicy.t) (pq : PriorityQueue.t)
    (level : Z) (payload : Payload) (now : Z) (status : Status)
    (pq' : PriorityQueue.t) :
  PriorityQueue.Enqueue dp pq level payload now = Some (status, pq') ->
  PriorityQueue.pending_batch_closest_timeout_ns_
    (PriorityQueue.pending_cursor_ pq')
  = PriorityQueue.pending_batch_closest_timeout_ns_
      (PriorityQueue.pending_cursor_ pq).
Proof.
  unfold PriorityQueue.Enqueue.
  destruct (PolicyQueue.Enqueue _ payload now) as [st q'].
  destruct (IsOk st); [|intros [= _ <-]; reflexivity].
  destruct (PriorityQueue.valid_ _); [|intros [= _ <-]; reflexivity].
  destruct (PriorityQueue.curr_it_ _); [|discriminate].
  intros [= _ <-]. reflexivity.
Qed.

Lemma ApplyPolicyAtCursor_keeps_closest (pq : PriorityQueue.t)
    (now : nat -> Z) :
  PriorityQueue.pending_batch_closest_timeout_ns_
    (PriorityQueue.pending_cursor_ (PriorityQueue.ApplyPolicyAtCursor pq now).2)
  = PriorityQueue.pending_batch_closest_timeout_ns_
      (PriorityQueue.pending_cursor_ pq).
Proof.
  unfold PriorityQueue.ApplyPolicyAtCursor.
  destruct (match PriorityQueue.curr_it_ _ with
            | Some level => _ | None => _ end) as [before from].
  destruct (PriorityQueue.ApplyPolicyAtCursor_loop _ _ _ _ _ _ _ _)
    as [[[[from' it] idx] rc] rbs].
  reflexivity.
Qed.

(** C2. [IsCursorValid] is true exactly when the valid flag is set and the
    clock reading is strictly below the closest deadline of the cursor.
    That deadline is the least non-zero deadline of the payloads admitted
    since the cursor was reset, and 0 when none of them has a deadline. *)
Theorem IsCursorValid_spec :
  (forall (pq : PriorityQueue.t) (now : Z),
     PriorityQueue.IsCursorValid pq now = true <->
     PriorityQueue.valid_ (PriorityQueue.pending_cursor_ pq) = true /\
     now < PriorityQueue.pending_batch_closest_timeout_ns_
             (PriorityQueue.pending_cursor_ pq)) /\
  (forall start_it : option Z,
     PriorityQueue.pending_batch_closest_timeout_ns_
       (PriorityQueue.Cursor_ctor start_it) = 0) /\
  (forall (dp : ModelQueuePolicy.t) (pq : PriorityQueue.t)
          (deadlines : list Z),
     Admits dp pq deadlines ->
     PriorityQueue.pending_batch_closest_timeout_ns_
       (PriorityQueue.pending_cursor_ pq) = min_nonzero deadlines /\
     ((forall d : Z, d ∈ deadlines -> d = 0) ->
      PriorityQueue.pending_batch_closest_timeout_ns_
        (PriorityQueue.pending_cursor_ pq) = 0)).
Proof.
  split; [|split].
  - intros pq now. unfold PriorityQueue.IsCursorValid.
    destruct (PriorityQueue.valid_ (PriorityQueue.pending_cursor_ pq)).
    + rewrite Z.ltb_lt. tauto.
    + split; [discriminate | intros [Hf _]; discriminate Hf].
  - reflexivity.
  - intros dp pq deadlines Hadm.
    assert (Hmin : PriorityQueue.pending_batch_closest_timeout_ns_
                     (PriorityQueue.pending_cursor_ pq)
                   = min_nonzero deadlines).
    { induction Hadm as [pq | pq ds level payload now status pq' _ IH Henq
                         | pq ds now _ IH
                         | pq ds level q pq' _ IH Hcount Hit Hfind Hadv].
      - reflexivity.
      - rewrite (Enqueue_keeps_closest _ _ _ _ _ _ _ Henq). exact IH.
      - rewrite ApplyPolicyAtCursor_keeps_closest. exact IH.
      - rewrite min_nonzero_snoc, <- IH.
        unfold PriorityQueue.AdvanceCursor in Hadv.
        destruct (Z.geb_spec
                    (PriorityQueue.pending_batch_count_
                       (PriorityQueue.pending_cursor_ pq))
                    (PriorityQueue.size_ pq)); [lia|].
        rewrite Hit, Hfind in Hadv.
        destruct (PolicyQueue.At q _); [|discriminate].
        injection Hadv as <-. reflexivity. }
    split; [exact Hmin|].
    intros Hzero. rewrite Hmin. apply min_nonzero_zero_iff.
    destruct (filter (fun d => d <> 0) deadlines) as [|x rest] eqn:Hf;
      [reflexivity|].
    assert (Hx : x ∈ filter (fun d => d <> 0) deadlines)
      by (rewrite Hf; left).
    apply list_elem_of_filter in Hx as [Hnz Hin].
    specialize (Hzero x Hin). contradiction.
Qed.

Lemma IsCursorValid_spec_witness :
  PriorityQueue.pending_batch_closest_timeout_ns_
    (PriorityQueue.pending_cursor_ (PriorityQueue.ResetCursor example_delayed))
  = 0.
Proof.
  apply (proj2 (proj2 IsCursorValid_spec) example_default_policy
           (PriorityQueue.ResetCursor example_delayed) []
           (Admits_reset example_default_policy example_delayed)).
  intros d Hd. inversion Hd.
Defined.

(** ** The ordered map: order and totals *)

Lemma keys_map_set_elem (k : Z) (v : PolicyQueue.t) (m : PriorityQueues)
    (x : Z) :
  x ∈ keys (map_set k v m) -> x = k \/ x ∈ keys m.
Proof.
  unfold keys. induction m as [|[k' v'] m IH]; simpl.
  - intros Hx. apply list_elem_of_singleton in Hx. auto.
  - destruct (Z.ltb_spec k k') as [Hlt|Hge]; simpl.
    + intros Hx. apply elem_of_cons in Hx as [->|Hx]; auto.
    + destruct (Z.eqb_spec k k') as [->|Hne]; simpl.
      * intros Hx. apply elem_of_cons in Hx as [->|Hx]; [auto|].
        right. right. exact Hx.
      * intros Hx. apply elem_of_cons in Hx as [->|Hx]; [right; left|].
        destruct (IH Hx) as [->|Hin]; [auto | right; right; exact Hin].
Qed.

Lemma map_set_sorted (k : Z) (v : PolicyQueue.t) (m : PriorityQueues) :
  StronglySorted Z.lt (keys m) -> StronglySorted Z.lt (keys (map_set k v m)).
Proof.
  unfold keys. induction m as [|[k' v'] m IH]; simpl; intros Hs.
  - repeat constructor.
  - apply StronglySorted_inv in Hs as [Hs Hall].
    destruct (Z.ltb_spec k k') as [Hlt|Hge]; simpl.
    + constructor; [constructor; assumption|].
      constructor; [assumption|].
      eapply Forall_impl; [exact Hall|]. simpl. intros; lia.
    + destruct (Z.eqb_spec k k') as [->|Hne]; simpl.
      * constructor; assumption.
      * constructor; [apply IH; assumption|].
        apply Forall_forall. intros x Hx.
        destruct (keys_map_set_elem k v m x Hx) as [->|Hin]; [lia|].
        rewrite Forall_forall in Hall. apply Hall. exact Hin.
Qed.

Lemma map_set_Forall (P : Z * PolicyQueue.t -> Prop) (k : Z)
    (v : PolicyQueue.t) (m : PriorityQueues) :
  P (k, v) -> Forall P m -> Forall P (map_set k v m).
Proof.
  intros Hv. induction 1 as [|[k' v'] m Hh Ht IH]; simpl.
  - repeat constructor. exact Hv.
  - destruct (k <? k'); [repeat constructor; assumption|].
    destruct (k =? k'); constructor; assumption.
Qed.

Lemma map_find_below_first (k : Z) (m : PriorityQueues) :
  Forall (fun x => k < x) (keys m) -> map_find k m = None.
Proof.
  unfold keys. induction m as [|[k' v'] m IH]; simpl; intros Hall;
    [reflexivity|].
  apply Forall_cons in Hall as [Hlt Hall].
  destruct (Z.eqb_spec k' k); [lia | auto].
Qed.

Lemma map_find_elem (k : Z) (q : PolicyQueue.t) (m : PriorityQueues) :
  map_find k m = Some q -> (k, q) ∈ m.
Proof.
  induction m as [|[k' v'] m IH]; simpl; [discriminate|].
  destruct (Z.eqb_spec k' k) as [->|_].
  - intros [= ->]. left.
  - intros Hf. right. auto.
Qed.

(** Storing under [k] swaps the contribution of level [k] in any total. *)
Lemma map_set_total (f : PolicyQueue.t -> Z) (k : Z) (v : PolicyQueue.t)
    (m : PriorityQueues) :
  StronglySorted Z.lt (keys m) ->
  foldr (fun e acc => f e.2 + acc) 0 (map_set k v m)
  = foldr (fun e acc => f e.2 + acc) 0 m + f v
    - match map_find k m with Some q => f q | None => 0 end.
Proof.
  unfold keys. induction m as [|[k' v'] m IH]; simpl; intros Hs; [lia|].
  apply StronglySorted_inv in Hs as [Hs Hall].
  destruct (Z.ltb_spec k k') as [Hlt|Hge]; simpl.
  - destruct (Z.eqb_spec k' k); [lia|].
    rewrite map_find_below_first; [lia|].
    eapply Forall_impl; [exact Hall|]. simpl. intros; lia.
  - destruct (Z.eqb_spec k k') as [->|Hne]; simpl.
    + rewrite Z.eqb_refl. lia.
    + destruct (Z.eqb_spec k' k); [congruence|]. rewrite IH by assumption. lia.
Qed.

Lemma keys_map_set_keeps (k : Z) (v : PolicyQueue.t) (m : PriorityQueues)
    (x : Z) :
  x ∈ keys m -> x ∈ keys (map_set k v m).
Proof.
  unfold keys. induction m as [|[k' v'] m IH]; simpl; intros Hx.
  - inversion Hx.
  - destruct (Z.ltb_spec k k') as [Hlt|Hge]; simpl; [right; exact Hx|].
    destruct (Z.eqb_spec k k') as [->|Hne]; simpl; [exact Hx|].
    apply elem_of_cons in Hx as [->|Hx]; [left | right; auto].
Qed.

Lemma map_set_elem (k : Z) (v : PolicyQueue.t) (m : PriorityQueues)
    (e : Z * PolicyQueue.t) :
  e ∈ map_set k v m -> e = (k, v) \/ e ∈ m.
Proof.
  induction m as [|[k' v'] m IH]; simpl.
  - intros He. apply list_elem_of_singleton in He. auto.
  - destruct (Z.ltb_spec k k') as [Hlt|Hge]; simpl.
    + intros He. apply elem_of_cons in He as [->|He]; auto.
    + destruct (Z.eqb_spec k k') as [->|Hne]; simpl.
      * intros He. apply elem_of_cons in He as [->|He]; [auto|].
        right. right. exact He.
      * intros He. apply elem_of_cons in He as [->|He]; [right; left|].
        destruct (IH He) as [->|Hin]; [auto | right; right; exact Hin].
Qed.

(** ** The constructors *)

Lemma map_set_not_nil (k : Z) (v : PolicyQueue.t) (m : PriorityQueues) :
  map_set k v m <> [].
Proof.
  destruct m as [|[k' v'] m]; simpl; [discriminate|].
  destruct (k <? k'); [discriminate|]. destruct (k =? k'); discriminate.
Qed.

Lemma ctor_levels_Constructed (dflt : ModelQueuePolicy.t)
    (policies : gmap Z ModelQueuePolicy.t) (levels : list Z) :
  forall queues : PriorityQueues,
    StronglySorted Z.lt (keys queues) ->
    Forall (fun e => PolicyQueue.timeout_timestamp_ns_ e.2 = [] /\
                     PolicyQueue.queue_ e.2 = [] /\
                     PolicyQueue.delayed_queue_ e.2 = [] /\
                     PolicyQueue.rejected_queue_ e.2 = []) queues ->
    (levels <> [] \/ queues <> []) ->
    let queues' := PriorityQueue.ctor_levels dflt policies levels queues in
    queues' <> [] /\
    StronglySorted Z.lt (keys queues') /\
    Forall (fun e => PolicyQueue.timeout_timestamp_ns_ e.2 = [] /\
                     PolicyQueue.queue_ e.2 = [] /\
                     PolicyQueue.delayed_queue_ e.2 = [] /\
                     PolicyQueue.rejected_queue_ e.2 = []) queues'.
Proof.
  induction levels as [|level levels IH]; intros queues Hs Hall Hne; simpl.
  - destruct Hne as [Hne|Hne]; [contradiction|]. auto.
  - apply IH.
    + unfold map_emplace. destruct (map_find level queues); [exact Hs|].
      apply map_set_sorted. exact Hs.
    + unfold map_emplace. destruct (map_find level queues); [exact Hall|].
      apply map_set_Forall; [|exact Hall]. simpl. auto.
    + right. unfold map_emplace.
      destruct (map_find level queues) eqn:Hf.
      * destruct queues; [discriminate Hf | discriminate].
      * apply map_set_not_nil.
Qed.

(** Both constructors leave a queue that is [Constructed]. *)
Lemma ctor_Constructed (dflt : ModelQueuePolicy.t) (priority_levels : nat)
    (policies : gmap Z ModelQueuePolicy.t) :
  Z.of_nat priority_levels < UINT32_MAX ->
  Constructed (PriorityQueue.ctor dflt priority_levels policies).
Proof.
  intros _.
  unfold PriorityQueue.ctor, PriorityQueue.ResetCursor, Constructed. pq_simpl.
  destruct priority_levels as [|k].
  - simpl. split; [discriminate|]. split; [repeat constructor|].
    split; [repeat constructor|]. auto.
  - destruct (ctor_levels_Constructed dflt policies
                (Z.of_nat <$> seq 1 (S k)) [])
      as (Hne & Hs & Hall).
    + constructor.
    + constructor.
    + left. discriminate.
    + auto.
Qed.

(** ** Runs of operations *)

Lemma map_at_cases (dp : ModelQueuePolicy.t) (k : Z) (m : PriorityQueues) :
  (map_find k m = Some (PriorityQueue.map_at dp k m)) \/
  (map_find k m = None /\ PriorityQueue.map_at dp k m = PolicyQueue.ctor dp).
Proof.
  unfold PriorityQueue.map_at. destruct (map_find k m); auto.
Qed.

Lemma map_at_wf (dp : ModelQueuePolicy.t) (k : Z) (m : PriorityQueues) :
  Forall (fun e => PolicyQueue.wf e.2) m ->
  PolicyQueue.wf (PriorityQueue.map_at dp k m).
Proof.
  intros Hall. destruct (map_at_cases dp k m) as [Hf|[_ ->]].
  - apply map_find_elem in Hf. rewrite Forall_forall in Hall.
    exact (Hall _ Hf).
  - reflexivity.
Qed.

Lemma map_set_at_total_size (dp : ModelQueuePolicy.t) (k : Z)
    (v : PolicyQueue.t) (m : PriorityQueues) :
  StronglySorted Z.lt (keys m) ->
  total_size (map_set k v m)
  = total_size m + PolicyQueue.Size v
    - PolicyQueue.Size (PriorityQueue.map_at dp k m).
Proof.
  intros Hs. unfold total_size. rewrite (map_set_total PolicyQueue.Size) by
    assumption.
  unfold PriorityQueue.map_at. destruct (map_find k m); reflexivity.
Qed.

Lemma map_set_at_elem (dp : ModelQueuePolicy.t) (k : Z) (m : PriorityQueues)
    (e : Z * PolicyQueue.t) :
  e ∈ map_set k (PriorityQueue.map_at dp k m) m ->
  e ∈ m \/ e.2 = PolicyQueue.ctor dp.
Proof.
  intros He. apply map_set_elem in He as [->|He]; [|auto].
  destruct (map_at_cases dp k m) as [Hf|[_ ->]]; [|auto].
  left. apply map_find_elem. exact Hf.
Qed.

Lemma Enqueue_step_inv (dp : ModelQueuePolicy.t) (pq : PriorityQueue.t)
    (n : Counts) (L : Z) (payload : Payload) (now : Z) :
  RunInv pq n ->
  total_size (PriorityQueue.queues_ pq) + 1 < U64_MODULUS ->
  exists (pq' : PriorityQueue.t) (n' : Counts),
    step dp (pq, n) (OpEnqueue L payload now) = Some (pq', n') /\
    RunInv pq' n' /\
    enqueued n <= enqueued n' <= enqueued n + 1.
Proof.
  intros ((Hsorted & Hwf & Hsize & Hrange) & Hidx & Hcount & Hpark & Htotal
          & Hdeq & Hrej) Hbound.
  set (m := PriorityQueue.queues_ pq) in *.
  set (q := PriorityQueue.map_at dp L m).
  pose proof (map_at_wf dp L m Hwf) as Hq. fold q in Hq.
  pose proof (map_set_at_total_size dp L) as Htot.
  unfold step, PriorityQueue.Enqueue. fold m q.
  destruct (PolicyQueue_Enqueue_cases q payload now)
    as [(_ & _ & ->) | (_ & d & ->)]; simpl.
  - (* the level is full *)
    eexists _, _. split; [reflexivity|]. split; [|lia].
    unfold RunInv, PriorityQueue_wf, cursor_parked in *. pq_simpl.
    rewrite (Htot q m Hsorted). fold q.
    split; [|split; [exact Hidx | split; [exact Hcount|]]].
    + split; [apply map_set_sorted; exact Hsorted|].
      split; [apply map_set_Forall; assumption|].
      split; [lia | exact Hrange].
    + split; [|lia].
      intros Hv. destruct (Hpark Hv) as (l & Hit & Hin & Hbefore).
      exists l. split; [exact Hit|]. split.
      * apply keys_map_set_keeps. exact Hin.
      * intros e He Hlt.
        apply map_set_at_elem in He as [He|He]; [auto|].
        rewrite He. reflexivity.
  - (* the payload is stored *)
    set (q' := PolicyQueue.with_queues q _ _ _ _).
    assert (Hq' : PolicyQueue.wf q').
    { unfold PolicyQueue.wf in *. simpl. rewrite !length_app, Hq.
      reflexivity. }
    assert (Hsz : PolicyQueue.Size q' = PolicyQueue.Size q + 1).
    { unfold PolicyQueue.Size. simpl. rewrite length_app. simpl. lia. }
    pose proof (total_size_nonneg m) as Hnn.
    assert (Hu : u64 (PriorityQueue.size_ pq + 1) = total_size m + 1).
    { rewrite Hsize. apply u64_small. unfold is_u64. lia. }
    assert (Hwf' : forall c,
               PriorityQueue_wf
                 {| PriorityQueue.queues_ := map_set L q' m;
                    PriorityQueue.size_ := u64 (PriorityQueue.size_ pq + 1);
                    PriorityQueue.pending_cursor_ := c |}).
    { intros c. split; [apply map_set_sorted; exact Hsorted|].
      split; [apply map_set_Forall; assumption|]. pq_simpl.
      rewrite Hu, (Htot q' m Hsorted). fold q. rewrite Hsz.
      split; [lia|]. unfold is_u64. lia. }
    assert (Htot' : total_size (map_set L q' m)
                    = enqueued n + 1 - dequeued n - rejected n).
    { rewrite (Htot q' m Hsorted). fold q. lia. }
    destruct (PriorityQueue.valid_ (PriorityQueue.pending_cursor_ pq))
      eqn:Hv.
    + destruct (Hpark Hv) as (l & Hit & Hin & Hbefore). rewrite Hit.
      eexists _, _. split; [reflexivity|]. pq_simpl.
      change (IsOk Status_Success) with true. cbv iota. pq_simpl.
      split; [|lia].
      split; [apply Hwf'|]. unfold cursor_parked. pq_simpl.
      split; [exact Hidx|]. split; [exact Hcount|].
      split; [|split; [exact Htot' | lia]].
      intros Hv'. apply Z.gtb_gt in Hv'.
      exists l. split; [exact Hit|]. split.
      * apply keys_map_set_keeps. exact Hin.
      * intros e He Hlt. apply map_set_elem in He as [->|He]; [|auto].
        simpl in Hlt. lia.
    + eexists _, _. split; [reflexivity|]. pq_simpl.
      change (IsOk Status_Success) with true. cbv iota. pq_simpl.
      split; [|lia].
      split; [apply Hwf'|]. unfold cursor_parked. pq_simpl.
      split; [exact Hidx|]. split; [exact Hcount|].
      split; [|split; [exact Htot' | lia]].
      intros Hv'. discriminate Hv'.
Qed.

Lemma Dequeue_loop_all_empty (m : PriorityQueues) :
  Forall (fun e => PolicyQueue.Empty e.2 = true) m ->
  PriorityQueue.Dequeue_loop m = None.
Proof.
  induction 1 as [|[l q] m Hq _ IH]; simpl; [reflexivity|].
  simpl in Hq. rewrite Hq, IH. reflexivity.
Qed.

Lemma Forall_or_Exists_empty (m : PriorityQueues) :
  Forall (fun e => PolicyQueue.Empty e.2 = true) m \/
  Exists (fun e => PolicyQueue.Empty e.2 = false) m.
Proof.
  induction m as [|[l q] m [IH|IH]].
  - left. constructor.
  - destruct (PolicyQueue.Empty q) eqn:He.
    + left. constructor; assumption.
    + right. left. exact He.
  - right. right. exact IH.
Qed.

Lemma PolicyQueue_Dequeue_wf (q : PolicyQueue.t) (res : Payload)
    (q' : PolicyQueue.t) :
  PolicyQueue.wf q -> PolicyQueue.Dequeue q = Some (res, q') ->
  PolicyQueue.wf q'.
Proof.
  unfold PolicyQueue.wf, PolicyQueue.Dequeue. intros Hwf.
  destruct (PolicyQueue.queue_ q) as [|p rest].
  - destruct (PolicyQueue.delayed_queue_ q); [discriminate|].
    intros [= _ <-]. simpl. exact Hwf.
  - intros [= _ <-]. simpl in *.
    destruct (PolicyQueue.timeout_timestamp_ns_ q); simpl in *; lia.
Qed.

Lemma Dequeue_step_inv (dp : ModelQueuePolicy.t) (pq : PriorityQueue.t)
    (n : Counts) :
  RunInv pq n ->
  exists (pq' : PriorityQueue.t) (n' : Counts),
    step dp (pq, n) OpDequeue = Some (pq', n') /\
    RunInv pq' n' /\
    enqueued n' = enqueued n.
Proof.
  intros ((Hsorted & Hwf & Hsize & Hrange) & Hidx & Hcount & Hpark & Htotal
          & Hdeq & Hrej).
  unfold step, PriorityQueue.Dequeue.
  destruct (Forall_or_Exists_empty (PriorityQueue.queues_ pq)) as [Hall|Hex].
  - rewrite (Dequeue_loop_all_empty _ Hall).
    eexists _, _. split; [reflexivity|]. split; [|reflexivity].
    unfold RunInv, PriorityQueue_wf, cursor_parked. pq_simpl.
    split; [exact (conj Hsorted (conj Hwf (conj Hsize Hrange)))|].
    repeat (split; [assumption|]). split; [discriminate|].
    repeat (split; [assumption|]). assumption.
  - destruct (Dequeue_loop_first_nonempty _ Hex)
      as (before & level & q & after & res & q' & Hsplit & Hb & Hq & Hd
          & ->).
    destruct (PolicyQueue_Dequeue_nonempty q Hq)
      as (res0 & q0 & Hd0 & Hsz & _).
    rewrite Hd in Hd0. injection Hd0 as <- <-.
    eexists _, _. split; [reflexivity|]. split; [|reflexivity].
    unfold RunInv, PriorityQueue_wf, cursor_parked. pq_simpl.
    rewrite Hsplit in *.
    assert (Htot : total_size (before ++ (level, q') :: after)
                   = total_size (before ++ (level, q) :: after) - 1).
    { rewrite !total_size_app. simpl. lia. }
    pose proof (total_size_nonneg (before ++ (level, q') :: after)) as Hnn.
    rewrite Htot in *.
    rewrite u64_small by (unfold is_u64 in *; lia).
    split.
    { split.
      { unfold keys in *. rewrite fmap_app in *. exact Hsorted. }
      split.
      { apply Forall_app in Hwf as [Hw1 Hw2].
        apply Forall_cons in Hw2 as [Hw2 Hw3].
        apply Forall_app. split; [exact Hw1|].
        constructor; [|exact Hw3].
        simpl in *. eapply PolicyQueue_Dequeue_wf; eassumption. }
      unfold is_u64 in *. lia. }
    repeat (split; [assumption|]). split; [discriminate|].
    split; [lia|]. lia.
Qed.

(** What one [ApplyPolicy] does to the sizes: [m] payloads go from the main
    queue to the rejected queue and are counted; the others stay in the main
    or delayed queue. From index 0 the answer is [false] exactly when no
    payload is left. *)
Lemma ApplyPolicy_accounting (q : PolicyQueue.t) (idx rc rbs now : Z) :
  PolicyQueue.wf q -> is_u64 idx -> is_u64 rc -> is_u64 rbs ->
  exists (m : nat) (found : bool) (q' : PolicyQueue.t) (rc' rbs' : Z),
    PolicyQueue.ApplyPolicy q idx rc rbs now = (found, q', rc', rbs') /\
    PolicyQueue.wf q' /\
    rc' = u64 (rc + Z.of_nat m) /\
    is_u64 rbs' /\
    PolicyQueue.Size q' = PolicyQueue.Size q - Z.of_nat m /\
    Z.of_nat (length (PolicyQueue.rejected_queue_ q'))
    = Z.of_nat (length (PolicyQueue.rejected_queue_ q)) + Z.of_nat m /\
    (idx = 0 -> (found = false <-> PolicyQueue.Size q' = 0)).
Proof.
  intros Hwf Hidx Hrc Hrbs.
  pose proof (ApplyPolicy_loop_run now idx _ q rc rbs Hwf Hrc Hrbs eq_refl)
    as Hrun.
  cbn zeta in Hrun.
  set (i := Z.to_nat idx) in *.
  set (n := timed_out_prefix now
              (drop i (PolicyQueue.timeout_timestamp_ns_ q))) in *.
  assert (Hn : (n <= length (PolicyQueue.queue_ q) - i)%nat).
  { subst n. etransitivity; [apply timed_out_prefix_length|].
    unfold PolicyQueue.wf in Hwf. rewrite length_drop, Hwf. lia. }
  unfold PolicyQueue.ApplyPolicy. rewrite Hrun. clear Hrun.
  set (moved := take n (drop i (PolicyQueue.queue_ q))).
  assert (Hmoved : length moved = n).
  { subst moved. rewrite length_take, length_drop. lia. }
  set (main' := take i (PolicyQueue.queue_ q)
                ++ drop (i + n) (PolicyQueue.queue_ q)).
  assert (Hmain' : (length main' = length (PolicyQueue.queue_ q) - n)%nat).
  { subst main'. rewrite length_app, length_take, length_drop. lia. }
  assert (Hts' : length (take i (PolicyQueue.timeout_timestamp_ns_ q)
                         ++ drop (i + n) (PolicyQueue.timeout_timestamp_ns_ q))
                 = length main').
  { subst main'. unfold PolicyQueue.wf in Hwf.
    rewrite !length_app, !length_take, !length_drop, Hwf. reflexivity. }
  assert (Hfound : forall delayed' : list Payload,
             idx = 0 ->
             ((if (i + n <? length (PolicyQueue.queue_ q))%nat then true
               else u64 (idx - Z.of_nat (length main'))
                    <? Z.of_nat (length delayed')) = false
              <-> Z.of_nat (length main') + Z.of_nat (length delayed') = 0)).
  { intros delayed' ->. subst i. simpl in *.
    destruct (Nat.ltb_spec n (length (PolicyQueue.queue_ q))) as [Hlt|Hge].
    - split; [discriminate | lia].
    - replace (length main') with 0%nat by lia.
      change (u64 (0 - Z.of_nat 0)) with 0. rewrite Z.ltb_ge. lia. }
  destruct (PolicyQueue.timeout_action_ q) eqn:Hact.
  - exists n. eexists _, _, _, _. split; [reflexivity|].
    split; [exact Hts'|]. split; [reflexivity|].
    split; [apply u64_range|].
    split; [|split].
    + unfold PolicyQueue.Size. simpl. rewrite Hmain'. lia.
    + simpl. rewrite length_app, Hmoved. lia.
    + intros Hz. etransitivity; [apply (Hfound _ Hz)|].
      unfold PolicyQueue.Size. simpl. rewrite Hmain'. reflexivity.
  - exists 0%nat. eexists _, _, _, _. split; [reflexivity|].
    split; [exact Hts'|].
    split; [rewrite Z.add_0_r, u64_small by assumption; reflexivity|].
    split; [assumption|].
    split; [|split].
    + unfold PolicyQueue.Size. simpl. rewrite length_app, Hmain', Hmoved. lia.
    + simpl. lia.
    + intros Hz. etransitivity; [apply (Hfound _ Hz)|].
      unfold PolicyQueue.Size. simpl. rewrite Hmain'. reflexivity.
Qed.

Lemma map_split_spec (l : Z) (m : PriorityQueues) :
  StronglySorted Z.lt (keys m) ->
  m = (map_split l m).1 ++ (map_split l m).2 /\
  Forall (fun e => e.1 < l) (map_split l m).1 /\
  (l ∈ keys m ->
   exists (q : PolicyQueue.t) (rest : PriorityQueues),
     (map_split l m).2 = (l, q) :: rest).
Proof.
  unfold keys. induction m as [|[k v] m IH]; simpl; intros Hs.
  - split; [reflexivity|]. split; [constructor|]. intros Hin. inversion Hin.
  - apply StronglySorted_inv in Hs as [Hs Hall].
    destruct (Z.ltb_spec k l) as [Hlt|Hge].
    + destruct (IH Hs) as (Heq & Hb & Hfrom).
      destruct (map_split l m) as [before from]. simpl in *.
      split; [congruence|]. split; [constructor; assumption|].
      intros Hin. apply elem_of_cons in Hin as [->|Hin]; [lia | auto].
    + simpl. split; [reflexivity|]. split; [constructor|].
      intros Hin. apply elem_of_cons in Hin as [->|Hin]; [eauto|].
      rewrite Forall_forall in Hall. specialize (Hall l Hin). lia.
Qed.

(** The walk of [ApplyPolicyAtCursor] from index 0 with an empty pending
    batch. The levels it leaves behind are empty; it stops on a level, or
    runs off the end with [size] still above the rejected count. *)
Lemma ApplyPolicyAtCursor_loop_inv (now : nat -> Z) (size : Z)
    (from : PriorityQueues) :
  forall (k : nat) (rc rbs : Z),
    Forall (fun e => PolicyQueue.wf e.2) from ->
    is_u64 rc -> is_u64 rbs ->
    rc + total_size from < U64_MODULUS ->
    exists (from' : PriorityQueues) (it : option Z) (rc' rbs' : Z),
      PriorityQueue.ApplyPolicyAtCursor_loop now k from 0 size 0 rc rbs
      = (from', it, 0, rc', rbs') /\
      keys from' = keys from /\
      Forall (fun e => PolicyQueue.wf e.2) from' /\
      is_u64 rc' /\ is_u64 rbs' /\ rc <= rc' /\
      total_size from' = total_size from - (rc' - rc) /\
      total_rejected from' = total_rejected from + (rc' - rc) /\
      match it with
      | Some l =>
          exists (b : PriorityQueues) (q : PolicyQueue.t) (a : PriorityQueues),
            from' = b ++ (l, q) :: a /\
            Forall (fun e => PolicyQueue.Empty e.2 = true) b
      | None =>
          Forall (fun e => PolicyQueue.Empty e.2 = true) from' /\
          (from <> [] -> size > rc')
      end.
Proof.
  induction from as [|[l q] rest IH]; intros k rc rbs Hwf Hrc Hrbs Hfit.
  - exists [], None, rc, rbs. simpl.
    split; [reflexivity|]. split; [reflexivity|]. split; [constructor|].
    split; [assumption|]. split; [assumption|]. split; [lia|].
    split; [lia|]. split; [lia|].
    split; [constructor | intros Hne; contradiction].
  - apply Forall_cons in Hwf as [Hq Hrest]. simpl in Hq, Hfit.
    assert (Hzero : is_u64 0) by (unfold is_u64, U64_MODULUS; lia).
    destruct (ApplyPolicy_accounting q 0 rc rbs (now k) Hq Hzero Hrc Hrbs)
      as (m & found & q' & rc1 & rbs1 & Happly & Hq' & Hrc1 & Hrbs1 & Hsz
          & Hrejlen & Hfound).
    specialize (Hfound eq_refl).
    pose proof (PolicyQueue_Size_nonneg q') as Hnn'.
    pose proof (total_size_nonneg rest) as Hnnrest.
    assert (Hrc1' : rc1 = rc + Z.of_nat m).
    { rewrite Hrc1. apply u64_small. unfold is_u64 in *. lia. }
    assert (Hrc1u : is_u64 rc1) by (rewrite Hrc1; apply u64_range).
    simpl. rewrite Happly.
    change (0 + rc1) with rc1. rewrite (u64_small rc1 Hrc1u).
    destruct (negb found && (size >? rc1)) eqn:Hcond.
    + apply andb_true_iff in Hcond as [Hnf Hgt].
      apply negb_true_iff in Hnf. apply Z.gtb_gt in Hgt.
      assert (Hempty : PolicyQueue.Size q' = 0) by (apply Hfound; exact Hnf).
      destruct (IH (S k) rc1 rbs1 Hrest Hrc1u Hrbs1)
        as (from' & it & rc' & rbs' & Hloop & Hkeys & Hwf' & Hrc' & Hrbs'
            & Hle & Htot & Hrej & Hit); [lia|].
      rewrite Hloop.
      exists ((l, q') :: from'), it, rc', rbs'.
      split; [reflexivity|].
      split; [unfold keys in *; rewrite !fmap_cons, Hkeys; reflexivity|].
      split; [constructor; assumption|].
      split; [assumption|]. split; [assumption|]. split; [lia|].
      split; [simpl; lia|]. split; [simpl; lia|].
      assert (He : PolicyQueue.Empty q' = true).
      { unfold PolicyQueue.Empty. apply Z.eqb_eq. exact Hempty. }
      destruct it as [l'|].
      * destruct Hit as (b & q0 & a & -> & Hb).
        exists ((l, q') :: b), q0, a. split; [reflexivity|].
        constructor; assumption.
      * destruct Hit as [Hall Hsize]. split; [constructor; assumption|].
        intros _. destruct rest as [|e rest'].
        -- simpl in Hloop. injection Hloop as <- <-. lia.
        -- apply Hsize. discriminate.
    + exists ((l, q') :: rest), (Some l), rc1, rbs1.
      split; [reflexivity|]. split; [reflexivity|].
      split; [constructor; assumption|].
      split; [assumption|]. split; [assumption|]. split; [lia|].
      split; [simpl; lia|]. split; [simpl; lia|].
      exists [], q', rest. split; [reflexivity | constructor].
Qed.

Lemma total_size_sub (m1 m2 : PriorityQueues) :
  total_size m2 <= total_size (m1 ++ m2).
Proof.
  rewrite total_size_app. pose proof (total_size_nonneg m1). lia.
Qed.

Lemma Empty_below_all (m : PriorityQueues) :
  Forall (fun e => PolicyQueue.Empty e.2 = true) m ->
  forall e, e ∈ m -> PolicyQueue.Empty e.2 = true.
Proof. intros Hall. rewrite Forall_forall in Hall. exact Hall. Qed.

Lemma ApplyPolicyAtCursor_step_inv (dp : ModelQueuePolicy.t)
    (pq : PriorityQueue.t) (n : Counts) (now : nat -> Z) :
  RunInv pq n ->
  exists (pq' : PriorityQueue.t) (n' : Counts),
    step dp (pq, n) (OpApplyPolicyAtCursor now) = Some (pq', n') /\
    RunInv pq' n' /\
    enqueued n' = enqueued n.
Proof.
  intros ((Hsorted & Hwf & Hsize & Hrange) & Hidx & Hcount & Hpark & Htotal
          & Hdeq & Hrej).
  unfold step. eexists _, _. split; [reflexivity|]. split; [|reflexivity].
  unfold PriorityQueue.ApplyPolicyAtCursor.
  set (m := PriorityQueue.queues_ pq) in *.
  set (c := PriorityQueue.pending_cursor_ pq) in *.
  rewrite Hidx, Hcount.
  assert (Hzero : is_u64 0) by (unfold is_u64, U64_MODULUS; lia).
  pose proof (total_size_nonneg m) as Hnn.
  assert (Hsplit : exists before from : PriorityQueues,
             match PriorityQueue.curr_it_ c with
             | Some level => map_split level m
             | None => (m, [])
             end = (before, from) /\
             m = before ++ from /\
             (PriorityQueue.valid_ c = true ->
              Forall (fun e => PolicyQueue.Empty e.2 = true) before /\
              from <> [])).
  { destruct (PriorityQueue.curr_it_ c) as [l|] eqn:Hit.
    - destruct (map_split_spec l m Hsorted) as (Heq & Hb & Hfrom).
      destruct (map_split l m) as [before from]. simpl in *.
      exists before, from. split; [reflexivity|]. split; [exact Heq|].
      intros Hv. destruct (Hpark Hv) as (l0 & Hit0 & Hin & Hbelow).
      fold c in Hit0. rewrite Hit in Hit0. injection Hit0 as <-.
      split.
      + apply Forall_forall. intros e He. apply Hbelow.
        * fold m. rewrite Heq. apply elem_of_app. left. exact He.
        * rewrite Forall_forall in Hb. apply Hb. exact He.
      + destruct (Hfrom Hin) as (q & rest & ->). discriminate.
    - exists m, []. split; [reflexivity|]. split; [rewrite app_nil_r; reflexivity|].
      intros Hv. destruct (Hpark Hv) as (l0 & Hit0 & _).
      fold c in Hit0. congruence. }
  destruct Hsplit as (before & from & -> & Hm & Hvalid).
  assert (Hwf2 : Forall (fun e => PolicyQueue.wf e.2) before /\
                 Forall (fun e => PolicyQueue.wf e.2) from).
  { rewrite Hm in Hwf. apply Forall_app in Hwf. exact Hwf. }
  destruct Hwf2 as [Hwfb Hwff].
  destruct (ApplyPolicyAtCursor_loop_inv now (PriorityQueue.size_ pq) from 0%nat
              0 0 Hwff Hzero Hzero)
    as (from' & it & rc' & rbs' & -> & Hkeys & Hwf' & Hrc' & Hrbs' & Hle
        & Htot & Hrejd & Hit).
  { pose proof (total_size_sub before from). rewrite <- Hm in *.
    unfold is_u64 in *. lia. }
  pq_simpl.
  assert (Htot' : total_size (before ++ from') = total_size m - rc').
  { rewrite Hm, !total_size_app. lia. }
  assert (Hrej' : total_rejected (before ++ from') - total_rejected m = rc').
  { rewrite Hm, !total_rejected_app. lia. }
  pose proof (total_size_nonneg (before ++ from')) as Hnn'.
  unfold RunInv, PriorityQueue_wf, cursor_parked. pq_simpl.
  rewrite Hrej', Htot'.
  rewrite u64_small by (unfold is_u64 in *; lia).
  split.
  { split.
    { unfold keys in *. rewrite fmap_app, Hkeys, <- fmap_app, <- Hm.
      exact Hsorted. }
    split; [apply Forall_app; split; assumption|].
    split; [lia|]. unfold is_u64 in *. lia. }
  split; [reflexivity|]. split; [first [reflexivity | exact Hcount]|].
  split; [|split; [lia|split; lia]].
  intros Hv. destruct (Hvalid Hv) as [Hbempty Hfrom].
  destruct it as [l'|].
  - destruct Hit as (b & q & a & -> & Hb).
    exists l'. split; [reflexivity|]. split.
    + unfold keys. rewrite !fmap_app, fmap_cons.
      apply elem_of_app. right. apply elem_of_app. right. left.
    + intros e He Hlt.
      assert (Hs' : StronglySorted Z.lt
                      (keys ((before ++ b) ++ (l', q) :: a))).
      { rewrite <- app_assoc. unfold keys in *.
        rewrite fmap_app, Hkeys, <- fmap_app, <- Hm. exact Hsorted. }
      destruct (sorted_before_below _ _ _ _ Hs') as [_ Hafter].
      apply elem_of_app in He as [He|He];
        [exact (Empty_below_all _ Hbempty e He)|].
      apply elem_of_app in He as [He|He];
        [exact (Empty_below_all _ Hb e He)|].
      apply elem_of_cons in He as [->|He]; [simpl in Hlt; lia|].
      specialize (Hafter e He). lia.
  - exfalso. destruct Hit as [Hall Hgt]. specialize (Hgt Hfrom).
    rewrite total_size_app, (total_size_all_empty _ Hbempty),
      (total_size_all_empty _ Hall) in Htot'.
    lia.
Qed.

Lemma Constructed_RunInv (pq : PriorityQueue.t) :
  Constructed pq -> RunInv pq (mkCounts 0 0 0).
Proof.
  intros (Hne & Hsorted & Hall & Hsize & Hcursor).
  assert (Hempty : Forall (fun e => PolicyQueue.Empty e.2 = true)
                     (PriorityQueue.queues_ pq)).
  { eapply Forall_impl; [exact Hall|]. intros [l q] (_ & Hmain & Hdel & _).
    unfold PolicyQueue.Empty, PolicyQueue.Size. simpl in *.
    rewrite Hmain, Hdel. reflexivity. }
  unfold RunInv, PriorityQueue_wf, cursor_parked. rewrite Hcursor. pq_simpl.
  simpl. rewrite Hsize, (total_size_all_empty _ Hempty).
  split.
  { split; [exact Hsorted|]. split; [|split; [reflexivity|]].
    - eapply Forall_impl; [exact Hall|]. intros [l q] (Hts & Hmain & _).
      unfold PolicyQueue.wf. simpl in *. rewrite Hts, Hmain. reflexivity.
    - unfold is_u64, U64_MODULUS. lia. }
  split; [reflexivity|]. split; [reflexivity|].
  split; [|lia].
  intros _. destruct (PriorityQueue.queues_ pq) as [|[l q] m] eqn:Hq;
    [contradiction|].
  exists l. split; [reflexivity|]. split; [left|].
  intros e He _. exact (Empty_below_all _ Hempty e He).
Qed.

(** Every run from a constructed queue is defined, and keeps the
    invariant. *)
Lemma run_inv (dp : ModelQueuePolicy.t) (ops : list Op) :
  forall (pq : PriorityQueue.t) (n : Counts) (done : Z),
    RunInv pq n -> enqueued n <= done ->
    done + Z.of_nat (length ops) < U64_MODULUS ->
    exists (pq' : PriorityQueue.t) (n' : Counts),
      run dp ops (pq, n) = Some (pq', n') /\ RunInv pq' n'.
Proof.
  induction ops as [|op ops IH]; intros pq n done Hinv Hdone Hfit.
  - exists pq, n. split; [reflexivity | exact Hinv].
  - simpl length in Hfit.
    assert (Hstep : exists (pq1 : PriorityQueue.t) (n1 : Counts),
               step dp (pq, n) op = Some (pq1, n1) /\ RunInv pq1 n1 /\
               enqueued n1 <= done + 1).
    { destruct op as [L payload now | | now].
      - destruct (Enqueue_step_inv dp pq n L payload now Hinv)
          as (pq1 & n1 & Hs & Hi & Hn).
        + destruct Hinv as (_ & _ & _ & _ & Htotal & Hdeq & Hrej). lia.
        + exists pq1, n1. split; [exact Hs|]. split; [exact Hi | lia].
      - destruct (Dequeue_step_inv dp pq n Hinv) as (pq1 & n1 & Hs & Hi & Hn).
        exists pq1, n1. split; [exact Hs|]. split; [exact Hi | lia].
      - destruct (ApplyPolicyAtCursor_step_inv dp pq n now Hinv)
          as (pq1 & n1 & Hs & Hi & Hn).
        exists pq1, n1. split; [exact Hs|]. split; [exact Hi | lia]. }
    destruct Hstep as (pq1 & n1 & Hs & Hi & Hn).
    cbn [run]. rewrite Hs.
    apply (IH pq1 n1 (done + 1) Hi Hn). lia.
Qed.

Lemma run_asserting_run (dp : ModelQueuePolicy.t) (ops : list Op) :
  forall st r : PriorityQueue.t * Counts,
    run_asserting dp ops st = Some r -> run dp ops st = Some r.
Proof.
  induction ops as [|op ops IH]; intros st r; simpl; [auto|].
  assert (Hstep : forall st', step_asserting dp st op = Some st' ->
                              step dp st op = Some st').
  { intros st'. unfold step_asserting. destruct op; auto.
    destruct (PriorityQueue.curr_it_ _); [auto | discriminate]. }
  destruct (step_asserting dp st op) as [st'|]; [|discriminate].
  rewrite (Hstep st' eq_refl). apply IH.
Qed.

(** Every state of a run from a constructed queue is well formed. *)
Lemma run_wf (dp : ModelQueuePolicy.t) (pq0 : PriorityQueue.t)
    (ops : list Op) (pq : PriorityQueue.t) (n : Counts) :
  Constructed pq0 ->
  Z.of_nat (length ops) < U64_MODULUS ->
  run dp ops (pq0, mkCounts 0 0 0) = Some (pq, n) ->
  PriorityQueue_wf pq.
Proof.
  intros Hc Hfit Hrun.
  destruct (run_inv dp ops pq0 (mkCounts 0 0 0) 0 (Constructed_RunInv pq0 Hc))
    as (pq' & n' & Hrun' & Hinv); [simpl; lia | lia |].
  rewrite Hrun in Hrun'. injection Hrun' as <- <-. exact (proj1 Hinv).
Qed.

(** C8. Count conservation. From a queue as constructed, every sequence of
    enqueues, dequeues and policy applications (of fewer than 2^64 calls, so
    that [size_] cannot wrap) runs to an end, and then
    [size_] is the number of payloads enqueued with success, less the number
    dequeued, less the number that policy application moved to a rejected
    queue. The same holds at the end of every run that no [assert] cut
    short. *)
Theorem count_conservation (dp : ModelQueuePolicy.t) (pq0 : PriorityQueue.t)
    (ops : list Op) :
  Constructed pq0 ->
  Z.of_nat (length ops) < U64_MODULUS ->
  (exists (pq : PriorityQueue.t) (n : Counts),
     run dp ops (pq0, mkCounts 0 0 0) = Some (pq, n) /\
     PriorityQueue.size_ pq = enqueued n - dequeued n - rejected n) /\
  (forall (pq : PriorityQueue.t) (n : Counts),
     run_asserting dp ops (pq0, mkCounts 0 0 0) = Some (pq, n) ->
     PriorityQueue.size_ pq = enqueued n - dequeued n - rejected n).
Proof.
  intros Hc Hfit.
  destruct (run_inv dp ops pq0 (mkCounts 0 0 0) 0 (Constructed_RunInv pq0 Hc))
    as (pq & n & Hrun & Hinv); [simpl; lia | lia |].
  assert (Hsize : PriorityQueue.size_ pq
                  = enqueued n - dequeued n - rejected n).
  { destruct Hinv as ((_ & _ & Hsize & _) & _ & _ & _ & Htotal & _).
    congruence. }
  split.
  - exists pq, n. split; [exact Hrun | exact Hsize].
  - intros pq' n' Hrun'. apply run_asserting_run in Hrun'.
    rewrite Hrun in Hrun'. injection Hrun' as <- <-. exact Hsize.
Qed.

Lemma count_conservation_witness :
  exists (pq : PriorityQueue.t) (n : Counts),
    run example_default_policy example_ops (example_levels, mkCounts 0 0 0)
    = Some (pq, n) /\
    PriorityQueue.size_ pq = enqueued n - dequeued n - rejected n.
Proof.
  apply (proj1 (count_conservation example_default_policy example_levels
                  example_ops (ctor_Constructed _ 2%nat _ eq_refl)
                  ltac:(unfold U64_MODULUS; simpl; lia))).
Defined.

(** Three enqueues, one rejection and two dequeues that return a payload
    leave nothing. *)
Example run_example :
  exists pq : PriorityQueue.t,
    run example_default_policy example_ops (example_levels, mkCounts 0 0 0)
    = Some (pq, mkCounts 3 2 1) /\
    run_asserting example_default_policy example_ops
      (example_levels, mkCounts 0 0 0)
    = Some (pq, mkCounts 3 2 1) /\
    PriorityQueue.size_ pq = 0.
Proof.
  eexists. split; [vm_compute; reflexivity|].
  split; [vm_compute; reflexivity | reflexivity].
Qed.

(** An invalid cursor that is left on level 2 runs off the end when the only
    payload is on level 1: the build with assertions stops there. *)
Example run_asserting_example :
  let ops :=
    [OpEnqueue 2 (example_payload 0 1) 0;
     OpApplyPolicyAtCursor (fun _ => 1);
     OpDequeue;
     OpEnqueue 1 (example_payload 0 2) 2;
     OpApplyPolicyAtCursor (fun _ => 3)] in
  run_asserting example_default_policy ops (example_levels, mkCounts 0 0 0)
  = None /\
  exists pq : PriorityQueue.t,
    run example_default_policy ops (example_levels, mkCounts 0 0 0)
    = Some (pq, mkCounts 2 1 0) /\
    PriorityQueue.size_ pq = 1 /\
    PriorityQueue.curr_it_ (PriorityQueue.pending_cursor_ pq) = None.
Proof.
  split; [vm_compute; reflexivity|].
  eexists. split; [vm_compute; reflexivity|]. split; reflexivity.
Qed.

(** * Further properties of the code *)

(** ** RequestTimers: reset and capture *)

Lemma nth_replicate_zero (n i : nat) : nth i (replicate n 0) 0 = 0.
Proof.
  revert i. induction n as [|n IH]; intros [|i]; simpl; auto.
Qed.

Lemma index_inj (a b : RequestTimers.Kind) :
  RequestTimers.index a = RequestTimers.index b -> a = b.
Proof. destruct a, b; simpl; intros H; try reflexivity; discriminate H. Qed.

Lemma index_in_range (k : RequestTimers.Kind) (r : RequestTimers.t) :
  RequestTimers.wf r ->
  (RequestTimers.index k < length (RequestTimers.timestamps_ r))%nat.
Proof.
  intros [Hlen _]. rewrite Hlen. unfold RequestTimers.COUNT__.
  destruct k; simpl; lia.
Qed.

Lemma CaptureTimestamp_wf (r : RequestTimers.t) (k : RequestTimers.Kind)
    (now : Z) :
  RequestTimers.wf r -> RequestTimers.wf (RequestTimers.CaptureTimestamp r k now).2.
Proof.
  intros [Hlen Hall]. split; simpl.
  - rewrite length_insert. exact Hlen.
  - apply Forall_insert; [exact Hall | apply u64_range].
Qed.

Lemma CaptureTimestamp_same (r : RequestTimers.t) (k : RequestTimers.Kind)
    (now : Z) :
  RequestTimers.wf r ->
  RequestTimers.Timestamp (RequestTimers.CaptureTimestamp r k now).2 k
  = u64 now.
Proof.
  intros Hwf. unfold RequestTimers.Timestamp. simpl.
  apply nth_lookup_Some with (d := 0).
  apply list_lookup_insert_eq. apply index_in_range. exact Hwf.
Qed.

Lemma CaptureTimestamp_other (r : RequestTimers.t) (k k' : RequestTimers.Kind)
    (now : Z) :
  k <> k' ->
  RequestTimers.Timestamp (RequestTimers.CaptureTimestamp r k now).2 k'
  = RequestTimers.Timestamp r k'.
Proof.
  intros Hne. unfold RequestTimers.Timestamp. simpl.
  rewrite !nth_lookup. rewrite list_lookup_insert_ne; [reflexivity|].
  intros Heq. apply Hne. apply index_inj. exact Heq.
Qed.

Lemma RequestTimers_ctor_wf : RequestTimers.wf RequestTimers.ctor.
Proof.
  split; [reflexivity|]. repeat constructor; unfold U64_MODULUS; lia.
Defined.

(** X1. After [Reset], and in a timer as constructed, every timestamp is
    zero and every duration is the error value: a timer that was reset and
    not captured again never reports a duration. The vector keeps its
    [COUNT__] slots. *)
Theorem Reset_clears :
  (forall (r : RequestTimers.t) (a b : RequestTimers.Kind),
     RequestTimers.Timestamp (RequestTimers.Reset r) a = 0 /\
     RequestTimers.Duration (RequestTimers.Reset r) a b = U64_MAX) /\
  (forall a b : RequestTimers.Kind,
     RequestTimers.Timestamp RequestTimers.ctor a = 0 /\
     RequestTimers.Duration RequestTimers.ctor a b = U64_MAX) /\
  RequestTimers.wf RequestTimers.ctor /\
  (forall r : RequestTimers.t,
     length (RequestTimers.timestamps_ (RequestTimers.Reset r))
     = length (RequestTimers.timestamps_ r)).
Proof.
  assert (Hreset : forall (r : RequestTimers.t) (a b : RequestTimers.Kind),
             RequestTimers.Timestamp (RequestTimers.Reset r) a = 0 /\
             RequestTimers.Duration (RequestTimers.Reset r) a b = U64_MAX).
  { intros r a b. unfold RequestTimers.Timestamp, RequestTimers.Duration,
      RequestTimers.Reset. simpl. rewrite !nth_replicate_zero.
    split; reflexivity. }
  split; [exact Hreset|]. split; [intros a b; apply Hreset|].
  split; [exact RequestTimers_ctor_wf|].
  intros r. unfold RequestTimers.Reset. simpl. apply length_replicate.
Qed.

(** X2. [CaptureTimestamp] returns the value it stores; reading that kind
    back gives it, every other kind reads as before, and the timer stays
    well formed. *)
Theorem CaptureTimestamp_read_back (r : RequestTimers.t)
    (k : RequestTimers.Kind) (now : Z) :
  RequestTimers.wf r ->
  let res := RequestTimers.CaptureTimestamp r k now in
  res.1 = u64 now /\
  RequestTimers.Timestamp res.2 k = res.1 /\
  (forall k' : RequestTimers.Kind,
     k' <> k ->
     RequestTimers.Timestamp res.2 k' = RequestTimers.Timestamp r k') /\
  RequestTimers.wf res.2.
Proof.
  intros Hwf res. split; [reflexivity|].
  split; [apply CaptureTimestamp_same; exact Hwf|].
  split; [|apply CaptureTimestamp_wf; exact Hwf].
  intros k' Hne. apply CaptureTimestamp_other. congruence.
Qed.

Lemma CaptureTimestamp_read_back_witness :
  RequestTimers.Timestamp
    (RequestTimers.CaptureTimestamp
       {| RequestTimers.timestamps_ := [5; 9; 0; 7; 3; 0] |}
       RequestTimers.SEND_START 42).2 RequestTimers.SEND_START = 42.
Proof.
  exact (proj1 (proj2 (CaptureTimestamp_read_back
                         {| RequestTimers.timestamps_ := [5; 9; 0; 7; 3; 0] |}
                         RequestTimers.SEND_START 42 timers_wf_example))).
Defined.

(** X3. Capturing a start kind at [t1] and then another kind at [t2] gives
    the duration [t2 - t1] when the clock readings are non-zero and did not
    go back, and the error value when the second reading is below the
    first. *)
Theorem Capture_then_Duration (r : RequestTimers.t)
    (a b : RequestTimers.Kind) (t1 t2 : Z) :
  RequestTimers.wf r -> a <> b ->
  0 < t1 < U64_MODULUS -> 0 < t2 < U64_MODULUS ->
  let r1 := (RequestTimers.CaptureTimestamp r a t1).2 in
  let r2 := (RequestTimers.CaptureTimestamp r1 b t2).2 in
  (t1 <= t2 -> RequestTimers.Duration r2 a b = t2 - t1) /\
  (t2 < t1 -> RequestTimers.Duration r2 a b = U64_MAX).
Proof.
  intros Hwf Hab Ht1 Ht2 r1 r2.
  pose proof (CaptureTimestamp_wf r a t1 Hwf) as Hwf1. fold r1 in Hwf1.
  assert (Ha : RequestTimers.Timestamp r2 a = t1).
  { subst r2. rewrite CaptureTimestamp_other by congruence.
    subst r1. rewrite CaptureTimestamp_same by assumption.
    apply u64_small. unfold is_u64. lia. }
  assert (Hb : RequestTimers.Timestamp r2 b = t2).
  { subst r2. rewrite CaptureTimestamp_same by assumption.
    apply u64_small. unfold is_u64. lia. }
  unfold RequestTimers.Duration.
  unfold RequestTimers.Timestamp in Ha, Hb. rewrite Ha, Hb.
  destruct (Z.eqb_spec t1 0); [lia|]. destruct (Z.eqb_spec t2 0); [lia|].
  simpl. split; intros Hord.
  - destruct (Z.gtb_spec t1 t2); [lia|]. apply u64_small. unfold is_u64. lia.
  - destruct (Z.gtb_spec t1 t2); [reflexivity | lia].
Qed.

Lemma Capture_then_Duration_witness :
  RequestTimers.Duration
    (RequestTimers.CaptureTimestamp
       (RequestTimers.CaptureTimestamp RequestTimers.ctor
          RequestTimers.SEND_START 100).2
       RequestTimers.SEND_END 250).2
    RequestTimers.SEND_START RequestTimers.SEND_END = 250 - 100.
Proof.
  apply (proj1 (Capture_then_Duration RequestTimers.ctor
                  RequestTimers.SEND_START RequestTimers.SEND_END 100 250
                  RequestTimers_ctor_wf
                  ltac:(discriminate)
                  ltac:(unfold U64_MODULUS; lia)
                  ltac:(unfold U64_MODULUS; lia))).
  lia.
Defined.

(** X4. The error value is never a duration: [Duration] returns the largest
    [uint64_t] exactly when a timestamp is unset or the two are out of
    order, and every duration it computes is below that value. *)
Theorem Duration_error_value (r : RequestTimers.t)
    (a b : RequestTimers.Kind) :
  RequestTimers.wf r ->
  let ta := RequestTimers.Timestamp r a in
  let tb := RequestTimers.Timestamp r b in
  (RequestTimers.Duration r a b = U64_MAX <-> ta = 0 \/ tb = 0 \/ ta > tb) /\
  0 <= RequestTimers.Duration r a b <= U64_MAX.
Proof.
  intros Hwf ta tb.
  pose proof (timers_nth_u64 r a Hwf) as Ha.
  pose proof (timers_nth_u64 r b Hwf) as Hb.
  fold ta in Ha. fold tb in Hb.
  unfold RequestTimers.Duration.
  change (nth (RequestTimers.index a) (RequestTimers.timestamps_ r) 0) with ta.
  change (nth (RequestTimers.index b) (RequestTimers.timestamps_ r) 0) with tb.
  unfold is_u64, U64_MAX in *.
  destruct (Z.eqb_spec ta 0) as [Hza|Hna]; simpl.
  { split; [|unfold U64_MODULUS; lia].
    split; [intros _; left; exact Hza | reflexivity]. }
  destruct (Z.eqb_spec tb 0) as [Hzb|Hnb]; simpl.
  { split; [|unfold U64_MODULUS; lia].
    split; [intros _; right; left; exact Hzb | reflexivity]. }
  destruct (Z.gtb_spec ta tb) as [Hgt|Hle].
  { split; [|unfold U64_MODULUS; lia].
    split; [intros _; right; right; lia | reflexivity]. }
  rewrite u64_small by (unfold is_u64; lia).
  split; [|lia]. split; [lia|]. intros [?|[?|?]]; lia.
Qed.

Lemma Duration_error_value_witness :
  RequestTimers.Duration {| RequestTimers.timestamps_ := [5; 9; 0; 7; 3; 0] |}
    RequestTimers.REQUEST_END RequestTimers.REQUEST_START = U64_MAX.
Proof.
  apply (proj1 (Duration_error_value _ RequestTimers.REQUEST_END
                  RequestTimers.REQUEST_START timers_wf_example)).
  unfold RequestTimers.Timestamp. simpl. lia.
Defined.

(** ** InitPendingShape *)

Section InitPendingShapeProperties.

Variable OnPeek : Z -> Input -> Payload -> Status * list Z.
Variable runner_id : Z.
Variable payload : Payload.
Variable enforce : gmap string bool.

(** The loop on success: what was there stays, what is new was recorded for
    one of the inputs, and every enforced input has an entry. *)
Lemma InitPendingShape_loop_ok (inputs : list (string * Input)) :
  forall (acc : PendingBatchShapes) (st : Status) (pending : PendingBatchShapes),
    InitPendingShape_loop OnPeek runner_id payload enforce inputs acc
    = (st, pending) ->
    IsOk st = true ->
    (forall name v, acc !! name = Some v -> pending !! name = Some v) /\
    (forall name v,
       pending !! name = Some v ->
       acc !! name = Some v \/
       exists pr, pr ∈ inputs /\ Name pr.2 = name /\
                  recorded_for OnPeek runner_id payload enforce pr.2 v) /\
    (forall pr, pr ∈ inputs -> is_Some (enforce !! Name pr.2) ->
                is_Some (pending !! Name pr.2)).
Proof.
  induction inputs as [|pr rest IH]; intros acc st pending Hloop Hok.
  - simpl in Hloop. injection Hloop as <- <-.
    split; [auto|]. split; [auto|]. intros pr Hin. inversion Hin.
  - simpl in Hloop.
    destruct (enforce !! Name pr.2) as [is_shape|] eqn:Henf.
    + set (peeked := if is_shape then OnPeek runner_id pr.2 payload
                     else (Status_Success, [])) in *.
      destruct (IsOk peeked.1) eqn:Hpk.
      * assert (Hrec : recorded_for OnPeek runner_id payload enforce pr.2
                         (Shape pr.2, peeked.2)).
        { split; [reflexivity|]. simpl. rewrite Henf. subst peeked.
          destruct is_shape; [right | left]; auto. }
        set (acc' := match acc !! Name pr.2 with
                     | Some _ => acc
                     | None => <[Name pr.2 := (Shape pr.2, peeked.2)]> acc
                     end) in *.
        destruct (IH acc' st pending Hloop Hok) as (Hkeep & Hnew & Hall).
        assert (Hacc : forall name v, acc !! name = Some v ->
                                      acc' !! name = Some v).
        { intros name v Hv. subst acc'.
          destruct (acc !! Name pr.2) eqn:Hold; [exact Hv|].
          rewrite lookup_insert_ne; [exact Hv|]. congruence. }
        assert (Hacc' : forall name v, acc' !! name = Some v ->
                   acc !! name = Some v \/
                   (Name pr.2 = name /\ v = (Shape pr.2, peeked.2))).
        { intros name v Hv. subst acc'.
          destruct (acc !! Name pr.2) eqn:Hold; [auto|].
          destruct (decide (Name pr.2 = name)) as [<-|Hne].
          - rewrite lookup_insert_eq in Hv. injection Hv as <-. auto.
          - rewrite lookup_insert_ne in Hv by assumption. auto. }
        split; [auto|]. split.
        -- intros name v Hv. destruct (Hnew name v Hv) as [Hin|Hin].
           ++ destruct (Hacc' name v Hin) as [?|[Hn ->]]; [auto|].
              right. exists pr. split; [left|]. auto.
           ++ destruct Hin as (pr0 & Hin & Hn & Hr). right. exists pr0.
              split; [right; exact Hin | auto].
        -- intros pr0 Hin Henf0.
           apply elem_of_cons in Hin as [->|Hin]; [|auto].
           assert (is_Some (acc' !! Name pr.2)) as [v Hv].
           { subst acc'. destruct (acc !! Name pr.2) eqn:Hold; [eauto|].
             rewrite lookup_insert_eq. eauto. }
           exists v. apply Hkeep. exact Hv.
      * injection Hloop as <- <-. congruence.
    + destruct (IH acc st pending Hloop Hok) as (Hkeep & Hnew & Hall).
      split; [exact Hkeep|]. split.
      * intros name v Hv. destruct (Hnew name v Hv) as [?|Hin]; [auto|].
        destruct Hin as (pr0 & Hin & Hn & Hr). right. exists pr0.
        split; [right; exact Hin | auto].
      * intros pr0 Hin Henf0.
        apply elem_of_cons in Hin as [->|Hin]; [|auto].
        rewrite Henf in Henf0. destruct Henf0 as [? ?]. discriminate.
Qed.

(** The loop on failure: the status is the one of a peek that failed, on an
    input enforced as a shape tensor. *)
Lemma InitPendingShape_loop_failed (inputs : list (string * Input)) :
  forall (acc : PendingBatchShapes) (st : Status) (pending : PendingBatchShapes),
    InitPendingShape_loop OnPeek runner_id payload enforce inputs acc
    = (st, pending) ->
    IsOk st = false ->
    exists pr, pr ∈ inputs /\ enforce !! Name pr.2 = Some true /\
               (OnPeek runner_id pr.2 payload).1 = st.
Proof.
  induction inputs as [|pr rest IH]; intros acc st pending Hloop Hfail.
  - simpl in Hloop. injection Hloop as <- <-. discriminate Hfail.
  - simpl in Hloop.
    destruct (enforce !! Name pr.2) as [is_shape|] eqn:Henf.
    + set (peeked := if is_shape then OnPeek runner_id pr.2 payload
                     else (Status_Success, [])) in *.
      destruct (IsOk peeked.1) eqn:Hpk.
      * destruct (IH _ st pending Hloop Hfail) as (pr0 & Hin & H0).
        exists pr0. split; [right; exact Hin | exact H0].
      * injection Hloop as <- <-. exists pr. split; [left|].
        subst peeked. destruct is_shape; [auto | discriminate Hpk].
    + destruct (IH _ st pending Hloop Hfail) as (pr0 & Hin & H0).
      exists pr0. split; [right; exact Hin | exact H0].
Qed.

Lemma InitPendingShape_loop_peeks_ok (inputs : list (string * Input)) :
  forall acc : PendingBatchShapes,
    (forall pr, pr ∈ inputs -> enforce !! Name pr.2 = Some true ->
                IsOk (OnPeek runner_id pr.2 payload).1 = true) ->
    (InitPendingShape_loop OnPeek runner_id payload enforce inputs acc).1
    = Status_Success.
Proof.
  induction inputs as [|pr rest IH]; intros acc Hall; [reflexivity|].
  simpl. destruct (enforce !! Name pr.2) as [is_shape|] eqn:Henf.
  - assert (Hpk : IsOk (if is_shape then OnPeek runner_id pr.2 payload
                        else (Status_Success, [])).1 = true).
    { destruct is_shape; [|reflexivity]. apply Hall; [left | exact Henf]. }
    rewrite Hpk. apply IH. intros pr0 Hin. apply Hall. right. exact Hin.
  - apply IH. intros pr0 Hin. apply Hall. right. exact Hin.
Qed.

Lemma InitPendingShape_loop_peek_fails (inputs : list (string * Input)) :
  forall acc : PendingBatchShapes,
    (exists pr, pr ∈ inputs /\ enforce !! Name pr.2 = Some true /\
                IsOk (OnPeek runner_id pr.2 payload).1 = false) ->
    IsOk (InitPendingShape_loop OnPeek runner_id payload enforce inputs acc).1
    = false.
Proof.
  induction inputs as [|pr rest IH]; intros acc (pr0 & Hin & Henf0 & Hfail).
  - inversion Hin.
  - simpl. apply elem_of_cons in Hin as [->|Hin].
    + rewrite Henf0, Hfail. exact Hfail.
    + destruct (enforce !! Name pr.2) as [is_shape|];
        [|apply IH; eauto].
      destruct (IsOk (if is_shape then OnPeek runner_id pr.2 payload
                      else (Status_Success, [])).1) eqn:Hpk;
        [apply IH; eauto | exact Hpk].
Qed.

(** X5. When [InitPendingShape] succeeds, the pending shapes hold an entry
    for the name of every input that is enforced, and every entry is the
    declared shape of an input of that name, with the peeked contents when
    it is enforced as a shape tensor and no contents otherwise. Inputs that
    are not enforced leave no entry. *)
Theorem InitPendingShape_success (st : Status) (pending : PendingBatchShapes) :
  InitPendingShape OnPeek runner_id payload enforce = (st, pending) ->
  IsOk st = true ->
  (forall pr, pr ∈ Inputs (Request payload) ->
              is_Some (enforce !! Name pr.2) ->
              is_Some (pending !! Name pr.2)) /\
  (forall name v,
     pending !! name = Some v ->
     is_Some (enforce !! name) /\
     exists pr, pr ∈ Inputs (Request payload) /\ Name pr.2 = name /\
                recorded_for OnPeek runner_id payload enforce pr.2 v).
Proof.
  unfold InitPendingShape. intros Hinit Hok.
  destruct (InitPendingShape_loop_ok _ _ _ _ Hinit Hok) as (_ & Hnew & Hall).
  split; [exact Hall|].
  intros name v Hv. destruct (Hnew name v Hv) as [Hempty|Hin].
  - rewrite lookup_empty in Hempty. discriminate.
  - destruct Hin as (pr & Hin & Hn & Hr). split; [|eauto].
    rewrite <- Hn. destruct Hr as [_ [[-> _]|[-> _]]]; eauto.
Qed.

(** X6. [InitPendingShape] fails exactly when the peek fails on an input
    that is enforced as a shape tensor, and the status it returns is the
    status of such a peek. Without such a failure it returns success. *)
Theorem InitPendingShape_failure :
  let st := (InitPendingShape OnPeek runner_id payload enforce).1 in
  (IsOk st = false ->
   exists pr, pr ∈ Inputs (Request payload) /\
              enforce !! Name pr.2 = Some true /\
              (OnPeek runner_id pr.2 payload).1 = st) /\
  ((exists pr, pr ∈ Inputs (Request payload) /\
               enforce !! Name pr.2 = Some true /\
               IsOk (OnPeek runner_id pr.2 payload).1 = false) ->
   IsOk st = false) /\
  ((forall pr, pr ∈ Inputs (Request payload) ->
               enforce !! Name pr.2 = Some true ->
               IsOk (OnPeek runner_id pr.2 payload).1 = true) ->
   st = Status_Success).
Proof.
  intros st. subst st. unfold InitPendingShape. split; [|split].
  - intros Hfail.
    destruct (InitPendingShape_loop OnPeek runner_id payload enforce
                (Inputs (Request payload)) ∅) as [st pending] eqn:Hloop.
    exact (InitPendingShape_loop_failed _ _ _ _ Hloop Hfail).
  - apply InitPendingShape_loop_peek_fails.
  - apply InitPendingShape_loop_peeks_ok.
Qed.

(** X7. Shape round trip. When [InitPendingShape] succeeds on a payload
    whose inputs have distinct names, [CompareWithPendingShape] accepts
    against the shapes it recorded every payload that has the same inputs
    and peeks alike, the payload itself among them. *)
Theorem Init_then_Compare (st : Status) (pending : PendingBatchShapes)
    (candidate : Payload) :
  InitPendingShape OnPeek runner_id payload enforce = (st, pending) ->
  IsOk st = true ->
  NoDup ((fun pr : string * Input => Name pr.2) <$> Inputs (Request payload)) ->
  Inputs (Request candidate) = Inputs (Request payload) ->
  (forall pr, pr ∈ Inputs (Request payload) ->
              OnPeek runner_id pr.2 candidate = OnPeek runner_id pr.2 payload) ->
  CompareWithPendingShape OnPeek runner_id candidate pending = true.
Proof.
  unfold InitPendingShape. intros Hinit Hok Hnodup Hsame Hpeek.
  destruct (InitPendingShape_loop_ok _ _ _ _ Hinit Hok) as (_ & Hnew & _).
  unfold CompareWithPendingShape. rewrite Hsame.
  apply CompareWithPendingShape_loop_true. apply Forall_forall.
  intros pr Hin itr Hfind.
  destruct (Hnew _ _ Hfind) as [Hempty|(pr0 & Hin0 & Hname & Hshape & Hrec)].
  { rewrite lookup_empty in Hempty. discriminate. }
  assert (Heq : pr0.2 = pr.2).
  { apply list_elem_of_lookup in Hin as [i Hi].
    apply list_elem_of_lookup in Hin0 as [j Hj].
    assert (i = j).
    { eapply NoDup_lookup; [exact Hnodup | |];
        rewrite list_lookup_fmap; [rewrite Hi | rewrite Hj]; simpl;
        [reflexivity | congruence]. }
    subst j. congruence. }
  rewrite Heq in *. split; [exact Hshape|].
  intros Hne. rewrite (Hpeek pr Hin).
  destruct Hrec as [[_ Hnil]|(_ & Hpk & Hcontents)]; [contradiction|].
  split; assumption.
Qed.

End InitPendingShapeProperties.

Lemma InitPendingShape_example :
  InitPendingShape working_peek 0 example_candidate {["X" := true]}
  = (Status_Success, {["X" := ([1; 4], [2; 3])]}).
Proof. vm_compute. reflexivity. Defined.

Lemma InitPendingShape_success_witness :
  is_Some (({["X" := ([1; 4], [2; 3])]} : PendingBatchShapes) !! "X") /\
  (forall name v,
     ({["X" := ([1; 4], [2; 3])]} : PendingBatchShapes) !! name = Some v ->
     is_Some (({["X" := true]} : gmap string bool) !! name)).
Proof.
  destruct (InitPendingShape_success working_peek 0 example_candidate
              {["X" := true]} Status_Success {["X" := ([1; 4], [2; 3])]}
              InitPendingShape_example eq_refl)
    as [Hall Hnew].
  split.
  - apply (Hall ("X", example_input)); [left|].
    exists true. apply lookup_singleton_eq.
  - intros name v Hv. exact (proj1 (Hnew name v Hv)).
Defined.

Lemma Init_then_Compare_witness :
  CompareWithPendingShape working_peek 0 example_candidate
    {["X" := ([1; 4], [2; 3])]} = true.
Proof.
  apply (Init_then_Compare working_peek 0 example_candidate {["X" := true]}
           Status_Success _ example_candidate InitPendingShape_example
           eq_refl).
  - repeat constructor. intros Hin. inversion Hin.
  - reflexivity.
  - reflexivity.
Defined.

(** A shape tensor is recorded with its contents, a plain tensor without;
    a failing peek fails the initialisation with the status of the peek. *)
Example InitPendingShape_examples :
  InitPendingShape working_peek 0 example_candidate {["X" := true]}
  = (Status_Success, {["X" := ([1; 4], [2; 3])]}) /\
  InitPendingShape working_peek 0 example_candidate {["X" := false]}
  = (Status_Success, {["X" := ([1; 4], [])]}) /\
  InitPendingShape failing_peek 0 example_candidate {["X" := false]}
  = (Status_Success, {["X" := ([1; 4], [])]}) /\
  InitPendingShape failing_peek 0 example_candidate {["X" := true]}
  = (mkStatus INTERNAL "peek failed", ∅) /\
  InitPendingShape failing_peek 0 example_candidate {["Y" := true]}
  = (Status_Success, ∅).
Proof. vm_compute. repeat split. Qed.

(** X8. [CompareWithPendingShape] calls the peek only for a pending entry
    with shape-tensor contents: when no pending entry has contents the
    answer does not depend on the peek, and against no pending shapes at
    all every payload is accepted. *)
Theorem CompareWithPendingShape_no_peek :
  (forall (peek1 peek2 : Z -> Input -> Payload -> Status * list Z)
          (runner_id : Z) (payload : Payload) (pending : PendingBatchShapes),
     (forall name v, pending !! name = Some v -> v.2 = []) ->
     CompareWithPendingShape peek1 runner_id payload pending
     = CompareWithPendingShape peek2 runner_id payload pending) /\
  (forall (peek : Z -> Input -> Payload -> Status * list Z)
          (runner_id : Z) (payload : Payload),
     CompareWithPendingShape peek runner_id payload ∅ = true).
Proof.
  split.
  - intros peek1 peek2 runner_id payload pending Hnil.
    unfold CompareWithPendingShape.
    induction (Inputs (Request payload)) as [|pr rest IH]; [reflexivity|].
    simpl. destruct (pending !! Name pr.2) as [[declared contents]|] eqn:Hf;
      [|exact IH].
    pose proof (Hnil _ _ Hf) as Hc. simpl in Hc. subst contents. simpl.
    destruct (CompareDims declared (Shape pr.2)); simpl;
      [exact IH | reflexivity].
  - intros peek runner_id payload. unfold CompareWithPendingShape.
    induction (Inputs (Request payload)) as [|pr rest IH]; [reflexivity|].
    simpl. rewrite lookup_empty. exact IH.
Qed.

(** ** PolicyQueue: indexing, policy application and order *)

(** X9. [At] indexes the main queue followed by the delayed queue: it finds
    a payload exactly for the indices below [Size()]. [TimeoutAt] is the
    deadline kept beside the payload in the main queue, and 0 for every
    index in the delayed queue or beyond. *)
Theorem At_concatenation (q : PolicyQueue.t) (idx : Z) :
  is_u64 idx ->
  PolicyQueue.At q idx
  = (PolicyQueue.queue_ q ++ PolicyQueue.delayed_queue_ q) !! Z.to_nat idx /\
  (is_Some (PolicyQueue.At q idx) <-> idx < PolicyQueue.Size q) /\
  (Z.of_nat (length (PolicyQueue.queue_ q)) <= idx ->
   PolicyQueue.TimeoutAt q idx = 0) /\
  (PolicyQueue.wf q -> idx < Z.of_nat (length (PolicyQueue.queue_ q)) ->
   PolicyQueue.timeout_timestamp_ns_ q !! Z.to_nat idx
   = Some (PolicyQueue.TimeoutAt q idx)).
Proof.
  intros Hidx. unfold is_u64 in Hidx.
  assert (Hat : PolicyQueue.At q idx
                = (PolicyQueue.queue_ q ++ PolicyQueue.delayed_queue_ q)
                    !! Z.to_nat idx).
  { unfold PolicyQueue.At.
    destruct (Z.ltb_spec idx (Z.of_nat (length (PolicyQueue.queue_ q)))).
    - rewrite lookup_app_l by lia. reflexivity.
    - rewrite lookup_app_r by lia.
      rewrite u64_small by (unfold is_u64; lia). f_equal. lia. }
  split; [exact Hat|]. split; [|split].
  - rewrite Hat, lookup_lt_is_Some, length_app. unfold PolicyQueue.Size. lia.
  - intros Hge. unfold PolicyQueue.TimeoutAt.
    destruct (Z.ltb_spec idx (Z.of_nat (length (PolicyQueue.queue_ q))));
      [lia | reflexivity].
  - intros Hwf Hlt. unfold PolicyQueue.TimeoutAt, PolicyQueue.wf in *.
    destruct (Z.ltb_spec idx (Z.of_nat (length (PolicyQueue.queue_ q))));
      [|lia].
    destruct (lookup_lt_is_Some_2 (PolicyQueue.timeout_timestamp_ns_ q)
                (Z.to_nat idx)) as [d Hd]; [lia|].
    rewrite Hd. f_equal. symmetry. apply nth_lookup_Some with (d := 0).
    exact Hd.
Qed.

Lemma At_concatenation_witness :
  PolicyQueue.At example_timed_queue 3
  = (PolicyQueue.queue_ example_timed_queue
     ++ PolicyQueue.delayed_queue_ example_timed_queue) !! Z.to_nat 3.
Proof.
  apply (proj1 (At_concatenation example_timed_queue 3
                  ltac:(unfold is_u64, U64_MODULUS; lia))).
Defined.

Lemma timed_out_prefix_drop (now : Z) (deadlines : list Z) :
  timed_out_prefix now (drop (timed_out_prefix now deadlines) deadlines)
  = 0%nat.
Proof.
  induction deadlines as [|d tl IH]; simpl; [reflexivity|].
  destruct (PolicyQueue.timed_out now d) eqn:Hto; simpl; [exact IH|].
  rewrite Hto. reflexivity.
Qed.

(** The queue [ApplyPolicy] leaves, its answer and what stands at [idx]
    afterwards, in terms of the number [n] of entries that left. *)
Lemma ApplyPolicy_result (q : PolicyQueue.t) (idx rc rbs now : Z) :
  PolicyQueue.wf q -> is_u64 idx -> is_u64 rc -> is_u64 rbs ->
  exists (n : nat) (found : bool) (q' : PolicyQueue.t) (rc' rbs' : Z),
    PolicyQueue.ApplyPolicy q idx rc rbs now = (found, q', rc', rbs') /\
    PolicyQueue.wf q' /\ is_u64 rc' /\ is_u64 rbs' /\
    let i := Z.to_nat idx in
    let moved := take n (drop i (PolicyQueue.queue_ q)) in
    PolicyQueue.queue_ q ++ PolicyQueue.delayed_queue_ q
      ++ PolicyQueue.rejected_queue_ q
    ≡ₚ PolicyQueue.queue_ q' ++ PolicyQueue.delayed_queue_ q'
         ++ PolicyQueue.rejected_queue_ q' /\
    timed_out_prefix now (drop i (PolicyQueue.timeout_timestamp_ns_ q')) = 0%nat /\
    found = (if (i <? length (PolicyQueue.queue_ q'))%nat then true
             else u64 (idx - Z.of_nat (length (PolicyQueue.queue_ q')))
                  <? Z.of_nat (length (PolicyQueue.delayed_queue_ q'))).
Proof.
  intros Hwf Hidx Hrc Hrbs.
  pose proof (ApplyPolicy_loop_run now idx _ q rc rbs Hwf Hrc Hrbs eq_refl)
    as Hrun.
  cbn zeta in Hrun.
  set (i := Z.to_nat idx) in *.
  set (ts := PolicyQueue.timeout_timestamp_ns_ q) in *.
  set (main := PolicyQueue.queue_ q) in *.
  set (n := timed_out_prefix now (drop i ts)) in *.
  assert (Hlen : length ts = length main) by exact Hwf.
  assert (Hn : (n <= length main - i)%nat).
  { subst n. etransitivity; [apply timed_out_prefix_length|].
    rewrite length_drop, Hlen. lia. }
  set (moved := take n (drop i main)) in *.
  set (main' := take i main ++ drop (i + n) main) in *.
  set (ts' := take i ts ++ drop (i + n) ts) in *.
  assert (Hmain' : (length main' = length main - n)%nat).
  { subst main'. rewrite length_app, length_take, length_drop. lia. }
  assert (Hts' : length ts' = length main').
  { subst ts' main'.
    rewrite !length_app, !length_take, !length_drop, Hlen. reflexivity. }
  assert (Hsplit : main ≡ₚ main' ++ moved).
  { subst main' moved.
    rewrite <- (take_drop i main) at 1.
    rewrite <- (take_drop n (drop i main)) at 1.
    rewrite drop_drop. rewrite <- app_assoc.
    apply Permutation_app_head. apply Permutation_app_comm. }
  assert (Hprefix : timed_out_prefix now (drop i ts') = 0%nat).
  { subst ts'. destruct (Nat.le_gt_cases i (length ts)) as [Hle|Hgt].
    - rewrite drop_app_length' by (rewrite length_take; lia).
      rewrite <- drop_drop. subst n. apply timed_out_prefix_drop.
    - rewrite drop_ge; [reflexivity|].
      rewrite length_app, length_take, length_drop. lia. }
  assert (Hcond : (i + n <? length main)%nat = (i <? length main')%nat).
  { rewrite Hmain'.
    destruct (Nat.ltb_spec (i + n) (length main));
      destruct (Nat.ltb_spec i (length main - n)); lia || reflexivity. }
  unfold PolicyQueue.ApplyPolicy. rewrite Hrun. clear Hrun.
  exists n. eexists _, _, _, _. split; [reflexivity|].
  split; [exact Hts'|].
  split; [destruct (PolicyQueue.timeout_action_ q);
          [apply u64_range | assumption]|].
  split; [destruct (PolicyQueue.timeout_action_ q);
          [apply u64_range | assumption]|].
  cbn zeta. simpl. split; [|split; [exact Hprefix|]].
  - rewrite Hsplit.
    destruct (PolicyQueue.timeout_action_ q).
    + rewrite <- !app_assoc. apply Permutation_app_head.
      rewrite (app_assoc (PolicyQueue.delayed_queue_ q)).
      apply Permutation_app_comm.
    + rewrite <- !app_assoc. apply Permutation_app_head.
      rewrite !app_assoc. apply Permutation_app_tail.
      apply Permutation_app_comm.
  - rewrite Hcond. reflexivity.
Qed.

Lemma ApplyPolicy_nothing_timed_out (q : PolicyQueue.t) (idx rc rbs now : Z) :
  PolicyQueue.wf q -> is_u64 rc -> is_u64 rbs ->
  timed_out_prefix now
    (drop (Z.to_nat idx) (PolicyQueue.timeout_timestamp_ns_ q)) = 0%nat ->
  PolicyQueue.ApplyPolicy q idx rc rbs now
  = (if (Z.to_nat idx <? length (PolicyQueue.queue_ q))%nat then true
     else u64 (idx - Z.of_nat (length (PolicyQueue.queue_ q)))
          <? Z.of_nat (length (PolicyQueue.delayed_queue_ q)),
     q, rc, rbs).
Proof.
  intros Hwf Hrc Hrbs Hzero.
  pose proof (ApplyPolicy_loop_run now idx _ q rc rbs Hwf Hrc Hrbs eq_refl)
    as Hrun.
  cbn zeta in Hrun. rewrite Hzero in Hrun.
  rewrite Nat.add_0_r, !take_drop, take_0, !app_nil_r, Z.add_0_r in Hrun.
  unfold batch_total in Hrun. simpl in Hrun. rewrite Z.add_0_r in Hrun.
  rewrite !(u64_small _ Hrc), !(u64_small _ Hrbs) in Hrun.
  unfold PolicyQueue.ApplyPolicy. rewrite Hrun.
  destruct (PolicyQueue.timeout_action_ q); rewrite with_queues_id;
    reflexivity.
Qed.

(** X10. What the answer of [ApplyPolicy] means: it is [true] exactly when,
    in the queue it leaves, [At(idx)] is a payload; and the deadline at
    [idx] in that queue has then not passed (or there is none). *)
Theorem ApplyPolicy_candidate (q : PolicyQueue.t) (idx rc rbs now : Z) :
  PolicyQueue.wf q -> is_u64 idx -> is_u64 rc -> is_u64 rbs ->
  let found := (PolicyQueue.ApplyPolicy q idx rc rbs now).1.1.1 in
  let q' := (PolicyQueue.ApplyPolicy q idx rc rbs now).1.1.2 in
  (found = true <-> is_Some (PolicyQueue.At q' idx)) /\
  PolicyQueue.timed_out now (PolicyQueue.TimeoutAt q' idx) = false.
Proof.
  intros Hwf Hidx Hrc Hrbs.
  destruct (ApplyPolicy_result q idx rc rbs now Hwf Hidx Hrc Hrbs)
    as (n & found & q' & rc' & rbs' & -> & Hwf' & _ & _ & _ & Hprefix
        & Hfound).
  cbn zeta in *. simpl. unfold is_u64 in Hidx.
  unfold PolicyQueue.At, PolicyQueue.TimeoutAt.
  destruct (Nat.ltb_spec (Z.to_nat idx) (length (PolicyQueue.queue_ q')))
    as [Hlt|Hge].
  - destruct (Z.ltb_spec idx (Z.of_nat (length (PolicyQueue.queue_ q'))));
      [|lia].
    split.
    + rewrite Hfound. split; [intros _ | reflexivity].
      apply lookup_lt_is_Some. exact Hlt.
    + destruct (lookup_lt_is_Some_2 (PolicyQueue.timeout_timestamp_ns_ q')
                  (Z.to_nat idx)) as [d Hd]; [rewrite Hwf'; exact Hlt|].
      rewrite (nth_lookup_Some _ _ _ _ Hd).
      rewrite (drop_S _ _ _ Hd) in Hprefix. simpl in Hprefix.
      destruct (PolicyQueue.timed_out now d); [discriminate | reflexivity].
  - destruct (Z.ltb_spec idx (Z.of_nat (length (PolicyQueue.queue_ q'))));
      [lia|].
    split; [|reflexivity]. rewrite Hfound, Z.ltb_lt, lookup_lt_is_Some.
    pose proof (u64_range (idx - Z.of_nat (length (PolicyQueue.queue_ q')))).
    unfold is_u64 in *. lia.
Qed.

Lemma ApplyPolicy_candidate_witness :
  (PolicyQueue.ApplyPolicy example_timed_queue 0 0 0 25).1.1.1 = true <->
  is_Some
    (PolicyQueue.At (PolicyQueue.ApplyPolicy example_timed_queue 0 0 0 25).1.1.2
       0).
Proof.
  exact (proj1 (ApplyPolicy_candidate example_timed_queue 0 0 0 25
                  example_timed_queue_wf is_u64_0 is_u64_0 is_u64_0)).
Defined.

(** X11. [ApplyPolicy] is idempotent: applied again at the same index and
    clock reading to the queue and counters it returned, it gives the same
    answer and changes nothing. *)
Theorem ApplyPolicy_idempotent (q : PolicyQueue.t) (idx rc rbs now : Z) :
  PolicyQueue.wf q -> is_u64 idx -> is_u64 rc -> is_u64 rbs ->
  forall (found : bool) (q' : PolicyQueue.t) (rc' rbs' : Z),
    PolicyQueue.ApplyPolicy q idx rc rbs now = (found, q', rc', rbs') ->
    PolicyQueue.ApplyPolicy q' idx rc' rbs' now = (found, q', rc', rbs').
Proof.
  intros Hwf Hidx Hrc Hrbs found q' rc' rbs' Heq.
  destruct (ApplyPolicy_result q idx rc rbs now Hwf Hidx Hrc Hrbs)
    as (n & found0 & q0 & rc0 & rbs0 & Heq0 & Hwf' & Hrc' & Hrbs' & _
        & Hprefix & Hfound).
  rewrite Heq in Heq0. injection Heq0 as <- <- <- <-.
  cbn zeta in *.
  rewrite (ApplyPolicy_nothing_timed_out q' idx rc' rbs' now Hwf' Hrc' Hrbs'
             Hprefix).
  rewrite <- Hfound. reflexivity.
Qed.

Lemma ApplyPolicy_idempotent_witness :
  PolicyQueue.ApplyPolicy
    (PolicyQueue.ApplyPolicy example_rejecting_queue 0 0 0 25).1.1.2 0
    (PolicyQueue.ApplyPolicy example_rejecting_queue 0 0 0 25).1.2
    (PolicyQueue.ApplyPolicy example_rejecting_queue 0 0 0 25).2 25
  = PolicyQueue.ApplyPolicy example_rejecting_queue 0 0 0 25.
Proof.
  rewrite (ApplyPolicy_idempotent example_rejecting_queue 0 0 0 25
             eq_refl is_u64_0 is_u64_0 is_u64_0
             (PolicyQueue.ApplyPolicy example_rejecting_queue 0 0 0 25).1.1.1
             (PolicyQueue.ApplyPolicy example_rejecting_queue 0 0 0 25).1.1.2
             (PolicyQueue.ApplyPolicy example_rejecting_queue 0 0 0 25).1.2
             (PolicyQueue.ApplyPolicy example_rejecting_queue 0 0 0 25).2).
  - destruct (PolicyQueue.ApplyPolicy example_rejecting_queue 0 0 0 25)
      as [[[? ?] ?] ?]. reflexivity.
  - destruct (PolicyQueue.ApplyPolicy example_rejecting_queue 0 0 0 25)
      as [[[? ?] ?] ?]. reflexivity.
Defined.

(** X12. [ApplyPolicy] neither loses nor duplicates a payload: the payloads
    of the main, delayed and rejected queues together are the same before
    and after. *)
Theorem ApplyPolicy_keeps_payloads (q : PolicyQueue.t) (idx rc rbs now : Z) :
  PolicyQueue.wf q -> is_u64 idx -> is_u64 rc -> is_u64 rbs ->
  let q' := (PolicyQueue.ApplyPolicy q idx rc rbs now).1.1.2 in
  PolicyQueue.queue_ q ++ PolicyQueue.delayed_queue_ q
    ++ PolicyQueue.rejected_queue_ q
  ≡ₚ PolicyQueue.queue_ q' ++ PolicyQueue.delayed_queue_ q'
       ++ PolicyQueue.rejected_queue_ q'.
Proof.
  intros Hwf Hidx Hrc Hrbs.
  destruct (ApplyPolicy_result q idx rc rbs now Hwf Hidx Hrc Hrbs)
    as (n & found & q' & rc' & rbs' & -> & _ & _ & _ & Hperm & _).
  exact Hperm.
Qed.

Lemma ApplyPolicy_keeps_payloads_witness :
  PolicyQueue.queue_ example_timed_queue
    ++ PolicyQueue.delayed_queue_ example_timed_queue
    ++ PolicyQueue.rejected_queue_ example_timed_queue
  ≡ₚ PolicyQueue.queue_
       (PolicyQueue.ApplyPolicy example_timed_queue 3 0 0 25).1.1.2
     ++ PolicyQueue.delayed_queue_
          (PolicyQueue.ApplyPolicy example_timed_queue 3 0 0 25).1.1.2
     ++ PolicyQueue.rejected_queue_
          (PolicyQueue.ApplyPolicy example_timed_queue 3 0 0 25).1.1.2.
Proof.
  exact (ApplyPolicy_keeps_payloads example_timed_queue 3 0 0 25
           example_timed_queue_wf ltac:(unfold is_u64, U64_MODULUS; lia)
           is_u64_0 is_u64_0).
Defined.

Lemma PolicyQueue_Enqueue_wf (q : PolicyQueue.t) (p : Payload) (now : Z) :
  PolicyQueue.wf q -> PolicyQueue.wf (PolicyQueue.Enqueue q p now).2.
Proof.
  intros Hwf.
  destruct (PolicyQueue_Enqueue_cases q p now)
    as [(_ & _ & ->) | (_ & d & ->)]; simpl; [exact Hwf|].
  unfold PolicyQueue.wf in *. simpl. rewrite !length_app, Hwf. reflexivity.
Qed.

(** X13. The deadlines stay in step with the main queue: a policy queue as
    constructed has as many deadlines as payloads in its main queue, and
    [Enqueue], [Dequeue], [ApplyPolicy] and [ReleaseRejectedQueue] all keep
    it so. *)
Theorem PolicyQueue_wf_invariant :
  (forall policy : ModelQueuePolicy.t, PolicyQueue.wf (PolicyQueue.ctor policy)) /\
  (forall (q : PolicyQueue.t) (p : Payload) (now : Z),
     PolicyQueue.wf q -> PolicyQueue.wf (PolicyQueue.Enqueue q p now).2) /\
  (forall (q : PolicyQueue.t) (res : Payload) (q' : PolicyQueue.t),
     PolicyQueue.wf q -> PolicyQueue.Dequeue q = Some (res, q') ->
     PolicyQueue.wf q') /\
  (forall (q : PolicyQueue.t) (idx rc rbs now : Z),
     PolicyQueue.wf q -> is_u64 idx -> is_u64 rc -> is_u64 rbs ->
     PolicyQueue.wf (PolicyQueue.ApplyPolicy q idx rc rbs now).1.1.2) /\
  (forall q : PolicyQueue.t,
     PolicyQueue.wf q -> PolicyQueue.wf (PolicyQueue.ReleaseRejectedQueue q).2).
Proof.
  split; [reflexivity|].
  split; [exact PolicyQueue_Enqueue_wf|].
  split; [exact PolicyQueue_Dequeue_wf|].
  split; [|intros q Hwf; exact Hwf].
  intros q idx rc rbs now Hwf Hidx Hrc Hrbs.
  destruct (ApplyPolicy_result q idx rc rbs now Hwf Hidx Hrc Hrbs)
    as (n & found & q' & rc' & rbs' & -> & Hwf' & _).
  exact Hwf'.
Qed.

(** X14. Order of service in one policy queue. While the main queue is not
    empty a new payload waits behind it: dequeuing after the enqueue gives
    the same payload as dequeuing before it, and the same queue either way.
    When the main queue is empty the new payload is served at once, ahead of
    every delayed payload, and the queue is then as it was before the
    enqueue. *)
Theorem Enqueue_Dequeue_order (q : PolicyQueue.t) (p : Payload) (now : Z) :
  PolicyQueue.wf q ->
  IsOk (PolicyQueue.Enqueue q p now).1 = true ->
  (forall (r : Payload) (rest : list Payload),
     PolicyQueue.queue_ q = r :: rest ->
     exists q' : PolicyQueue.t,
       PolicyQueue.Dequeue q = Some (r, q') /\
       IsOk (PolicyQueue.Enqueue q' p now).1 = true /\
       PolicyQueue.Dequeue (PolicyQueue.Enqueue q p now).2
       = Some (r, (PolicyQueue.Enqueue q' p now).2)) /\
  (PolicyQueue.queue_ q = [] ->
   PolicyQueue.Dequeue (PolicyQueue.Enqueue q p now).2 = Some (p, q)).
Proof.
  intros Hwf Hok. unfold PolicyQueue.wf in Hwf.
  destruct (PolicyQueue_Enqueue_cases q p now)
    as [(_ & _ & Heq) | (Hroom & d & Heq)];
    [rewrite Heq in Hok; discriminate Hok|].
  split.
  - intros r rest Hmain.
    destruct (PolicyQueue.timeout_timestamp_ns_ q) as [|d0 ts] eqn:Hts;
      [rewrite Hmain in Hwf; discriminate Hwf|].
    set (q' := PolicyQueue.with_queues q ts rest (PolicyQueue.delayed_queue_ q)
                 (PolicyQueue.rejected_queue_ q)).
    assert (Hdq : PolicyQueue.Dequeue q = Some (r, q')).
    { unfold PolicyQueue.Dequeue. rewrite Hmain, Hts. reflexivity. }
    exists q'. split; [exact Hdq|].
    unfold PolicyQueue.Enqueue in *. simpl PolicyQueue.max_queue_size_.
    assert (Hsz : PolicyQueue.Size q' = PolicyQueue.Size q - 1).
    { unfold PolicyQueue.Size. simpl. rewrite Hmain. simpl length. lia. }
    destruct (negb (PolicyQueue.max_queue_size_ q =? 0)
              && (PolicyQueue.Size q >=? PolicyQueue.max_queue_size_ q))
      eqn:Hfull; [discriminate Hok|].
    assert (Hfull' : negb (PolicyQueue.max_queue_size_ q =? 0)
                     && (PolicyQueue.Size q' >=? PolicyQueue.max_queue_size_ q)
                     = false).
    { apply andb_false_iff in Hfull as [Hz|Hlt]; apply andb_false_iff;
        [left; exact Hz | right].
      rewrite Z.geb_leb in *. apply Z.leb_gt in Hlt. apply Z.leb_gt. lia. }
    rewrite Hfull'. split; [reflexivity|].
    simpl. unfold PolicyQueue.Dequeue. simpl. rewrite Hmain, Hts. simpl.
    reflexivity.
  - intros Hmain.
    assert (Hts : PolicyQueue.timeout_timestamp_ns_ q = []).
    { rewrite Hmain in Hwf. apply nil_length_inv. exact Hwf. }
    rewrite Heq. unfold PolicyQueue.Dequeue. simpl.
    rewrite Hmain, Hts. simpl. f_equal. f_equal.
    symmetry. etransitivity; [symmetry; apply with_queues_id|].
    rewrite Hts, Hmain. reflexivity.
Qed.

Lemma Enqueue_Dequeue_order_witness :
  PolicyQueue.Dequeue
    (PolicyQueue.Enqueue (example_queue ModelQueuePolicy.DELAY 5000 false 0)
       (example_payload 0 1) 7).2
  = Some (example_payload 0 1,
          example_queue ModelQueuePolicy.DELAY 5000 false 0).
Proof.
  exact (proj2 (Enqueue_Dequeue_order
                  (example_queue ModelQueuePolicy.DELAY 5000 false 0)
                  (example_payload 0 1) 7 eq_refl eq_refl) eq_refl).
Defined.

(** ** PriorityQueue: construction *)









(** Three levels, the second with a policy of its own. *)
Example ctor_example :
  let own := {| ModelQueuePolicy.timeout_action := ModelQueuePolicy.DELAY;
                ModelQueuePolicy.default_timeout_us := 7;
                ModelQueuePolicy.allow_timeout_override := true;
                ModelQueuePolicy.max_queue_size := 4 |} in
  keys (PriorityQueue.queues_
          (PriorityQueue.ctor example_default_policy 3 {[2 := own]}))
  = [1; 2; 3] /\
  map_find 2
    (PriorityQueue.queues_
       (PriorityQueue.ctor example_default_policy 3 {[2 := own]}))
  = Some (PolicyQueue.ctor own) /\
  map_find 3
    (PriorityQueue.queues_
       (PriorityQueue.ctor example_default_policy 3 {[2 := own]}))
  = Some (PolicyQueue.ctor example_default_policy).
Proof. vm_compute. repeat split. Qed.

(** ** PriorityQueue: enqueue, dequeue and release *)

(** X16. A successful [PriorityQueue::Enqueue] at level [L] puts the payload
    at the back of the main queue of level [L], leaves the delayed and
    rejected queues of that level and every other level as they were, and
    adds one to [size_]. *)
Theorem PriorityQueue_Enqueue_stores (dp : ModelQueuePolicy.t)
    (pq : PriorityQueue.t) (L : Z) (p : Payload) (now : Z) (st : Status)
    (pq' : PriorityQueue.t) :
  PriorityQueue.Enqueue dp pq L p now = Some (st, pq') ->
  IsOk st = true ->
  let q := PriorityQueue.map_at dp L (PriorityQueue.queues_ pq) in
  (exists q' : PolicyQueue.t,
     map_find L (PriorityQueue.queues_ pq') = Some q' /\
     PolicyQueue.queue_ q' = PolicyQueue.queue_ q ++ [p] /\
     PolicyQueue.delayed_queue_ q' = PolicyQueue.delayed_queue_ q /\
     PolicyQueue.rejected_queue_ q' = PolicyQueue.rejected_queue_ q) /\
  (forall L' : Z,
     L' <> L ->
     map_find L' (PriorityQueue.queues_ pq')
     = map_find L' (PriorityQueue.queues_ pq)) /\
  PriorityQueue.size_ pq' = u64 (PriorityQueue.size_ pq + 1).
Proof.
  intros Henq Hok q. unfold PriorityQueue.Enqueue in Henq. fold q in Henq.
  destruct (PolicyQueue_Enqueue_cases q p now)
    as [(_ & _ & Heq) | (_ & d & Heq)]; rewrite Heq in Henq.
  - simpl in Henq. injection Henq as <- <-. discriminate Hok.
  - change (IsOk Status_Success) with true in Henq. cbv iota in Henq.
    assert (Hqueues : PriorityQueue.queues_ pq'
                      = map_set L
                          (PolicyQueue.with_queues q
                             (PolicyQueue.timeout_timestamp_ns_ q ++ [d])
                             (PolicyQueue.queue_ q ++ [p])
                             (PolicyQueue.delayed_queue_ q)
                             (PolicyQueue.rejected_queue_ q))
                          (PriorityQueue.queues_ pq) /\
                      PriorityQueue.size_ pq'
                      = u64 (PriorityQueue.size_ pq + 1)).
    { destruct (PriorityQueue.valid_ (PriorityQueue.pending_cursor_ pq)).
      - destruct (PriorityQueue.curr_it_ (PriorityQueue.pending_cursor_ pq));
          [|discriminate Henq].
        injection Henq as _ <-. split; reflexivity.
      - injection Henq as _ <-. split; reflexivity. }
    destruct Hqueues as [-> ->]. split; [|split; [|reflexivity]].
    + eexists. split; [apply map_find_set_eq|]. simpl. auto.
    + intros L' Hne. apply map_find_set_ne. congruence.
Qed.

Lemma PriorityQueue_Enqueue_stores_witness :
  exists q' : PolicyQueue.t,
    map_find 2
      (PriorityQueue.queues_
         {| PriorityQueue.queues_ :=
              map_set 2
                (PolicyQueue.Enqueue
                   (PriorityQueue.map_at example_default_policy 2
                      (PriorityQueue.queues_ example_levels))
                   (example_payload 0 1) 0).2
                (PriorityQueue.queues_ example_levels);
            PriorityQueue.size_ := u64 (0 + 1);
            PriorityQueue.pending_cursor_ :=
              PriorityQueue.with_valid
                (PriorityQueue.pending_cursor_ example_levels) (2 >? 1) |})
    = Some q' /\
    PolicyQueue.queue_ q' = [] ++ [example_payload 0 1].
Proof.
  destruct (PriorityQueue_Enqueue_stores example_default_policy example_levels
              2 (example_payload 0 1) 0 Status_Success _ eq_refl eq_refl)
    as [(q' & Hfind & Hmain & _) _].
  exists q'. split; [exact Hfind | exact Hmain].
Defined.



Lemma total_size_zero_empty (m : PriorityQueues) :
  total_size m = 0 -> Forall (fun e => PolicyQueue.Empty e.2 = true) m.
Proof.
  intros Hz. destruct (Forall_or_Exists_empty m) as [Hall|Hex]; [exact Hall|].
  exfalso. induction Hex as [[l q] m Hq | [l q] m _ IH]; simpl in *.
  - unfold PolicyQueue.Empty in Hq. apply Z.eqb_neq in Hq.
    pose proof (PolicyQueue_Size_nonneg q). pose proof (total_size_nonneg m).
    lia.
  - apply IH. pose proof (PolicyQueue_Size_nonneg q).
    pose proof (total_size_nonneg m). lia.
Qed.

(** X18. [Dequeue] on an empty queue throws, and the only thing it has done
    by then is to clear the valid flag of the cursor: the levels, [size_]
    and the other fields of the cursor are as they were. *)
Theorem Dequeue_empty (pq : PriorityQueue.t) :
  PriorityQueue_wf pq ->
  PriorityQueue.size_ pq = 0 ->
  let pq' := (PriorityQueue.Dequeue pq).2 in
  let c := PriorityQueue.pending_cursor_ pq in
  let c' := PriorityQueue.pending_cursor_ pq' in
  (PriorityQueue.Dequeue pq).1 = inl tt /\
  PriorityQueue.queues_ pq' = PriorityQueue.queues_ pq /\
  PriorityQueue.size_ pq' = PriorityQueue.size_ pq /\
  PriorityQueue.valid_ c' = false /\
  PriorityQueue.curr_it_ c' = PriorityQueue.curr_it_ c /\
  PriorityQueue.queue_idx_ c' = PriorityQueue.queue_idx_ c /\
  PriorityQueue.pending_batch_closest_timeout_ns_ c'
  = PriorityQueue.pending_batch_closest_timeout_ns_ c /\
  PriorityQueue.pending_batch_oldest_enqueue_time_ns_ c'
  = PriorityQueue.pending_batch_oldest_enqueue_time_ns_ c /\
  PriorityQueue.pending_batch_count_ c'
  = PriorityQueue.pending_batch_count_ c.
Proof.
  intros (_ & _ & Hsize & _) Hzero. cbv zeta. unfold PriorityQueue.Dequeue.
  rewrite Dequeue_loop_all_empty;
    [|apply total_size_zero_empty; congruence].
  cbn [fst snd]. repeat split.
Qed.

Lemma example_levels_wf : PriorityQueue_wf example_levels.
Proof.
  split; [repeat constructor|]. split; [repeat constructor|].
  split; [reflexivity|]. unfold is_u64, U64_MODULUS. simpl. lia.
Defined.

Lemma Dequeue_empty_witness :
  (PriorityQueue.Dequeue example_levels).1 = inl tt /\
  PriorityQueue.valid_
    (PriorityQueue.pending_cursor_ (PriorityQueue.Dequeue example_levels).2)
  = false.
Proof.
  destruct (Dequeue_empty example_levels example_levels_wf eq_refl)
    as (Hres & _ & _ & Hvalid & _).
  exact (conj Hres Hvalid).
Defined.

Lemma total_rejected_nonneg (m : PriorityQueues) : 0 <= total_rejected m.
Proof. induction m as [|[l q] m IH]; simpl; lia. Qed.

Lemma total_size_cons (e : Z * PolicyQueue.t) (m : PriorityQueues) :
  total_size (e :: m) = PolicyQueue.Size e.2 + total_size m.
Proof. reflexivity. Qed.

Lemma total_rejected_cons (e : Z * PolicyQueue.t) (m : PriorityQueues) :
  total_rejected (e :: m)
  = Z.of_nat (length (PolicyQueue.rejected_queue_ e.2)) + total_rejected m.
Proof. reflexivity. Qed.

Lemma Release_levels (m : PriorityQueues) :
  let m' := (fun e : Z * PolicyQueue.t =>
               (e.1, (PolicyQueue.ReleaseRejectedQueue e.2).2)) <$> m in
  keys m' = keys m /\ total_size m' = total_size m /\ total_rejected m' = 0 /\
  (Forall (fun e => PolicyQueue.wf e.2) m ->
   Forall (fun e => PolicyQueue.wf e.2) m') /\
  Z.of_nat
    (length (concat ((fun e : Z * PolicyQueue.t =>
                        (PolicyQueue.ReleaseRejectedQueue e.2).1) <$> m)))
  = total_rejected m /\
  Forall (fun e => PolicyQueue.rejected_queue_ e.2 = [] /\
                   exists q, (e.1, q) ∈ m /\
                             PolicyQueue.queue_ e.2 = PolicyQueue.queue_ q /\
                             PolicyQueue.delayed_queue_ e.2
                             = PolicyQueue.delayed_queue_ q /\
                             PolicyQueue.timeout_timestamp_ns_ e.2
                             = PolicyQueue.timeout_timestamp_ns_ q) m'.
Proof.
  induction m as [|[l q] m IH]; cbn zeta.
  - repeat split; constructor.
  - destruct IH as (Hk & Hs & Hr & Hw & Hc & Hall).
    rewrite !fmap_cons.
    split; [unfold keys in *; rewrite !fmap_cons, Hk; reflexivity|].
    split; [rewrite !total_size_cons, Hs; reflexivity|].
    split; [rewrite total_rejected_cons, Hr; reflexivity|].
    split.
    { intros Hwf. apply Forall_cons in Hwf as [Hq Hwf].
      constructor; [exact Hq | auto]. }
    split.
    { change (concat (?x :: ?l)) with (x ++ concat l).
      rewrite length_app, Nat2Z.inj_add, total_rejected_cons.
      cbv zeta in Hc. rewrite Hc. reflexivity. }
    constructor.
    + simpl. split; [reflexivity|]. exists q. split; [left | auto].
    + eapply Forall_impl; [exact Hall|]. simpl.
      intros e (Hrej & q0 & Hin & Hrest). split; [exact Hrej|].
      exists q0. split; [right; exact Hin | exact Hrest].
Qed.

(** X19. [ReleaseRejectedPayloads] hands out the rejected queue of every
    level, one deque per level in level order, and leaves every rejected
    queue empty, so that releasing again gives only empty deques. The
    levels, their main and delayed queues and deadlines, [size_] and the
    cursor are as they were. *)
Theorem ReleaseRejectedPayloads_spec (pq : PriorityQueue.t) :
  let released := (PriorityQueue.ReleaseRejectedPayloads pq).1 in
  let pq' := (PriorityQueue.ReleaseRejectedPayloads pq).2 in
  released = (fun e => PolicyQueue.rejected_queue_ e.2)
               <$> PriorityQueue.queues_ pq /\
  length released = length (PriorityQueue.queues_ pq) /\
  Z.of_nat (length (concat released))
  = total_rejected (PriorityQueue.queues_ pq) /\
  keys (PriorityQueue.queues_ pq') = keys (PriorityQueue.queues_ pq) /\
  total_rejected (PriorityQueue.queues_ pq') = 0 /\
  total_size (PriorityQueue.queues_ pq')
  = total_size (PriorityQueue.queues_ pq) /\
  PriorityQueue.size_ pq' = PriorityQueue.size_ pq /\
  PriorityQueue.pending_cursor_ pq' = PriorityQueue.pending_cursor_ pq /\
  Forall (fun e => PolicyQueue.rejected_queue_ e.2 = [] /\
                   exists q, (e.1, q) ∈ PriorityQueue.queues_ pq /\
                             PolicyQueue.queue_ e.2 = PolicyQueue.queue_ q /\
                             PolicyQueue.delayed_queue_ e.2
                             = PolicyQueue.delayed_queue_ q /\
                             PolicyQueue.timeout_timestamp_ns_ e.2
                             = PolicyQueue.timeout_timestamp_ns_ q)
    (PriorityQueue.queues_ pq') /\
  Forall (fun deque => deque = [])
    (PriorityQueue.ReleaseRejectedPayloads pq').1.
Proof.
  intros released pq'. subst released pq'.
  unfold PriorityQueue.ReleaseRejectedPayloads at 1 2 3 4 5 6 7 8 9.
  cbn [fst snd PriorityQueue.queues_ PriorityQueue.size_
       PriorityQueue.pending_cursor_].
  destruct (Release_levels (PriorityQueue.queues_ pq))
    as (Hk & Hs & Hr & _ & Hc & Hall).
  split; [reflexivity|]. split; [apply length_fmap|].
  split; [exact Hc|]. split; [exact Hk|]. split; [exact Hr|].
  split; [exact Hs|]. split; [reflexivity|]. split; [reflexivity|].
  split; [exact Hall|].
  unfold PriorityQueue.ReleaseRejectedPayloads.
  cbn [fst snd PriorityQueue.queues_]. apply Forall_fmap.
  eapply Forall_impl; [exact Hall|]. simpl. intros e [Hrej _]. exact Hrej.
Qed.

(** After a policy application that rejected the payload with the passed
    deadline, the release hands it out under its level. *)
Example ReleaseRejectedPayloads_example :
  exists pq : PriorityQueue.t,
    run example_default_policy (take 4 example_ops)
      (example_levels, mkCounts 0 0 0) = Some (pq, mkCounts 3 0 1) /\
    (PriorityQueue.ReleaseRejectedPayloads pq).1
    = [[example_payload 1000 2]; []] /\
    PriorityQueue.size_ (PriorityQueue.ReleaseRejectedPayloads pq).2 = 2.
Proof.
  eexists. split; [vm_compute; reflexivity|]. split; reflexivity.
Qed.

(** ** PriorityQueue: policy application at the cursor *)

Lemma ApplyPolicy_batch (q : PolicyQueue.t) (idx rc rbs now : Z) :
  PolicyQueue.wf q -> is_u64 rc -> is_u64 rbs ->
  (PolicyQueue.ApplyPolicy q idx rc rbs now).2
  = u64 (rbs
         + (batch_total
              (PolicyQueue.rejected_queue_
                 (PolicyQueue.ApplyPolicy q idx rc rbs now).1.1.2)
            - batch_total (PolicyQueue.rejected_queue_ q))).
Proof.
  intros Hwf Hrc Hrbs.
  pose proof (ApplyPolicy_loop_run now idx _ q rc rbs Hwf Hrc Hrbs eq_refl)
    as Hrun.
  cbn zeta in Hrun. unfold PolicyQueue.ApplyPolicy. rewrite Hrun. simpl.
  destruct (PolicyQueue.timeout_action_ q).
  - rewrite batch_total_app. f_equal. lia.
  - rewrite Z.sub_diag, Z.add_0_r. symmetry. apply u64_small. exact Hrbs.
Qed.

Lemma total_rejected_batch_cons (e : Z * PolicyQueue.t) (m : PriorityQueues) :
  total_rejected_batch (e :: m)
  = batch_total (PolicyQueue.rejected_queue_ e.2) + total_rejected_batch m.
Proof. reflexivity. Qed.

Lemma total_rejected_batch_app (m1 m2 : PriorityQueues) :
  total_rejected_batch (m1 ++ m2)
  = total_rejected_batch m1 + total_rejected_batch m2.
Proof.
  induction m1 as [|e m1 IH]; [reflexivity|].
  rewrite <- app_comm_cons, !total_rejected_batch_cons, IH. lia.
Qed.

Lemma found_At (q : PolicyQueue.t) (idx : Z) :
  is_u64 idx ->
  (if (Z.to_nat idx <? length (PolicyQueue.queue_ q))%nat then true
   else u64 (idx - Z.of_nat (length (PolicyQueue.queue_ q)))
        <? Z.of_nat (length (PolicyQueue.delayed_queue_ q))) = true ->
  is_Some (PolicyQueue.At q idx).
Proof.
  intros Hidx. unfold is_u64 in Hidx. unfold PolicyQueue.At.
  destruct (Nat.ltb_spec (Z.to_nat idx) (length (PolicyQueue.queue_ q)));
    destruct (Z.ltb_spec idx (Z.of_nat (length (PolicyQueue.queue_ q))));
    try lia.
  - intros _. apply lookup_lt_is_Some. assumption.
  - rewrite Z.ltb_lt, lookup_lt_is_Some.
    pose proof (u64_range (idx - Z.of_nat (length (PolicyQueue.queue_ q)))).
    unfold is_u64 in *. lia.
Qed.

(** The walk of [ApplyPolicyAtCursor] from any index and pending count. *)
Lemma ApplyPolicyAtCursor_loop_general (now : nat -> Z) (size pc : Z)
    (from : PriorityQueues) :
  forall (k : nat) (idx rc rbs : Z),
    Forall (fun e => PolicyQueue.wf e.2) from ->
    is_u64 idx -> is_u64 rc -> is_u64 rbs ->
    rc + total_size from < U64_MODULUS ->
    exists (from' : PriorityQueues) (it : option Z) (idx' rc' rbs' : Z),
      PriorityQueue.ApplyPolicyAtCursor_loop now k from idx size pc rc rbs
      = (from', it, idx', rc', rbs') /\
      keys from' = keys from /\
      Forall (fun e => PolicyQueue.wf e.2) from' /\
      is_u64 idx' /\ is_u64 rc' /\ rc <= rc' /\
      total_size from' = total_size from - (rc' - rc) /\
      total_rejected from' = total_rejected from + (rc' - rc) /\
      rbs' = u64 (rbs + (total_rejected_batch from'
                         - total_rejected_batch from)) /\
      match it with
      | Some l =>
          exists (b : PriorityQueues) (q : PolicyQueue.t) (a : PriorityQueues),
            from' = b ++ (l, q) :: a /\
            (is_Some (PolicyQueue.At q idx') \/ size <= u64 (pc + rc'))
      | None => True
      end.
Proof.
  induction from as [|[l q] rest IH]; intros k idx rc rbs Hwf Hidx Hrc Hrbs Hfit.
  - exists [], None, idx, rc, rbs. simpl.
    split; [reflexivity|]. split; [reflexivity|]. split; [constructor|].
    split; [assumption|]. split; [assumption|]. split; [lia|].
    split; [lia|]. split; [lia|]. split; [|exact I].
    rewrite Z.sub_diag, Z.add_0_r. symmetry. apply u64_small. exact Hrbs.
  - apply Forall_cons in Hwf as [Hq Hrest]. simpl in Hq.
    rewrite total_size_cons in Hfit. simpl in Hfit.
    destruct (ApplyPolicy_accounting q idx rc rbs (now k) Hq Hidx Hrc Hrbs)
      as (m & found & q' & rc1 & rbs1 & Happly & Hq' & Hrc1 & Hrbs1 & Hsz
          & Hrejlen & _).
    destruct (ApplyPolicy_result q idx rc rbs (now k) Hq Hidx Hrc Hrbs)
      as (n0 & found0 & q0 & rc0 & rbs0 & Happly0 & _ & _ & _ & Hres).
    rewrite Happly in Happly0. injection Happly0 as <- <- <- <-.
    cbn zeta in Hres. destruct Hres as (_ & _ & Hfound).
    pose proof (ApplyPolicy_batch q idx rc rbs (now k) Hq Hrc Hrbs) as Hbatch.
    rewrite Happly in Hbatch. simpl in Hbatch.
    pose proof (PolicyQueue_Size_nonneg q') as Hnn'.
    pose proof (total_size_nonneg rest) as Hnnrest.
    assert (Hrc1' : rc1 = rc + Z.of_nat m).
    { rewrite Hrc1. apply u64_small. unfold is_u64 in *. lia. }
    assert (Hrc1u : is_u64 rc1) by (rewrite Hrc1; apply u64_range).
    assert (Hzero : is_u64 0) by (unfold is_u64, U64_MODULUS; lia).
    cbn [PriorityQueue.ApplyPolicyAtCursor_loop]. rewrite Happly.
    destruct (negb found && (size >? u64 (pc + rc1))) eqn:Hcond.
    + destruct (IH (S k) 0 rc1 rbs1 Hrest Hzero Hrc1u Hrbs1)
        as (from' & it & idx' & rc' & rbs' & Hloop & Hkeys & Hwf' & Hidx'
            & Hrc' & Hle & Htot & Hrej & Hb & Hit); [lia|].
      rewrite Hloop.
      exists ((l, q') :: from'), it, idx', rc', rbs'.
      split; [reflexivity|].
      split; [unfold keys in *; rewrite !fmap_cons, Hkeys; reflexivity|].
      split; [constructor; assumption|].
      split; [assumption|]. split; [assumption|]. split; [lia|].
      split; [rewrite !total_size_cons; simpl; lia|].
      split; [rewrite !total_rejected_cons; simpl; lia|].
      split.
      * rewrite Hb, Hbatch, u64_add_l. rewrite !total_rejected_batch_cons.
        simpl. f_equal. lia.
      * destruct it as [l'|]; [|exact I].
        destruct Hit as (b & q0 & a & -> & Hcand).
        exists ((l, q') :: b), q0, a. split; [reflexivity | exact Hcand].
    + exists ((l, q') :: rest), (Some l), idx, rc1, rbs1.
      split; [reflexivity|]. split; [reflexivity|].
      split; [constructor; assumption|].
      split; [assumption|]. split; [assumption|]. split; [lia|].
      split; [rewrite !total_size_cons; simpl; lia|].
      split; [rewrite !total_rejected_cons; simpl; lia|].
      split.
      * rewrite Hbatch, !total_rejected_batch_cons. simpl. f_equal. lia.
      * exists [], q', rest. split; [reflexivity|].
        apply andb_false_iff in Hcond as [Hf|Hsize].
        -- left. apply negb_false_iff in Hf. rewrite Hf in Hfound.
           apply found_At; [exact Hidx | symmetry; exact Hfound].
        -- right. rewrite Z.gtb_ltb in Hsize. apply Z.ltb_ge in Hsize.
           exact Hsize.
Qed.

Lemma map_find_middle (l : Z) (q : PolicyQueue.t) (b a : PriorityQueues) :
  StronglySorted Z.lt (keys (b ++ (l, q) :: a)) ->
  map_find l (b ++ (l, q) :: a) = Some q.
Proof.
  intros Hs. destruct (sorted_before_below b l q a Hs) as [Hb _]. clear Hs.
  induction b as [|[k v] b IH]; simpl.
  - rewrite Z.eqb_refl. reflexivity.
  - assert (Hk : k < l) by (apply (Hb (k, v)); left).
    destruct (Z.eqb_spec k l); [lia|].
    apply IH. intros e He. apply Hb. right. exact He.
Qed.

Lemma map_split_from (l : Z) (m : PriorityQueues) :
  StronglySorted Z.lt (keys m) ->
  Forall (fun e => l <= e.1) (map_split l m).2.
Proof.
  unfold keys. induction m as [|[k v] m IH]; simpl; intros Hs; [constructor|].
  apply StronglySorted_inv in Hs as [Hs Hall].
  destruct (Z.ltb_spec k l) as [Hlt|Hge].
  - specialize (IH Hs). destruct (map_split l m) as [b f]. exact IH.
  - simpl. constructor; [exact Hge|].
    rewrite Forall_forall in Hall. apply Forall_forall. intros e He.
    assert (Hk : k < e.1); [|lia].
    apply Hall, list_elem_of_fmap. exists e. split; [reflexivity | exact He].
Qed.

Lemma example_pending_inv : PriorityQueue_inv example_pending.
Proof.
  split; [split; [|split; [|split]] | split].
  - repeat constructor.
  - repeat constructor.
  - reflexivity.
  - unfold is_u64, U64_MODULUS. simpl. lia.
  - unfold is_u64, U64_MODULUS. simpl. lia.
  - unfold is_u64, U64_MODULUS. simpl. lia.
Defined.

(** What one call of [ApplyPolicyAtCursor] does, with [rc] the payloads it
    rejected. *)
Lemma ApplyPolicyAtCursor_effect (pq : PriorityQueue.t) (now : nat -> Z) :
  PriorityQueue_wf pq ->
  is_u64 (PriorityQueue.queue_idx_ (PriorityQueue.pending_cursor_ pq)) ->
  let c := PriorityQueue.pending_cursor_ pq in
  let r := PriorityQueue.ApplyPolicyAtCursor pq now in
  let c' := PriorityQueue.pending_cursor_ r.2 in
  exists (rc : Z) (before from from' : PriorityQueues),
    0 <= rc /\
    PriorityQueue.size_ r.2 = PriorityQueue.size_ pq - rc /\
    PriorityQueue.queues_ pq = before ++ from /\
    PriorityQueue.queues_ r.2 = before ++ from' /\
    (forall l : Z, PriorityQueue.curr_it_ c = Some l ->
                   Forall (fun e => e.1 < l) before /\
                   Forall (fun e => l <= e.1) from) /\
    (PriorityQueue.curr_it_ c = None -> from = []) /\
    keys from' = keys from /\
    Forall (fun e => PolicyQueue.wf e.2) (PriorityQueue.queues_ r.2) /\
    total_size from' = total_size from - rc /\
    total_rejected from' = total_rejected from + rc /\
    r.1 = u64 (total_rejected_batch from' - total_rejected_batch from) /\
    is_u64 (PriorityQueue.queue_idx_ c') /\
    PriorityQueue.pending_batch_count_ c'
    = PriorityQueue.pending_batch_count_ c /\
    PriorityQueue.valid_ c' = PriorityQueue.valid_ c /\
    match PriorityQueue.curr_it_ c' with
    | Some l =>
        exists q : PolicyQueue.t,
          map_find l (PriorityQueue.queues_ r.2) = Some q /\
          (is_Some (PolicyQueue.At q (PriorityQueue.queue_idx_ c')) \/
           PriorityQueue.size_ pq
           <= u64 (PriorityQueue.pending_batch_count_ c + rc))
    | None => True
    end.
Proof.
  intros (Hsorted & Hwf & Hsize & Hrange) Hidx. cbv zeta.
  unfold PriorityQueue.ApplyPolicyAtCursor.
  set (c := PriorityQueue.pending_cursor_ pq) in *.
  set (m := PriorityQueue.queues_ pq) in *.
  assert (Hsp : exists before from : PriorityQueues,
             match PriorityQueue.curr_it_ c with
             | Some level => map_split level m
             | None => (m, [])
             end = (before, from) /\
             m = before ++ from /\
             (forall l : Z, PriorityQueue.curr_it_ c = Some l ->
                            Forall (fun e => e.1 < l) before /\
                            Forall (fun e => l <= e.1) from) /\
             (PriorityQueue.curr_it_ c = None -> from = [])).
  { destruct (PriorityQueue.curr_it_ c) as [l|].
    - destruct (map_split_spec l m Hsorted) as (Hm & Hb & _).
      pose proof (map_split_from l m Hsorted) as Hf.
      destruct (map_split l m) as [b f]. exists b, f.
      split; [reflexivity|]. split; [exact Hm|].
      split; [intros l' [= <-]; exact (conj Hb Hf) | discriminate].
    - exists m, []. split; [reflexivity|].
      split; [symmetry; apply app_nil_r|].
      split; [discriminate | reflexivity]. }
  destruct Hsp as (before & from & -> & Hm & Hbefore & Hend).
  rewrite Hm in Hwf, Hsorted. apply Forall_app in Hwf as [Hwb Hwfrom].
  pose proof (total_size_nonneg before) as Hnnb.
  pose proof (total_size_nonneg from) as Hnnf.
  assert (Htotal : PriorityQueue.size_ pq = total_size before + total_size from).
  { rewrite Hsize, Hm. apply total_size_app. }
  assert (Hzero : is_u64 0) by (unfold is_u64, U64_MODULUS; lia).
  destruct (ApplyPolicyAtCursor_loop_general now (PriorityQueue.size_ pq)
              (PriorityQueue.pending_batch_count_ c) from 0%nat
              (PriorityQueue.queue_idx_ c) 0 0 Hwfrom Hidx Hzero Hzero)
    as (from' & it & idx' & rc' & rbs' & Hloop & Hkeys & Hwf' & Hidx'
        & Hrc' & Hle & Htot & Hrej & Hb & Hit).
  { unfold is_u64 in Hrange. lia. }
  rewrite Hloop. pq_simpl. cbn [fst snd].
  pose proof (total_size_nonneg from') as Hnnf'.
  exists rc', before, from, from'.
  split; [lia|].
  split; [apply u64_small; unfold is_u64 in *; lia|].
  split; [exact Hm|]. split; [reflexivity|].
  split; [exact Hbefore|]. split; [exact Hend|]. split; [exact Hkeys|].
  split; [apply Forall_app; split; assumption|].
  split; [lia|]. split; [lia|].
  split; [rewrite Hb; f_equal; lia|].
  split; [exact Hidx'|]. split; [reflexivity|]. split; [reflexivity|].
  destruct it as [l|]; [|exact I].
  destruct Hit as (b & q & a & -> & Hcand).
  exists q. split; [|exact Hcand].
  rewrite app_assoc. apply map_find_middle.
  rewrite <- app_assoc.
  unfold keys in *. rewrite fmap_app, Hkeys, <- fmap_app. exact Hsorted.
Qed.

(** X20. [ApplyPolicyAtCursor] returns the sum of the batch sizes of the
    payloads it moved to rejected queues (as a 64-bit value) and lowers
    [size_] by their number, which is at most [size_]. No payload is lost
    from the count: the payloads of the main and delayed queues and those of
    the rejected queues together number as before. The levels before the
    cursor's are not touched, the set of levels is the same, and with the
    cursor at [end()] nothing changes and 0 is returned. *)
Theorem ApplyPolicyAtCursor_accounting (pq : PriorityQueue.t)
    (now : nat -> Z) :
  PriorityQueue_wf pq ->
  is_u64 (PriorityQueue.queue_idx_ (PriorityQueue.pending_cursor_ pq)) ->
  let r := PriorityQueue.ApplyPolicyAtCursor pq now in
  let m := PriorityQueue.queues_ pq in
  let m' := PriorityQueue.queues_ r.2 in
  r.1 = u64 (total_rejected_batch m' - total_rejected_batch m) /\
  PriorityQueue.size_ r.2
  = PriorityQueue.size_ pq - (total_rejected m' - total_rejected m) /\
  0 <= total_rejected m' - total_rejected m <= PriorityQueue.size_ pq /\
  total_size m' + total_rejected m' = total_size m + total_rejected m /\
  keys m' = keys m /\
  (forall (l : Z) (e : Z * PolicyQueue.t),
     PriorityQueue.curr_it_ (PriorityQueue.pending_cursor_ pq) = Some l ->
     e ∈ m -> e.1 < l -> e ∈ m') /\
  (PriorityQueue.curr_it_ (PriorityQueue.pending_cursor_ pq) = None ->
   r.1 = 0 /\ m' = m /\ PriorityQueue.size_ r.2 = PriorityQueue.size_ pq).
Proof.
  intros Hpq Hidx.
  destruct (ApplyPolicyAtCursor_effect pq now Hpq Hidx)
    as (rc & before & from & from' & Hrc & Hsz & Hm & Hm' & Hbefore & Hend
        & Hkeys & Hwf' & Htot & Hrej & Hret & _).
  destruct Hpq as (Hsorted & Hwf & Hsize & Hrange).
  cbv zeta. rewrite Hm', Hm.
  rewrite !total_rejected_batch_app, !total_rejected_app, !total_size_app.
  pose proof (total_size_nonneg before) as Hnnb.
  pose proof (total_size_nonneg from') as Hnnf'.
  assert (Htotal : PriorityQueue.size_ pq = total_size before + total_size from).
  { rewrite Hsize, Hm. apply total_size_app. }
  split; [rewrite Hret; f_equal; lia|].
  split; [lia|]. split; [lia|]. split; [lia|].
  split; [unfold keys in *; rewrite !fmap_app, Hkeys; reflexivity|].
  split.
  - intros l e Hit He Hlt. destruct (Hbefore l Hit) as [_ Hfrom].
    apply elem_of_app in He as [He|He]; [apply elem_of_app; left; exact He|].
    rewrite Forall_forall in Hfrom. specialize (Hfrom e He). lia.
  - intros Hnone. specialize (Hend Hnone). subst from.
    destruct from'; [|discriminate Hkeys].
    rewrite Hret. split; [reflexivity|]. split; [reflexivity|].
    simpl in Htot. lia.
Qed.

Lemma ApplyPolicyAtCursor_accounting_witness :
  (PriorityQueue.ApplyPolicyAtCursor example_pending (fun _ => 25)).1
  = u64 (total_rejected_batch
           (PriorityQueue.queues_
              (PriorityQueue.ApplyPolicyAtCursor example_pending
                 (fun _ => 25)).2)
         - total_rejected_batch (PriorityQueue.queues_ example_pending)).
Proof.
  apply (ApplyPolicyAtCursor_accounting example_pending (fun _ => 25)
           (proj1 example_pending_inv) (proj1 (proj2 example_pending_inv))).
Defined.

(** At time 25 the payloads of level 1 with deadlines 10 and 20 (batch sizes
    1 and 2) are rejected: 3 is returned, [size_] goes from 10 to 8, and the
    cursor stays on level 1, index 0. *)
Example ApplyPolicyAtCursor_example :
  let r := PriorityQueue.ApplyPolicyAtCursor example_pending (fun _ => 25) in
  r.1 = 3 /\ PriorityQueue.size_ r.2 = 8 /\
  PriorityQueue.curr_it_ (PriorityQueue.pending_cursor_ r.2) = Some 1 /\
  PriorityQueue.queue_idx_ (PriorityQueue.pending_cursor_ r.2) = 0 /\
  total_rejected (PriorityQueue.queues_ r.2) = 2.
Proof. vm_compute. repeat split; reflexivity. Qed.

(** ** PriorityQueue: the invariant of its member functions *)

Lemma PriorityQueue_Enqueue_inv (dp : ModelQueuePolicy.t)
    (pq : PriorityQueue.t) (level : Z) (payload : Payload) (now : Z)
    (status : Status) (pq' : PriorityQueue.t) :
  PriorityQueue_inv pq ->
  PriorityQueue.size_ pq + 1 < U64_MODULUS ->
  PriorityQueue.Enqueue dp pq level payload now = Some (status, pq') ->
  PriorityQueue_inv pq'.
Proof.
  intros ((Hsorted & Hwf & Hsize & Hrange) & Hc) Hbound.
  set (m := PriorityQueue.queues_ pq) in *.
  set (q := PriorityQueue.map_at dp level m).
  pose proof (map_at_wf dp level m Hwf) as Hq. fold q in Hq.
  pose proof (map_set_at_total_size dp level) as Htot.
  unfold PriorityQueue.Enqueue. fold m q.
  destruct (PolicyQueue_Enqueue_cases q payload now)
    as [(_ & _ & ->) | (_ & d & ->)].
  - (* the level is full *)
    simpl. intros [= _ <-]. split; [|exact Hc].
    unfold PriorityQueue_wf. pq_simpl.
    rewrite (Htot q m Hsorted). fold q.
    split; [apply map_set_sorted; exact Hsorted|].
    split; [apply map_set_Forall; assumption|].
    split; [lia | exact Hrange].
  - (* the payload is stored *)
    set (q' := PolicyQueue.with_queues q _ _ _ _).
    assert (Hq' : PolicyQueue.wf q').
    { unfold PolicyQueue.wf in *. simpl. rewrite !length_app, Hq.
      reflexivity. }
    assert (Hsz : PolicyQueue.Size q' = PolicyQueue.Size q + 1).
    { unfold PolicyQueue.Size. simpl. rewrite length_app. simpl. lia. }
    pose proof (total_size_nonneg m) as Hnn.
    assert (Hu : u64 (PriorityQueue.size_ pq + 1) = total_size m + 1).
    { rewrite Hsize. apply u64_small. unfold is_u64. lia. }
    assert (Hwf' : forall c,
               PriorityQueue_wf
                 {| PriorityQueue.queues_ := map_set level q' m;
                    PriorityQueue.size_ := u64 (PriorityQueue.size_ pq + 1);
                    PriorityQueue.pending_cursor_ := c |}).
    { intros c. split; [apply map_set_sorted; exact Hsorted|].
      split; [apply map_set_Forall; assumption|]. pq_simpl.
      rewrite Hu, (Htot q' m Hsorted). fold q. rewrite Hsz.
      split; [lia|]. unfold is_u64. lia. }
    change (IsOk Status_Success) with true. cbv iota.
    destruct (PriorityQueue.valid_ (PriorityQueue.pending_cursor_ pq)).
    + destruct (PriorityQueue.curr_it_ (PriorityQueue.pending_cursor_ pq));
        [|discriminate].
      intros [= _ <-]. split; [apply Hwf' | exact Hc].
    + intros [= _ <-]. split; [apply Hwf' | exact Hc].
Qed.

Lemma PriorityQueue_Dequeue_inv (pq : PriorityQueue.t) :
  PriorityQueue_inv pq -> PriorityQueue_inv (PriorityQueue.Dequeue pq).2.
Proof.
  intros ((Hsorted & Hwf & Hsize & Hrange) & Hc).
  unfold PriorityQueue.Dequeue.
  destruct (Forall_or_Exists_empty (PriorityQueue.queues_ pq)) as [Hall|Hex].
  - rewrite (Dequeue_loop_all_empty _ Hall).
    split; [exact (conj Hsorted (conj Hwf (conj Hsize Hrange))) | exact Hc].
  - destruct (Dequeue_loop_first_nonempty _ Hex)
      as (before & level & q & after & res & q' & Hsplit & Hb & Hq & Hd
          & ->).
    destruct (PolicyQueue_Dequeue_nonempty q Hq)
      as (res0 & q0 & Hd0 & Hsz & _).
    rewrite Hd in Hd0. injection Hd0 as <- <-.
    split; [|exact Hc].
    unfold PriorityQueue_wf. pq_simpl. cbn [snd].
    pq_simpl. rewrite Hsplit in *.
    assert (Htot : total_size (before ++ (level, q') :: after)
                   = total_size (before ++ (level, q) :: after) - 1).
    { rewrite !total_size_app. simpl. lia. }
    pose proof (total_size_nonneg (before ++ (level, q') :: after)) as Hnn.
    rewrite Htot in *.
    rewrite u64_small by (unfold is_u64 in *; lia).
    split.
    { unfold keys in *. rewrite fmap_app in *. exact Hsorted. }
    split.
    { apply Forall_app in Hwf as [Hw1 Hw2].
      apply Forall_cons in Hw2 as [Hw2 Hw3].
      apply Forall_app. split; [exact Hw1|].
      constructor; [|exact Hw3].
      simpl in *. eapply PolicyQueue_Dequeue_wf; eassumption. }
    unfold is_u64 in *. lia.
Qed.

Lemma ApplyPolicyAtCursor_inv (pq : PriorityQueue.t) (now : nat -> Z) :
  PriorityQueue_inv pq ->
  PriorityQueue_inv (PriorityQueue.ApplyPolicyAtCursor pq now).2.
Proof.
  intros (Hpq & Hidx & Hcount).
  destruct (ApplyPolicyAtCursor_effect pq now Hpq Hidx)
    as (rc & before & from & from' & Hrc & Hsz & Hm & Hm' & _ & _
        & Hkeys & Hwf' & Htot & _ & _ & Hidx' & Hcount' & _).
  destruct Hpq as (Hsorted & Hwf & Hsize & Hrange).
  pose proof (total_size_nonneg from') as Hnn.
  pose proof (total_size_nonneg before) as Hnnb.
  split; [|split; [exact Hidx' | rewrite Hcount'; exact Hcount]].
  split; [|split; [exact Hwf'|]].
  - rewrite Hm'. rewrite Hm in Hsorted.
    unfold keys in *. rewrite fmap_app, Hkeys, <- fmap_app. exact Hsorted.
  - rewrite Hsz, Hm', Hsize, Hm, !total_size_app.
    split; [lia|].
    rewrite Hsize, Hm, total_size_app in Hrange. unfold is_u64 in *. lia.
Qed.

Lemma AdvanceCursor_inv (pq pq' : PriorityQueue.t) :
  PriorityQueue_inv pq -> PriorityQueue.AdvanceCursor pq = Some pq' ->
  PriorityQueue_inv pq'.
Proof.
  intros (Hpq & Hc). unfold PriorityQueue.AdvanceCursor.
  destruct (_ >=? _); [intros [= <-]; exact (conj Hpq Hc)|].
  destruct (PriorityQueue.curr_it_ _); [|discriminate].
  destruct (map_find _ _); [|discriminate].
  destruct (PolicyQueue.At _ _); [|discriminate].
  intros [= <-]. split; [exact Hpq|].
  split; pq_simpl; apply u64_range.
Qed.

(** X21. The constructor (for [priority_levels] below the largest
    [uint32_t], where it returns) gives, and every member function keeps, a
    queue whose levels are in increasing order, whose deadlines run in
    parallel with the main queue of each level, whose [size_] is the number
    of payloads in the main and delayed queues of all levels, and whose
    counters hold 64-bit values. For [Enqueue] this needs room for one more
    payload in a 64-bit [size_]. *)
Theorem PriorityQueue_inv_invariant (dp : ModelQueuePolicy.t)
    (pq : PriorityQueue.t) :
  (forall (dflt : ModelQueuePolicy.t) (priority_levels : nat)
          (policies : gmap Z ModelQueuePolicy.t),
     Z.of_nat priority_levels < UINT32_MAX ->
     PriorityQueue_inv (PriorityQueue.ctor dflt priority_levels policies)) /\
  (PriorityQueue_inv pq ->
   (forall (level : Z) (payload : Payload) (now : Z) (status : Status)
           (pq' : PriorityQueue.t),
      PriorityQueue.size_ pq + 1 < U64_MODULUS ->
      PriorityQueue.Enqueue dp pq level payload now = Some (status, pq') ->
      PriorityQueue_inv pq') /\
   PriorityQueue_inv (PriorityQueue.Dequeue pq).2 /\
   PriorityQueue_inv (PriorityQueue.ReleaseRejectedPayloads pq).2 /\
   PriorityQueue_inv (PriorityQueue.ResetCursor pq) /\
   (forall now : nat -> Z,
      PriorityQueue_inv (PriorityQueue.ApplyPolicyAtCursor pq now).2) /\
   (forall pq' : PriorityQueue.t,
      PriorityQueue.AdvanceCursor pq = Some pq' -> PriorityQueue_inv pq')).
Proof.
  assert (Hzero : is_u64 0) by (unfold is_u64, U64_MODULUS; lia).
  split.
  - intros dflt n policies Hn.
    destruct (Constructed_RunInv _ (ctor_Constructed dflt n policies Hn))
      as (Hwf & Hidx & Hcount & _).
    split; [exact Hwf|]. split; [rewrite Hidx | rewrite Hcount]; exact Hzero.
  - intros Hinv.
    split; [intros level payload now status pq' Hb He;
            exact (PriorityQueue_Enqueue_inv dp pq level payload now status
                     pq' Hinv Hb He)|].
    split; [apply PriorityQueue_Dequeue_inv; exact Hinv|].
    split; [|split; [|split]].
    + destruct Hinv as ((Hsorted & Hwf & Hsize & Hrange) & Hc).
      destruct (Release_levels (PriorityQueue.queues_ pq))
        as (Hk & Ht & _ & Hw & _).
      split; [|exact Hc].
      unfold PriorityQueue_wf, PriorityQueue.ReleaseRejectedPayloads.
      pq_simpl. cbn [snd]. pq_simpl.
      split; [rewrite Hk; exact Hsorted|].
      split; [exact (Hw Hwf)|].
      split; [rewrite Ht; exact Hsize | exact Hrange].
    + destruct Hinv as (Hwf & _).
      split; [exact Hwf | split; exact Hzero].
    + intros now. apply ApplyPolicyAtCursor_inv. exact Hinv.
    + intros pq' Ha. exact (AdvanceCursor_inv pq pq' Hinv Ha).
Qed.

Lemma PriorityQueue_inv_example :
  PriorityQueue_inv
    (PriorityQueue.ApplyPolicyAtCursor example_pending (fun _ => 25)).2.
Proof. apply ApplyPolicyAtCursor_inv, example_pending_inv. Qed.

(** ** PriorityQueue: advancing the cursor *)

(** X22. After [ApplyPolicyAtCursor] has left the cursor on a level (its
    [assert]), [AdvanceCursor] is defined: either the pending batch already
    counts every payload, and the call changes nothing, or the cursor is on
    a payload, which the call admits, the pending count going up by one.
    The pending count and [size_] are taken to fit together in 64 bits. *)
Theorem AdvanceCursor_after_ApplyPolicyAtCursor (pq : PriorityQueue.t)
    (now : nat -> Z) :
  PriorityQueue_inv pq ->
  PriorityQueue.pending_batch_count_ (PriorityQueue.pending_cursor_ pq)
  + PriorityQueue.size_ pq < U64_MODULUS ->
  PriorityQueue.curr_it_
    (PriorityQueue.pending_cursor_
       (PriorityQueue.ApplyPolicyAtCursor pq now).2) <> None ->
  let pq1 := (PriorityQueue.ApplyPolicyAtCursor pq now).2 in
  let count := PriorityQueue.pending_batch_count_
                 (PriorityQueue.pending_cursor_ pq) in
  exists pq2 : PriorityQueue.t,
    PriorityQueue.AdvanceCursor pq1 = Some pq2 /\
    (PriorityQueue.size_ pq1 <= count -> pq2 = pq1) /\
    (count < PriorityQueue.size_ pq1 ->
     PriorityQueue.pending_batch_count_ (PriorityQueue.pending_cursor_ pq2)
     = count + 1 /\
     exists (l : Z) (q : PolicyQueue.t),
       PriorityQueue.curr_it_ (PriorityQueue.pending_cursor_ pq1) = Some l /\
       map_find l (PriorityQueue.queues_ pq1) = Some q /\
       is_Some (PolicyQueue.At q
                  (PriorityQueue.queue_idx_
                     (PriorityQueue.pending_cursor_ pq1)))).
Proof.
  intros (Hpq & Hidx & Hcount) Hfit Hassert. cbv zeta.
  destruct (ApplyPolicyAtCursor_effect pq now Hpq Hidx)
    as (rc & before & from & from' & Hrc & Hsz & Hm & Hm' & _ & _
        & Hkeys & Hwf' & Htot & _ & _ & Hidx' & Hcount' & _ & Hit).
  cbv zeta in Hit.
  destruct Hpq as (Hsorted & Hwf & Hsize & Hrange).
  pose proof (total_size_nonneg from') as Hnn.
  pose proof (total_size_nonneg before) as Hnnb.
  assert (Hle : rc <= PriorityQueue.size_ pq).
  { rewrite Hsize, Hm, total_size_app. lia. }
  set (pq1 := (PriorityQueue.ApplyPolicyAtCursor pq now).2) in *.
  set (count := PriorityQueue.pending_batch_count_
                  (PriorityQueue.pending_cursor_ pq)) in *.
  destruct (PriorityQueue.curr_it_ (PriorityQueue.pending_cursor_ pq1))
    as [l|] eqn:Hl; [|contradiction].
  destruct Hit as (q & Hfind & Hcand).
  unfold PriorityQueue.AdvanceCursor. rewrite Hcount'. fold count.
  destruct (Z.geb_spec count (PriorityQueue.size_ pq1)) as [Hge|Hlt].
  - exists pq1. split; [reflexivity|]. split; [reflexivity | lia].
  - rewrite Hl, Hfind.
    destruct Hcand as [Hat|Hall].
    + destruct Hat as [p Hp]. rewrite Hp. eexists. split; [reflexivity|].
      split; [lia|]. intros _. pq_simpl.
      split.
      * apply u64_small. unfold is_u64 in *. lia.
      * exists l, q. split; [reflexivity|]. split; [exact Hfind|].
        rewrite Hp. eexists. reflexivity.
    + rewrite u64_small in Hall by (unfold is_u64 in *; lia). lia.
Qed.

Lemma AdvanceCursor_after_ApplyPolicyAtCursor_witness :
  exists pq2 : PriorityQueue.t,
    PriorityQueue.AdvanceCursor
      (PriorityQueue.ApplyPolicyAtCursor example_pending (fun _ => 25)).2
    = Some pq2.
Proof.
  destruct (AdvanceCursor_after_ApplyPolicyAtCursor example_pending
              (fun _ => 25) example_pending_inv)
    as (pq2 & H & _).
  - unfold U64_MODULUS. simpl. lia.
  - vm_compute. discriminate.
  - exists pq2. exact H.
Defined.

(** The payload the advance admits in the example is the third of level 1
    (batch size 3, no deadline): the two before it were rejected. *)
Example AdvanceCursor_example :
  exists pq2 : PriorityQueue.t,
    PriorityQueue.AdvanceCursor
      (PriorityQueue.ApplyPolicyAtCursor example_pending (fun _ => 25)).2
    = Some pq2 /\
    PriorityQueue.pending_batch_count_ (PriorityQueue.pending_cursor_ pq2) = 1 /\
    PriorityQueue.queue_idx_ (PriorityQueue.pending_cursor_ pq2) = 1 /\
    PriorityQueue.pending_batch_closest_timeout_ns_
      (PriorityQueue.pending_cursor_ pq2) = 0 /\
    (forall q, map_find 1 (PriorityQueue.queues_ pq2) = Some q ->
               PolicyQueue.At q 0 = Some (example_payload 0 3)).
Proof.
  eexists. split; [vm_compute; reflexivity|].
  split; [reflexivity|]. split; [reflexivity|]. split; [reflexivity|].
  intros q [= <-]. reflexivity.
Qed.

(** X23. [AdvanceCursor] by cases. With the pending batch counting every
    payload it changes nothing. Otherwise it is defined exactly when the
    cursor is on a payload; it then moves the index and the count up by one
    and leaves the queues, [size_], the level of the cursor and the valid
    flag as they were. The oldest enqueue time becomes that of the payload
    when it was unset (0) and the smaller of the two otherwise; the closest
    deadline is kept when the payload has none, and otherwise becomes the
    payload's when it was unset and the smaller of the two when set. *)
Theorem AdvanceCursor_spec (pq : PriorityQueue.t) :
  let c := PriorityQueue.pending_cursor_ pq in
  (PriorityQueue.size_ pq <= PriorityQueue.pending_batch_count_ c ->
   PriorityQueue.AdvanceCursor pq = Some pq) /\
  (PriorityQueue.pending_batch_count_ c < PriorityQueue.size_ pq ->
   (PriorityQueue.AdvanceCursor pq = None <->
    ~ exists (l : Z) (q : PolicyQueue.t),
        PriorityQueue.curr_it_ c = Some l /\
        map_find l (PriorityQueue.queues_ pq) = Some q /\
        is_Some (PolicyQueue.At q (PriorityQueue.queue_idx_ c))) /\
   (forall (l : Z) (q : PolicyQueue.t) (p : Payload),
      PriorityQueue.curr_it_ c = Some l ->
      map_find l (PriorityQueue.queues_ pq) = Some q ->
      PolicyQueue.At q (PriorityQueue.queue_idx_ c) = Some p ->
      exists pq' : PriorityQueue.t,
        let c' := PriorityQueue.pending_cursor_ pq' in
        let d := PolicyQueue.TimeoutAt q (PriorityQueue.queue_idx_ c) in
        let oldest := PriorityQueue.pending_batch_oldest_enqueue_time_ns_ c in
        let closest := PriorityQueue.pending_batch_closest_timeout_ns_ c in
        PriorityQueue.AdvanceCursor pq = Some pq' /\
        PriorityQueue.queues_ pq' = PriorityQueue.queues_ pq /\
        PriorityQueue.size_ pq' = PriorityQueue.size_ pq /\
        PriorityQueue.curr_it_ c' = Some l /\
        PriorityQueue.valid_ c' = PriorityQueue.valid_ c /\
        PriorityQueue.queue_idx_ c' = u64 (PriorityQueue.queue_idx_ c + 1) /\
        PriorityQueue.pending_batch_count_ c'
        = u64 (PriorityQueue.pending_batch_count_ c + 1) /\
        PriorityQueue.pending_batch_oldest_enqueue_time_ns_ c'
        = (if oldest =? 0 then QueueStartNs p
           else Z.min oldest (QueueStartNs p)) /\
        PriorityQueue.pending_batch_closest_timeout_ns_ c'
        = (if d =? 0 then closest
           else if closest =? 0 then d else Z.min closest d) /\
        (closest <> 0 ->
         PriorityQueue.pending_batch_closest_timeout_ns_ c' <> 0 /\
         PriorityQueue.pending_batch_closest_timeout_ns_ c' <= closest))).
Proof.
  cbv zeta. unfold PriorityQueue.AdvanceCursor. split.
  - intros Hle.
    destruct (Z.geb_spec
                (PriorityQueue.pending_batch_count_
                   (PriorityQueue.pending_cursor_ pq))
                (PriorityQueue.size_ pq)); [reflexivity | lia].
  - intros Hlt.
    destruct (Z.geb_spec
                (PriorityQueue.pending_batch_count_
                   (PriorityQueue.pending_cursor_ pq))
                (PriorityQueue.size_ pq)); [lia|].
    split.
    + destruct (PriorityQueue.curr_it_ (PriorityQueue.pending_cursor_ pq))
        as [l|].
      * destruct (map_find l (PriorityQueue.queues_ pq)) as [q|] eqn:Hfind.
        -- destruct (PolicyQueue.At q _) as [p|] eqn:Hat.
           ++ split; [discriminate|]. intros Hno. exfalso. apply Hno.
              exists l, q. split; [reflexivity|]. split; [exact Hfind|].
              rewrite Hat. eexists. reflexivity.
           ++ split; [|reflexivity]. intros _ (l' & q' & [= <-] & Hq & Hs).
              rewrite Hfind in Hq. injection Hq as <-.
              rewrite Hat in Hs. destruct Hs as [x Hx]. discriminate Hx.
        -- split; [|reflexivity].
           intros _ (l' & q' & [= <-] & Hq & _).
           rewrite Hfind in Hq. discriminate Hq.
      * split; [|reflexivity].
        intros _ (l' & q' & Hl & _). discriminate Hl.
    + intros l q p -> -> ->. eexists. split; [reflexivity|]. pq_simpl.
      split; [reflexivity|]. split; [reflexivity|]. split; [reflexivity|].
      split; [reflexivity|]. split; [reflexivity|]. split; [reflexivity|].
      unfold PriorityQueue.min_or_first.
      set (d := PolicyQueue.TimeoutAt q _).
      set (oldest := PriorityQueue.pending_batch_oldest_enqueue_time_ns_ _).
      set (closest := PriorityQueue.pending_batch_closest_timeout_ns_ _).
      split; [destruct (oldest =? 0); reflexivity|].
      split; [destruct (d =? 0), (closest =? 0); reflexivity|].
      intros Hset.
      destruct (Z.eqb_spec d 0); simpl; [lia|].
      destruct (Z.eqb_spec closest 0); simpl; lia.
Qed.

(** ** PolicyQueue: a level without a default timeout *)

Lemma timed_out_prefix_no_deadline (now : Z) (deadlines : list Z) :
  Forall (fun d => d = 0) deadlines -> timed_out_prefix now deadlines = 0%nat.
Proof. intros [|d rest -> _]; reflexivity. Qed.

(** X24. A level whose default timeout is 0 never times a payload out, even
    when it allows the timeout to be overridden and the request carries a
    timeout of its own: the override is taken only when it is below the
    default. Every deadline [Enqueue] stores on such a level is 0, the other
    member functions keep it so, and [ApplyPolicy] at any index and any
    clock reading leaves the queue and both counters as they were. *)
Theorem no_default_timeout_no_deadline (q : PolicyQueue.t) :
  PolicyQueue.wf q -> no_deadlines q ->
  (forall (p : Payload) (now : Z),
     0 <= TimeoutMs (Request p) ->
     no_deadlines (PolicyQueue.Enqueue q p now).2) /\
  (forall (res : Payload) (q' : PolicyQueue.t),
     PolicyQueue.Dequeue q = Some (res, q') -> no_deadlines q') /\
  no_deadlines (PolicyQueue.ReleaseRejectedQueue q).2 /\
  (forall idx rc rbs now : Z,
     is_u64 rc -> is_u64 rbs ->
     exists found : bool,
       PolicyQueue.ApplyPolicy q idx rc rbs now = (found, q, rc, rbs)).
Proof.
  intros Hwf [Hdefault Hzero]. split; [|split; [|split]].
  - intros p now Hpos. unfold PolicyQueue.Enqueue.
    destruct (_ && _); [exact (conj Hdefault Hzero)|].
    split; [exact Hdefault|]. simpl. apply Forall_app. split; [exact Hzero|].
    constructor; [|constructor]. rewrite Hdefault.
    destruct (PolicyQueue.allow_timeout_override_ q); [|reflexivity].
    destruct (Z.ltb_spec (TimeoutMs (Request p)) 0); [lia|].
    rewrite andb_false_r. reflexivity.
  - intros res q'. unfold PolicyQueue.Dequeue.
    destruct (PolicyQueue.queue_ q).
    + destruct (PolicyQueue.delayed_queue_ q); [discriminate|].
      intros [= _ <-]. exact (conj Hdefault Hzero).
    + intros [= _ <-]. split; [exact Hdefault|]. simpl.
      destruct Hzero; [constructor | assumption].
  - exact (conj Hdefault Hzero).
  - intros idx rc rbs now Hrc Hrbs. eexists.
    apply ApplyPolicy_nothing_timed_out; [assumption..|].
    apply timed_out_prefix_no_deadline, Forall_drop. exact Hzero.
Qed.

(** A level with no default timeout that allows overrides: a request with a
    timeout of 7 ms enqueued at time 100 gets no deadline and is still a
    candidate at time 10^12. *)
Lemma no_default_timeout_no_deadline_witness :
  no_deadlines
    (PolicyQueue.Enqueue (example_queue ModelQueuePolicy.REJECT 0 true 0)
       (example_payload 7 1) 100).2.
Proof.
  apply (no_default_timeout_no_deadline
           (example_queue ModelQueuePolicy.REJECT 0 true 0)).
  - reflexivity.
  - split; [reflexivity | constructor].
  - simpl. lia.
Defined.

Example no_default_timeout_example :
  let q := (PolicyQueue.Enqueue (example_queue ModelQueuePolicy.REJECT 0 true 0)
              (example_payload 7 1) 100).2 in
  PolicyQueue.timeout_timestamp_ns_ q = [0] /\
  PolicyQueue.ApplyPolicy q 0 0 0 1000000000000 = (true, q, 0, 0).
Proof.
  split; [reflexivity|].
  unfold PolicyQueue.ApplyPolicy. rewrite ApplyPolicy_loop_unfold.
  reflexivity.
Qed.
